(** * Multi-label STAPLE (performance-weighted label fusion)

    Shallow embedding of [itk::MultiLabelSTAPLE2ImageFilter]
    (src/combinesegmentations/itkMultiLabelSTAPLE2ImageFilter.h).

    The header declares the filter's state and defines its configuration
    surface inline: the Set/Unset/Get members, [CleanProbabilisticSegmentations]
    and [GetConfusionMatrix].  These are embedded from the C++ text.  The
    numerical engine ([GenerateData] and the protected helpers it calls) is
    only declared in the header; its definitions live in the .txx file, which
    is not part of the sources.  The engine is therefore modelled from the
    design document, stage by stage, in the second half of this file. *)

From Stdlib Require Import QArith Qcanon Qcabs.
From stdpp Require Import base list numbers option list_numbers strings.

(** ** Template parameters and typedefs

    [TInputImage], [TOutputImage] and [TWeights] are template parameters.
    Labels are non-negative integers, so both pixel types are [nat]; an image
    is the list of its pixels in raster order (every operation of the filter
    is pixelwise, so the spatial layout plays no role).  The input pixel
    type has a largest value, fixed by the instantiation of the template
    ([InputPixelTypeMax] of an [Implementation]); where the filter computes
    a value of that type, the class count of [DiscoverNumberOfClasses], the
    result is reduced to the type.  [TWeights] defaults
    to [float]; weights are embedded as exact rationals [Qc], so rounding is
    not represented. *)

Abbreviation InputPixelType := nat (only parsing).
Abbreviation OutputPixelType := nat (only parsing).
Abbreviation WeightsType := Qc (only parsing).
Abbreviation InputImageType := (list nat) (only parsing).
Abbreviation OutputImageType := (list nat) (only parsing).
Abbreviation MaskImageType := (list nat) (only parsing).
Abbreviation ConfusionMatrixType := (list (list Qc)) (only parsing).
Abbreviation PriorProbabilitiesType := (list Qc) (only parsing).
Abbreviation ProbabilityImageType := (list Qc) (only parsing).
Abbreviation PriorProbabilityImageArrayType := (list (list Qc)) (only parsing).
Abbreviation ObserverTrustType := (list Qc) (only parsing).
Abbreviation ProbabilisticSegmentationArrayType := (list (list Qc)) (only parsing).
Abbreviation PriorPreferenceType := (list nat) (only parsing).

(** ** The filter object

    One field per data member, in the order of the header (protected members,
    then private settings).  The last three fields belong to the superclasses
    [itk::Object] and [itk::ProcessObject], which are not under src/: the
    modification time stamp bumped by [Modified()], the input segmentations
    and the output label image.  [m_MaskImage] is a smart pointer that may be
    null, hence the [option]. *)

Record MultiLabelSTAPLE2ImageFilter : Type := Build_Filter {
  m_NumberOfClasses : InputPixelType;
  m_HasPriorProbabilities : bool;
  m_HasObserverTrust : bool;
  m_HasMaximumNumberOfIterations : bool;
  m_HasPriorProbabilityImageArray : bool;
  m_HasNumberOfClasses : bool;
  m_HasPriorPreference : bool;
  m_PriorProbabilities : PriorProbabilitiesType;
  m_PriorProbabilityImageArray : PriorProbabilityImageArrayType;
  m_ObserverTrust : ObserverTrustType;
  m_ConfusionMatrixArray : list ConfusionMatrixType;
  m_UpdatedConfusionMatrixArray : list ConfusionMatrixType;
  m_ProbabilisticSegmentationArray : ProbabilisticSegmentationArrayType;
  m_PriorPreference : PriorPreferenceType;
  m_MaximumConfusionMatrixElementUpdate : WeightsType;
  m_ElapsedIterations : nat;
  m_MaximumNumberOfIterations : nat;
  m_GenerateProbabilisticSegmentations : bool;
  m_TerminationUpdateThreshold : WeightsType;
  m_MaskImage : option MaskImageType;
  m_InitializeWithMajorityVoting : bool;
  m_MTime : nat;
  m_Inputs : list InputImageType;
  m_Output : OutputImageType
}.

Abbreviation Filter := MultiLabelSTAPLE2ImageFilter.

(** Functional field updates ([this->m_X = v]). *)

Definition with_MTime (mt' : nat) (f : Filter) : Filter :=
  let '(Build_Filter nc hpp hot hmi hpa hnc hpf pp pa ot cm ucm ps pf mu ei mi
      gps tut mk imv mt ins out) := f in
  Build_Filter nc hpp hot hmi hpa hnc hpf pp pa ot cm ucm ps pf mu ei mi gps
      tut mk imv mt' ins out.

Definition with_HasMaximumNumberOfIterations (hmi' : bool) (f : Filter) : Filter :=
  let '(Build_Filter nc hpp hot hmi hpa hnc hpf pp pa ot cm ucm ps pf mu ei mi
      gps tut mk imv mt ins out) := f in
  Build_Filter nc hpp hot hmi' hpa hnc hpf pp pa ot cm ucm ps pf mu ei mi gps
      tut mk imv mt ins out.

Definition with_HasPriorPreference (hpf' : bool) (f : Filter) : Filter :=
  let '(Build_Filter nc hpp hot hmi hpa hnc hpf pp pa ot cm ucm ps pf mu ei mi
      gps tut mk imv mt ins out) := f in
  Build_Filter nc hpp hot hmi hpa hnc hpf' pp pa ot cm ucm ps pf mu ei mi gps
      tut mk imv mt ins out.

Definition with_HasPriorProbabilityImageArray (hpa' : bool) (f : Filter) : Filter :=
  let '(Build_Filter nc hpp hot hmi hpa hnc hpf pp pa ot cm ucm ps pf mu ei mi
      gps tut mk imv mt ins out) := f in
  Build_Filter nc hpp hot hmi hpa' hnc hpf pp pa ot cm ucm ps pf mu ei mi gps
      tut mk imv mt ins out.

Definition with_HasPriorProbabilities (hpp' : bool) (f : Filter) : Filter :=
  let '(Build_Filter nc hpp hot hmi hpa hnc hpf pp pa ot cm ucm ps pf mu ei mi
      gps tut mk imv mt ins out) := f in
  Build_Filter nc hpp' hot hmi hpa hnc hpf pp pa ot cm ucm ps pf mu ei mi gps
      tut mk imv mt ins out.

Definition with_HasObserverTrust (hot' : bool) (f : Filter) : Filter :=
  let '(Build_Filter nc hpp hot hmi hpa hnc hpf pp pa ot cm ucm ps pf mu ei mi
      gps tut mk imv mt ins out) := f in
  Build_Filter nc hpp hot' hmi hpa hnc hpf pp pa ot cm ucm ps pf mu ei mi gps
      tut mk imv mt ins out.

Definition with_HasNumberOfClasses (hnc' : bool) (f : Filter) : Filter :=
  let '(Build_Filter nc hpp hot hmi hpa hnc hpf pp pa ot cm ucm ps pf mu ei mi
      gps tut mk imv mt ins out) := f in
  Build_Filter nc hpp hot hmi hpa hnc' hpf pp pa ot cm ucm ps pf mu ei mi gps
      tut mk imv mt ins out.

Definition with_MaximumNumberOfIterations (mi' : nat) (f : Filter) : Filter :=
  let '(Build_Filter nc hpp hot hmi hpa hnc hpf pp pa ot cm ucm ps pf mu ei mi
      gps tut mk imv mt ins out) := f in
  Build_Filter nc hpp hot hmi hpa hnc hpf pp pa ot cm ucm ps pf mu ei mi' gps
      tut mk imv mt ins out.

Definition with_PriorPreference (pf' : PriorPreferenceType) (f : Filter) : Filter :=
  let '(Build_Filter nc hpp hot hmi hpa hnc hpf pp pa ot cm ucm ps pf mu ei mi
      gps tut mk imv mt ins out) := f in
  Build_Filter nc hpp hot hmi hpa hnc hpf pp pa ot cm ucm ps pf' mu ei mi gps
      tut mk imv mt ins out.

Definition with_PriorProbabilityImageArray (pa' : PriorProbabilityImageArrayType) (f : Filter) : Filter :=
  let '(Build_Filter nc hpp hot hmi hpa hnc hpf pp pa ot cm ucm ps pf mu ei mi
      gps tut mk imv mt ins out) := f in
  Build_Filter nc hpp hot hmi hpa hnc hpf pp pa' ot cm ucm ps pf mu ei mi gps
      tut mk imv mt ins out.

Definition with_PriorProbabilities (pp' : PriorProbabilitiesType) (f : Filter) : Filter :=
  let '(Build_Filter nc hpp hot hmi hpa hnc hpf pp pa ot cm ucm ps pf mu ei mi
      gps tut mk imv mt ins out) := f in
  Build_Filter nc hpp hot hmi hpa hnc hpf pp' pa ot cm ucm ps pf mu ei mi gps
      tut mk imv mt ins out.

Definition with_ObserverTrust (ot' : ObserverTrustType) (f : Filter) : Filter :=
  let '(Build_Filter nc hpp hot hmi hpa hnc hpf pp pa ot cm ucm ps pf mu ei mi
      gps tut mk imv mt ins out) := f in
  Build_Filter nc hpp hot hmi hpa hnc hpf pp pa ot' cm ucm ps pf mu ei mi gps
      tut mk imv mt ins out.

Definition with_NumberOfClasses (nc' : InputPixelType) (f : Filter) : Filter :=
  let '(Build_Filter nc hpp hot hmi hpa hnc hpf pp pa ot cm ucm ps pf mu ei mi
      gps tut mk imv mt ins out) := f in
  Build_Filter nc' hpp hot hmi hpa hnc hpf pp pa ot cm ucm ps pf mu ei mi gps
      tut mk imv mt ins out.

Definition with_ProbabilisticSegmentationArray (ps' : ProbabilisticSegmentationArrayType) (f : Filter) : Filter :=
  let '(Build_Filter nc hpp hot hmi hpa hnc hpf pp pa ot cm ucm ps pf mu ei mi
      gps tut mk imv mt ins out) := f in
  Build_Filter nc hpp hot hmi hpa hnc hpf pp pa ot cm ucm ps' pf mu ei mi gps
      tut mk imv mt ins out.

Definition with_ConfusionMatrixArray (cm' : list ConfusionMatrixType) (f : Filter) : Filter :=
  let '(Build_Filter nc hpp hot hmi hpa hnc hpf pp pa ot cm ucm ps pf mu ei mi
      gps tut mk imv mt ins out) := f in
  Build_Filter nc hpp hot hmi hpa hnc hpf pp pa ot cm' ucm ps pf mu ei mi gps
      tut mk imv mt ins out.

Definition with_UpdatedConfusionMatrixArray (ucm' : list ConfusionMatrixType) (f : Filter) : Filter :=
  let '(Build_Filter nc hpp hot hmi hpa hnc hpf pp pa ot cm ucm ps pf mu ei mi
      gps tut mk imv mt ins out) := f in
  Build_Filter nc hpp hot hmi hpa hnc hpf pp pa ot cm ucm' ps pf mu ei mi gps
      tut mk imv mt ins out.

Definition with_MaximumConfusionMatrixElementUpdate (mu' : WeightsType) (f : Filter) : Filter :=
  let '(Build_Filter nc hpp hot hmi hpa hnc hpf pp pa ot cm ucm ps pf mu ei mi
      gps tut mk imv mt ins out) := f in
  Build_Filter nc hpp hot hmi hpa hnc hpf pp pa ot cm ucm ps pf mu' ei mi gps
      tut mk imv mt ins out.

Definition with_ElapsedIterations (ei' : nat) (f : Filter) : Filter :=
  let '(Build_Filter nc hpp hot hmi hpa hnc hpf pp pa ot cm ucm ps pf mu ei mi
      gps tut mk imv mt ins out) := f in
  Build_Filter nc hpp hot hmi hpa hnc hpf pp pa ot cm ucm ps pf mu ei' mi gps
      tut mk imv mt ins out.

Definition with_Output (out' : OutputImageType) (f : Filter) : Filter :=
  let '(Build_Filter nc hpp hot hmi hpa hnc hpf pp pa ot cm ucm ps pf mu ei mi
      gps tut mk imv mt ins out) := f in
  Build_Filter nc hpp hot hmi hpa hnc hpf pp pa ot cm ucm ps pf mu ei mi gps
      tut mk imv mt ins out'.

(** ** Members defined in the header

    The accessors generated by ITK's [itkSetMacro] / [itkGetConstMacro] /
    [itkSetObjectMacro] (termination threshold, mask image, majority-voting
    and probabilistic-output switches) expand from macros that are not under
    src/; the engine below reads the corresponding fields directly. *)

(** Modelled from the spec: [itk::Object::Modified()], inherited and not under
    src/.  The design notes describe it as change tracking; it touches nothing
    but the time stamp, which strictly increases. *)
Definition Modified (f : Filter) : Filter :=
  with_MTime (S (m_MTime f)) f.

(** Set/get/unset maximum number of iterations. *)
Definition SetMaximumNumberOfIterations (mit : nat) (f : Filter) : Filter :=
  Modified (with_HasMaximumNumberOfIterations true
              (with_MaximumNumberOfIterations mit f)).

Definition GetMaximumNumberOfIterations (f : Filter) : nat :=
  m_MaximumNumberOfIterations f.

Definition UnsetMaximumNumberOfIterations (f : Filter) : Filter :=
  if m_HasMaximumNumberOfIterations f
  then Modified (with_HasMaximumNumberOfIterations false f)
  else f.

(** Set/get/unset prior preference. *)
Definition SetPriorPreference (ppa : PriorPreferenceType) (f : Filter) : Filter :=
  Modified (with_HasPriorPreference true (with_PriorPreference ppa f)).

Definition GetPriorPreference (f : Filter) : PriorPreferenceType :=
  m_PriorPreference f.

Definition UnsetPriorPreference (f : Filter) : Filter :=
  if m_HasPriorPreference f
  then Modified (with_HasPriorPreference false f)
  else f.

(** Set/get/unset an array of prior probability images. *)
Definition SetPriorProbabilityImageArray
    (arg : PriorProbabilityImageArrayType) (f : Filter) : Filter :=
  Modified (with_HasPriorProbabilityImageArray true
              (with_PriorProbabilityImageArray arg f)).

Definition GetPriorProbabilityImageArray (f : Filter)
    : PriorProbabilityImageArrayType :=
  m_PriorProbabilityImageArray f.

Definition UnsetPriorProbabilityImageArray (f : Filter) : Filter :=
  if m_HasPriorProbabilityImageArray f
  then Modified (with_HasPriorProbabilityImageArray false f)
  else f.

(** Set/get/unset prior class probabilities. *)
Definition SetPriorProbabilities (ppa : PriorProbabilitiesType) (f : Filter)
    : Filter :=
  Modified (with_HasPriorProbabilities true (with_PriorProbabilities ppa f)).

Definition GetPriorProbabilities (f : Filter) : PriorProbabilitiesType :=
  m_PriorProbabilities f.

Definition UnsetPriorProbabilities (f : Filter) : Filter :=
  if m_HasPriorProbabilities f
  then Modified (with_HasPriorProbabilities false f)
  else f.

(** Set/get/unset observer trust factors. *)
Definition SetObserverTrust (ot : ObserverTrustType) (f : Filter) : Filter :=
  Modified (with_HasObserverTrust true (with_ObserverTrust ot f)).

Definition GetObserverTrust (f : Filter) : ObserverTrustType :=
  m_ObserverTrust f.

Definition UnsetObserverTrust (f : Filter) : Filter :=
  if m_HasObserverTrust f
  then Modified (with_HasObserverTrust false f)
  else f.

(** Set/unset/get the number of classes. *)
Definition SetNumberOfClasses (arg : InputPixelType) (f : Filter) : Filter :=
  Modified (with_HasNumberOfClasses true (with_NumberOfClasses arg f)).

Definition UnsetNumberOfClasses (f : Filter) : Filter :=
  if m_HasNumberOfClasses f
  then Modified (with_HasNumberOfClasses false f)
  else f.

Definition GetNumberOfClasses (f : Filter) : InputPixelType :=
  m_NumberOfClasses f.

(** Get the probabilistic segmentations. *)
Definition GetProbabilisticSegmentationArray (f : Filter)
    : ProbabilisticSegmentationArrayType :=
  m_ProbabilisticSegmentationArray f.

(** Release the probabilistic segmentations: the array is replaced by an
    empty one, and only if it held something. *)
Definition CleanProbabilisticSegmentations (f : Filter) : Filter :=
  if bool_decide (0 < length (m_ProbabilisticSegmentationArray f))%nat
  then Modified (with_ProbabilisticSegmentationArray [] f)
  else f.

Definition GetMaximumConfusionMatrixElementUpdate (f : Filter) : WeightsType :=
  m_MaximumConfusionMatrixElementUpdate f.

(** Get confusion matrix for the i-th input segmentation.  The C++ body is
    [return this->m_ConfusionMatrixArray[i];], an unchecked [std::vector]
    subscript whose behaviour is undefined out of range; the embedding makes
    the lookup partial. *)
Definition GetConfusionMatrix (i : nat) (f : Filter)
    : option ConfusionMatrixType :=
  m_ConfusionMatrixArray f !! i.

Definition GetElapsedIterations (f : Filter) : nat :=
  m_ElapsedIterations f.

(** Modelled from the spec: the hard-label output, held by the superclass
    [itk::ProcessObject] ([GetOutput()]), which is not under src/. *)
Definition GetOutput (f : Filter) : OutputImageType :=
  m_Output f.

(** The six optional parameters and their presence flags, to speak about the
    Unset members uniformly. *)
Inductive OptionalParameter : Type :=
  | MaximumNumberOfIterations
  | PriorPreference
  | PriorProbabilityImageArray
  | PriorProbabilities
  | ObserverTrust
  | NumberOfClasses.

#[global] Instance OptionalParameter_eq_dec : EqDecision OptionalParameter.
Proof. solve_decision. Defined.

Definition Has (p : OptionalParameter) (f : Filter) : bool :=
  match p with
  | MaximumNumberOfIterations => m_HasMaximumNumberOfIterations f
  | PriorPreference => m_HasPriorPreference f
  | PriorProbabilityImageArray => m_HasPriorProbabilityImageArray f
  | PriorProbabilities => m_HasPriorProbabilities f
  | ObserverTrust => m_HasObserverTrust f
  | NumberOfClasses => m_HasNumberOfClasses f
  end.

Definition Unset (p : OptionalParameter) : Filter -> Filter :=
  match p with
  | MaximumNumberOfIterations => UnsetMaximumNumberOfIterations
  | PriorPreference => UnsetPriorPreference
  | PriorProbabilityImageArray => UnsetPriorProbabilityImageArray
  | PriorProbabilities => UnsetPriorProbabilities
  | ObserverTrust => UnsetObserverTrust
  | NumberOfClasses => UnsetNumberOfClasses
  end.

(** The filter's state in groups, to state what an operation leaves alone:
    the values of the six optional parameters, the remaining settings with
    the inputs, and the results of a run. *)
Definition parameter_values (f : Filter) :=
  (m_MaximumNumberOfIterations f, m_PriorPreference f,
   m_PriorProbabilityImageArray f, m_PriorProbabilities f, m_ObserverTrust f,
   m_NumberOfClasses f).

Definition settings (f : Filter) :=
  (m_GenerateProbabilisticSegmentations f, m_TerminationUpdateThreshold f,
   m_MaskImage f, m_InitializeWithMajorityVoting f, m_Inputs f).

Definition results (f : Filter) :=
  (m_Output f, m_ConfusionMatrixArray f, m_UpdatedConfusionMatrixArray f,
   m_MaximumConfusionMatrixElementUpdate f, m_ElapsedIterations f).

Definition AllParameters : list OptionalParameter :=
  [MaximumNumberOfIterations; PriorPreference; PriorProbabilityImageArray;
   PriorProbabilities; ObserverTrust; NumberOfClasses].

(** The presence flags of every parameter other than [p]. *)
Definition other_flags (p : OptionalParameter) (f : Filter) : list bool :=
  map (fun q => Has q f)
      (filter (fun q => q <> p) AllParameters).

(** * The fusion engine

    [GenerateData], [ComputeMaximumInputValue], [InitializePriorProbabilities],
    [AllocateConfusionMatrixArray] and [InitializeConfusionMatrixArray] are
    declared in the header and defined in the .txx file, which is not under
    src/.  Each stage below is therefore modelled from the design document
    (sections 4.1 to 4.7), as a function on the filter object the way the
    C++ members act on [this].  Choices the document leaves to the
    implementer are parameters: the power function applied to trust
    exponents, the floor [epsilon] for unseen classes, the tie tolerance and
    the identity-like initial matrix. *)

(** ** Arithmetic on weights *)

Definition Qc_of_nat (n : nat) : Qc := Qc_of_Z (Z.of_nat n).

Definition sumQc (v : list Qc) : Qc := foldr Qcplus 0%Qc v.

Definition prodQc (v : list Qc) : Qc := foldr Qcmult 1%Qc v.

Definition Qc_max (a b : Qc) : Qc := if decide (a < b)%Qc then b else a.

(** Modelled from the spec: normalisation as the E-step and the M-step of
    [GenerateData] use it, every entry divided by the sum of the vector
    (sections 4.4 and 4.5).  The design does not say what a division by a
    zero sum yields.  [Qcdiv] is total, but a run never relies on its value
    for a zero divisor: it tests every divisor first ([PrepareDefined],
    [PassDefined]) and yields no result where one is zero. *)
Definition normalize (v : list Qc) : list Qc :=
  map (fun x => (x / sumQc v)%Qc) v.

(** ** Reading the inputs *)

(** S, the number of input segmentations. *)
Definition NumberOfInputs (f : Filter) : nat := length (m_Inputs f).

(** Modelled from the spec: the number of pixels; all inputs have the same
    extent (section 6), so the first one gives it. *)
Definition NumberOfPixels (f : Filter) : nat := length (nth 0 (m_Inputs f) []).

(** Modelled from the spec: l_s(p), the label reported by source [s] at
    pixel [p] (section 4.4). *)
Definition Label (f : Filter) (s p : nat) : nat :=
  nth p (nth s (m_Inputs f) []) 0.

(** Modelled from the spec: the optional mask of section 3, read by
    [GenerateData].  The mask image has the pixel type of the inputs (the
    header's [MaskImageType]); a pixel is inside when no mask is set or the
    mask is non-zero there. *)
Definition InsideMask (f : Filter) (p : nat) : bool :=
  match m_MaskImage f with
  | None => true
  | Some m => negb (nth p m 0 =? 0)
  end.

(** Entry of a confusion matrix: row [i] is the true label, column [j] the
    observed one. *)
Definition entry (M : ConfusionMatrixType) (i j : nat) : Qc :=
  nth j (nth i M []) 0%Qc.

(** ** 4.1 Label Space Discoverer *)

(** Fatal configuration errors (sections 4.1 and 7); the design names the
    first one. *)
Inductive ConfigurationError : Type :=
  | LabelOutOfRangeError
  | ImageSizeMismatchError
  | MalformedPriorError
  | MalformedPreferenceError
  | AllMaskedOutError.

(** Modelled from the spec: [ComputeMaximumInputValue] (declared in the
    header, defined in the missing .txx), the maximum label value observed
    across all source pixels (section 4.1). *)
Definition ComputeMaximumInputValue (f : Filter) : InputPixelType :=
  max_list (mjoin (m_Inputs f)).

(** Modelled from the spec: the Label Space Discoverer at the head of
    [GenerateData] (section 4.1).  A declared class count is trusted, but a
    source with a label at or above it is a fatal [LabelOutOfRangeError];
    otherwise K is the maximum observed label plus one.  The filter holds K
    in [m_NumberOfClasses], which the header declares as [InputPixelType]
    (lines 295 and 372).  The largest value of that type is fixed by the
    instantiation of the template and comes as [InputPixelTypeMax]; the sum
    is reduced to the type, modulo [InputPixelTypeMax + 1], as C++ converts
    to an unsigned integer type. *)
Definition DiscoverNumberOfClasses (InputPixelTypeMax : nat) (f : Filter)
    : ConfigurationError + InputPixelType :=
  if m_HasNumberOfClasses f then
    if forallb (forallb (fun l => l <? m_NumberOfClasses f)) (m_Inputs f)
    then inr (m_NumberOfClasses f)
    else inl LabelOutOfRangeError
  else inr ((ComputeMaximumInputValue f + 1) mod (InputPixelTypeMax + 1)).

(** ** 7 Configuration errors *)

(** Modelled from the spec: all sources, and the mask when there is one,
    have the same extent (sections 6 and 7). *)
Definition SizesMatch (f : Filter) : bool :=
  forallb (fun img => length img =? NumberOfPixels f) (m_Inputs f)
  && match m_MaskImage f with
     | None => true
     | Some m => length m =? NumberOfPixels f
     end.

(** Modelled from the spec: a supplied prior vector is malformed when it has
    an entry outside the range [0, 1] of a probability (sections 3 and 7). *)
Definition PriorWellFormed (f : Filter) : bool :=
  negb (m_HasPriorProbabilities f)
  || forallb (fun x => bool_decide (0 <= x)%Qc && bool_decide (x <= 1)%Qc)
             (m_PriorProbabilities f).

(** Modelled from the spec: a supplied preference vector is malformed when it
    has a duplicate entry or an entry that is not below the class count
    (sections 3 and 7). *)
Definition PreferenceWellFormed (K : nat) (f : Filter) : bool :=
  negb (m_HasPriorPreference f)
  || (bool_decide (NoDup (m_PriorPreference f))
      && forallb (fun v => v <? K) (m_PriorPreference f)).

(** Modelled from the spec: some pixel contributes to the estimation, that
    is, lies inside the mask (section 7). *)
Definition SomePixelInsideMask (f : Filter) : bool :=
  existsb (InsideMask f) (seq 0 (NumberOfPixels f)).

(** Modelled from the spec: the fatal configuration errors of section 7
    other than the Discoverer's, for the class count [K]: mismatched image
    sizes, malformed prior or preference vectors, all-masked-out input.  The
    design does not order them; they are tested in this order. *)
Definition CheckConfiguration (K : nat) (f : Filter)
    : option ConfigurationError :=
  if negb (SizesMatch f) then Some ImageSizeMismatchError
  else if negb (PriorWellFormed f) then Some MalformedPriorError
  else if negb (PreferenceWellFormed K f) then Some MalformedPreferenceError
  else if negb (SomePixelInsideMask f) then Some AllMaskedOutError
  else None.

(** ** 4.2 Prior Estimator *)

(** Modelled from the spec: count of label [k] across all sources and
    pixels, for [InitializePriorProbabilities] (section 4.2). *)
Definition LabelCount (f : Filter) (k : nat) : nat :=
  length (filter (fun l => l = k) (mjoin (m_Inputs f))).

(** Modelled from the spec: total label occurrences, for
    [InitializePriorProbabilities] (section 4.2). *)
Definition TotalLabelOccurrences (f : Filter) : nat :=
  length (mjoin (m_Inputs f)).

(** Modelled from the spec: relative frequency of class [k] inside
    [InitializePriorProbabilities], with the strictly positive floor
    [epsilon] for a class of zero frequency (section 4.2). *)
Definition FlooredFrequency (epsilon : Qc) (f : Filter) (k : nat) : Qc :=
  if LabelCount f k =? 0 then epsilon
  else (Qc_of_nat (LabelCount f k) / Qc_of_nat (TotalLabelOccurrences f))%Qc.

(** Modelled from the spec: [InitializePriorProbabilities] (declared in the
    header, defined in the missing .txx), run when the caller supplied no
    priors (section 4.2).  The floored frequencies are renormalised, so that
    both guarantees of the Prior Estimator (sum 1, positive floor) hold
    together. *)
Definition InitializePriorProbabilities (epsilon : Qc) (f : Filter) : Filter :=
  with_PriorProbabilities
    (normalize (map (FlooredFrequency epsilon f)
                    (seq 0 (m_NumberOfClasses f)))) f.

(** Modelled from the spec: the prior of class [k] at pixel [p] read by the
    E-step of [GenerateData]; per-pixel prior images override the global
    vector (section 4.2). *)
Definition Prior (f : Filter) (k p : nat) : Qc :=
  if m_HasPriorProbabilityImageArray f
  then nth p (nth k (m_PriorProbabilityImageArray f) []) 0%Qc
  else nth k (m_PriorProbabilities f) 0%Qc.

(** ** 4.3 Confusion Matrix Store *)

(** Modelled from the spec: [AllocateConfusionMatrixArray] (declared in the
    header, defined in the missing .txx), one K x K matrix per input source,
    for the current and for the updated estimate (section 4.3). *)
Definition AllocateConfusionMatrixArray (f : Filter) : Filter :=
  let zero := repeat (repeat 0%Qc (m_NumberOfClasses f)) (m_NumberOfClasses f) in
  with_UpdatedConfusionMatrixArray (repeat zero (NumberOfInputs f))
    (with_ConfusionMatrixArray (repeat zero (NumberOfInputs f)) f).

(** Lowest index below [n] at which [score] is maximal. *)
Fixpoint first_argmax (score : nat -> nat) (n : nat) : nat :=
  match n with
  | 0 => 0
  | S m =>
      let b := first_argmax score m in
      if score b <? score m then m else b
  end.

(** Modelled from the spec: number of sources voting for label [k] at pixel
    [p], for the majority-vote seeding of
    [InitializeConfusionMatrixArray] (section 4.3). *)
Definition Votes (f : Filter) (p k : nat) : nat :=
  length (filter (fun s => Label f s p = k) (seq 0 (NumberOfInputs f))).

(** Modelled from the spec: pixelwise majority vote across sources, ignoring
    performance weighting (section 4.3).  The design does not say how a tied
    vote is settled; the lowest label wins here. *)
Definition MajorityVote (f : Filter) (p : nat) : nat :=
  first_argmax (Votes f p) (m_NumberOfClasses f).

(** Modelled from the spec: number of pixels where the vote is [i] and
    source [s] says [j] (section 4.3).  Pixels outside the mask are left
    out, as they are excluded from confusion-matrix estimation. *)
Definition JointCount (f : Filter) (s i j : nat) : nat :=
  length (filter (fun p => InsideMask f p /\ MajorityVote f p = i
                           /\ Label f s p = j)
                 (seq 0 (NumberOfPixels f))).

(** Modelled from the spec: the vote-seeded matrix of source [s], the
    empirical distribution of (vote, label of [s]), each row normalised
    as the data model asks of a confusion matrix (section 4.3). *)
Definition MajorityVoteMatrix (f : Filter) (s : nat) : ConfusionMatrixType :=
  map (fun i => normalize (map (fun j => Qc_of_nat (JointCount f s i j))
                               (seq 0 (m_NumberOfClasses f))))
      (seq 0 (m_NumberOfClasses f)).

(** Modelled from the spec: [InitializeConfusionMatrixArray] (declared in
    the header, defined in the missing .txx), with the two selectable
    policies (section 4.3).  The identity-like matrix is the implementer's
    choice and comes as the parameter [IdentityLike]. *)
Definition InitializeConfusionMatrixArray
    (IdentityLike : nat -> ConfusionMatrixType) (f : Filter) : Filter :=
  with_ConfusionMatrixArray
    (if m_InitializeWithMajorityVoting f
     then map (MajorityVoteMatrix f) (seq 0 (NumberOfInputs f))
     else repeat (IdentityLike (m_NumberOfClasses f)) (NumberOfInputs f)) f.

(** ** 4.4 Posterior Estimator (E-step) *)

(** Per-pixel posterior store; masked-out pixels receive no posterior. *)
Abbreviation PosteriorStore := (list (option (list Qc))).

(** Modelled from the spec: a confusion-matrix entry raised to the trust of
    source [s] in the E-step of [GenerateData] (section 4.4); without trust
    factors the entry is used as it is. *)
Definition Trusted (wpow : Qc -> Qc -> Qc) (f : Filter) (s : nat) (x : Qc) : Qc :=
  if m_HasObserverTrust f then wpow x (nth s (m_ObserverTrust f) 1%Qc) else x.

(** Modelled from the spec: the product over the sources of
    ConfusionMatrix(s)[k][l_s(p)]^trust(s) in the E-step of [GenerateData]
    (section 4.4). *)
Definition Likelihood (wpow : Qc -> Qc -> Qc) (f : Filter) (p k : nat) : Qc :=
  prodQc (map (fun s => Trusted wpow f s
                          (entry (nth s (m_ConfusionMatrixArray f) [])
                                 k (Label f s p)))
              (seq 0 (NumberOfInputs f))).

(** Modelled from the spec: the unnormalised posterior of the E-step of
    [GenerateData], prior times likelihood for each candidate label
    (section 4.4). *)
Definition UnnormalizedPosterior (wpow : Qc -> Qc -> Qc) (f : Filter) (p : nat)
    : list Qc :=
  map (fun k => (Prior f k p * Likelihood wpow f p k)%Qc)
      (seq 0 (m_NumberOfClasses f)).

(** Modelled from the spec: the E-step of [GenerateData] (section 4.4): the
    posterior normalised to sum 1 at every pixel inside the mask, and no
    posterior at a masked-out pixel. *)
Definition EStep (wpow : Qc -> Qc -> Qc) (f : Filter) : PosteriorStore :=
  map (fun p => if InsideMask f p
                then Some (normalize (UnnormalizedPosterior wpow f p))
                else None)
      (seq 0 (NumberOfPixels f)).

(** ** 4.5 Confusion Re-estimator (M-step) *)

(** Modelled from the spec: W_k(p) as the M-step of [GenerateData] reads it
    (section 4.5); zero where the store holds no posterior. *)
Definition Weight (W : PosteriorStore) (p k : nat) : Qc :=
  match nth p W None with
  | Some w => nth k w 0%Qc
  | None => 0%Qc
  end.

(** Modelled from the spec: what pixel [p] adds to entry (k, j) of source
    [s] in the M-step of [GenerateData], W_k(p) * [l_s(p) = j] for a pixel
    inside the mask (section 4.5). *)
Definition Contribution (f : Filter) (W : PosteriorStore) (s k j p : nat) : Qc :=
  if InsideMask f p
  then if Label f s p =? j then Weight W p k else 0%Qc
  else 0%Qc.

(** Modelled from the spec: the accumulation of the M-step of
    [GenerateData] over all pixels (section 4.5). *)
Definition Accumulate (f : Filter) (W : PosteriorStore) (s k j : nat) : Qc :=
  sumQc (map (Contribution f W s k j) (seq 0 (NumberOfPixels f))).

(** Modelled from the spec: the re-estimated matrix of source [s] in the
    M-step of [GenerateData], each accumulated row divided by its sum
    (section 4.5). *)
Definition MStepMatrix (f : Filter) (W : PosteriorStore) (s : nat)
    : ConfusionMatrixType :=
  map (fun k => normalize (map (Accumulate f W s k)
                               (seq 0 (m_NumberOfClasses f))))
      (seq 0 (m_NumberOfClasses f)).

(** Modelled from the spec: the M-step of [GenerateData], one re-estimated
    matrix per source (section 4.5). *)
Definition MStep (f : Filter) (W : PosteriorStore) : list ConfusionMatrixType :=
  map (MStepMatrix f W) (seq 0 (NumberOfInputs f)).

(** Accumulated mass of row [k] of source [s] before row-normalisation. *)
Definition RowMass (f : Filter) (W : PosteriorStore) (s k : nat) : Qc :=
  sumQc (map (Accumulate f W s k) (seq 0 (m_NumberOfClasses f))).

(** ** Divisions by a sum

    The design normalises by sums (sections 4.2 to 4.5) and does not say what
    a zero sum yields.  A pass of the loop is defined when none of its
    divisors is zero: the normaliser of the posterior at every pixel inside
    the mask, and the mass of every row of every source's accumulated
    matrix. *)

(** The normaliser of the E-step at pixel [p]. *)
Definition Normaliser (wpow : Qc -> Qc -> Qc) (f : Filter) (p : nat) : Qc :=
  sumQc (UnnormalizedPosterior wpow f p).

Definition EStepDefined (wpow : Qc -> Qc -> Qc) (f : Filter) : bool :=
  forallb (fun p => negb (InsideMask f p)
                    || negb (bool_decide (Normaliser wpow f p = 0%Qc)))
          (seq 0 (NumberOfPixels f)).

Definition MStepDefined (f : Filter) (W : PosteriorStore) : bool :=
  forallb (fun s =>
             forallb (fun k => negb (bool_decide (RowMass f W s k = 0%Qc)))
                     (seq 0 (m_NumberOfClasses f)))
          (seq 0 (NumberOfInputs f)).

Definition PassDefined (wpow : Qc -> Qc -> Qc) (f : Filter) : bool :=
  EStepDefined wpow f && MStepDefined f (EStep wpow f).

(** ** 4.6 Convergence Monitor *)

(** Modelled from the spec: |new - old| for every entry of every source's
    matrix, for the Convergence Monitor of [GenerateData] (section 4.6). *)
Definition UpdateMagnitudes (f : Filter) : list Qc :=
  s ← seq 0 (NumberOfInputs f);
  i ← seq 0 (m_NumberOfClasses f);
  j ← seq 0 (m_NumberOfClasses f);
  [Qcabs (entry (nth s (m_UpdatedConfusionMatrixArray f) []) i j
          - entry (nth s (m_ConfusionMatrixArray f) []) i j)%Qc].

(** Modelled from the spec: maxUpdate, the largest absolute change of any
    confusion-matrix entry in the Convergence Monitor of [GenerateData]
    (section 4.6). *)
Definition MaximumUpdate (f : Filter) : Qc :=
  foldr Qc_max 0%Qc (UpdateMagnitudes f).

(** Modelled from the spec: one pass of the loop of [GenerateData]: E-step,
    M-step into the updated matrices, largest change, wholesale replacement
    of the current matrices, and the iteration counter (sections 4.3 to
    4.6). *)
Definition EMIteration (wpow : Qc -> Qc -> Qc) (f : Filter)
    : Filter * PosteriorStore :=
  let W := EStep wpow f in
  let f1 := with_UpdatedConfusionMatrixArray (MStep f W) f in
  let f2 := with_MaximumConfusionMatrixElementUpdate (MaximumUpdate f1) f1 in
  let f3 := with_ConfusionMatrixArray (m_UpdatedConfusionMatrixArray f2) f2 in
  (with_ElapsedIterations (S (m_ElapsedIterations f3)) f3, W).

(** Modelled from the spec: maxUpdate < TerminationUpdateThreshold
    (section 4.6). *)
Definition Converged (f : Filter) : bool :=
  bool_decide (m_MaximumConfusionMatrixElementUpdate f
               < m_TerminationUpdateThreshold f)%Qc.

(** Modelled from the spec: the configured maximum iteration count is
    reached (section 4.6). *)
Definition CapReached (f : Filter) : bool :=
  m_HasMaximumNumberOfIterations f
  && (m_MaximumNumberOfIterations f <=? m_ElapsedIterations f).

(** Modelled from the spec: the loop of [GenerateData] terminates when the
    largest update is below the threshold or the configured maximum
    iteration count is reached (section 4.6). *)
Definition StopCriterion (f : Filter) : bool :=
  Converged f || CapReached f.

(** How the loop ends: stopped by the criterion, at a pass with a zero
    divisor, or not within the fuel. *)
Inductive LoopOutcome : Type :=
  | Stopped (f : Filter) (W : PosteriorStore)
  | ZeroDivisor
  | FuelSpent.

(** Modelled from the spec: the EM loop of [GenerateData]; the criterion is
    evaluated after each M-step (section 4.6).  Without a cap nothing bounds
    the number of passes, so the embedding runs on fuel and answers
    [FuelSpent] when the fuel is spent before the loop has stopped.  A pass
    with a zero divisor has no result and ends the loop. *)
Fixpoint EMLoop (wpow : Qc -> Qc -> Qc) (fuel : nat) (f : Filter)
    : LoopOutcome :=
  match fuel with
  | 0 => FuelSpent
  | S fuel' =>
      if PassDefined wpow f then
        let '(f', W) := EMIteration wpow f in
        if StopCriterion f' then Stopped f' W
        else EMLoop wpow fuel' f'
      else ZeroDivisor
  end.

(** ** 4.7 Decision and Output Stage *)

(** Modelled from the spec: the PriorPreference value of label [k] in the
    Decision stage of [GenerateData]; by default the label's own numeric
    value (sections 3 and 4.7). *)
Definition Preference (f : Filter) (k : nat) : nat :=
  if m_HasPriorPreference f then nth k (m_PriorPreference f) 0 else k.

(** Modelled from the spec: maxW = max_k W_k(p) in the Decision stage of
    [GenerateData] (section 4.7). *)
Definition MaximalWeight (w : list Qc) : Qc :=
  match w with
  | [] => 0%Qc
  | x :: r => foldr Qc_max x r
  end.

(** Modelled from the spec: C = { k : W_k(p) = maxW }, equality up to the
    tolerance, in the Decision stage of [GenerateData] (section 4.7). *)
Definition Candidates (tolerance : Qc) (w : list Qc) : list nat :=
  filter (fun k => (MaximalWeight w - nth k w 0 <= tolerance)%Qc)
         (seq 0 (length w)).

(** Modelled from the spec: the label of C with the lowest PriorPreference
    value, in the Decision stage of [GenerateData] (section 4.7).  Should
    two candidates carry the same preference, the first one is kept. *)
Definition LowestPreference (pref : nat -> nat) (C : list nat) : option nat :=
  foldr (fun k best =>
           match best with
           | None => Some k
           | Some b => if pref k <=? pref b then Some k else Some b
           end) None C.

(** Modelled from the spec: the default label for undecided pixels, maximum
    input label plus one (section 3).  The decision rule of section 4.7
    needs it only when there is no candidate at all. *)
Definition UndecidedLabel (f : Filter) : nat :=
  ComputeMaximumInputValue f + 1.

(** Modelled from the spec: the decision rule of [GenerateData] for one
    posterior vector: the single candidate if there is one, else the
    candidate of lowest preference (section 4.7). *)
Definition DecideLabel (tolerance : Qc) (f : Filter) (w : list Qc) : nat :=
  match Candidates tolerance w with
  | [k] => k
  | C => default (UndecidedLabel f) (LowestPreference (Preference f) C)
  end.

(** Modelled from the spec: the posterior vector W(p) handed to the decision
    rule of [GenerateData] (section 4.7). *)
Definition PosteriorAt (W : PosteriorStore) (p : nat) : list Qc :=
  default [] (nth p W None).

(** Modelled from the spec: the output label of one pixel in the Decision
    stage of [GenerateData]: source 0's label when masked out, the decision
    rule otherwise (section 4.7). *)
Definition DecidePixel (tolerance : Qc) (f : Filter) (W : PosteriorStore)
    (p : nat) : nat :=
  if InsideMask f p then DecideLabel tolerance f (PosteriorAt W p)
  else Label f 0 p.

(** Modelled from the spec: the Decision stage of [GenerateData], the
    consensus label image (section 4.7). *)
Definition DecisionStage (tolerance : Qc) (f : Filter) (W : PosteriorStore)
    : OutputImageType :=
  map (DecidePixel tolerance f W) (seq 0 (NumberOfPixels f)).

(** Modelled from the spec: the probabilistic output of [GenerateData], one
    probability image per class when requested (section 4.7). *)
Definition ProbabilisticSegmentations (f : Filter) (W : PosteriorStore)
    : ProbabilisticSegmentationArrayType :=
  if m_GenerateProbabilisticSegmentations f
  then map (fun k => map (fun p => Weight W p k) (seq 0 (NumberOfPixels f)))
           (seq 0 (m_NumberOfClasses f))
  else [].

(** ** The whole run *)

(** What the design leaves to the implementer: the power function applied
    to trust exponents, the floor for unseen classes, the tie tolerance and
    the identity-like initial matrix; and what the instantiation of the
    template fixes: the largest value of [InputPixelType]. *)
Record Implementation : Type := {
  wpow : Qc -> Qc -> Qc;
  epsilon : Qc;
  tolerance : Qc;
  IdentityLike : nat -> ConfusionMatrixType;
  InputPixelTypeMax : nat
}.

(** A run ends with the filter holding its outputs, with a fatal error, at a
    division by a zero sum, or not at all within the fuel. *)
Inductive Outcome : Type :=
  | Success (f : Filter)
  | Failure (e : ConfigurationError)
  | DivisionByZero
  | OutOfFuel.

(** Modelled from the spec: the part of [GenerateData] before the loop: the
    class count is fixed, the priors are estimated unless supplied, the
    matrices are allocated and initialised, the counter is reset (sections
    2 and 3). *)
Definition Prepare (impl : Implementation) (K : nat) (f : Filter) : Filter :=
  let f1 := with_NumberOfClasses K f in
  let f2 := if m_HasPriorProbabilities f1 || m_HasPriorProbabilityImageArray f1
            then f1
            else InitializePriorProbabilities (epsilon impl) f1 in
  with_ElapsedIterations 0
    (InitializeConfusionMatrixArray (IdentityLike impl)
       (AllocateConfusionMatrixArray f2)).

(** The divisors of [Prepare]: the mass of the floored frequencies when the
    priors are estimated, and the mass of every row of every source's joint
    counts under majority-vote seeding. *)
Definition PrepareDefined (impl : Implementation) (K : nat) (f : Filter)
    : bool :=
  let f1 := with_NumberOfClasses K f in
  (m_HasPriorProbabilities f || m_HasPriorProbabilityImageArray f
   || negb (bool_decide
              (sumQc (map (FlooredFrequency (epsilon impl) f1) (seq 0 K))
               = 0%Qc)))
  && (negb (m_InitializeWithMajorityVoting f)
      || forallb
           (fun s =>
              forallb
                (fun i =>
                   negb (bool_decide
                           (sumQc (map (fun j => Qc_of_nat (JointCount f1 s i j))
                                       (seq 0 K))
                            = 0%Qc)))
                (seq 0 K))
           (seq 0 (NumberOfInputs f))).

(** Modelled from the spec: the end of [GenerateData]: the Decision stage on
    the last posterior and the probabilistic output (section 4.7). *)
Definition Finish (impl : Implementation) (f' : Filter) (W : PosteriorStore)
    : Filter :=
  with_Output (DecisionStage (tolerance impl) f' W)
    (with_ProbabilisticSegmentationArray (ProbabilisticSegmentations f' W) f').

(** Modelled from the spec: [GenerateData] (declared in the header, defined
    in the missing .txx), following the control flow of section 2: the
    Discoverer, the configuration checks of section 7 and the Prior
    Estimator run once, then the E-step / M-step / Monitor loop, then the
    Decision stage on the last posterior.  Configuration errors are fatal
    before any iteration.  The abort request of section 5 is not
    represented. *)
Definition GenerateData (impl : Implementation) (fuel : nat) (f : Filter)
    : Outcome :=
  match DiscoverNumberOfClasses (InputPixelTypeMax impl) f with
  | inl e => Failure e
  | inr K =>
      match CheckConfiguration K f with
      | Some e => Failure e
      | None =>
          if PrepareDefined impl K f then
            match EMLoop (wpow impl) fuel (Prepare impl K f) with
            | FuelSpent => OutOfFuel
            | ZeroDivisor => DivisionByZero
            | Stopped f' W => Success (Finish impl f' W)
            end
          else DivisionByZero
      end
  end.

(** ** Vocabulary for the properties *)

(** What a run never changes once the loop is entered: the class count, the
    presence flags, the parameter values, the settings and the inputs. *)
Definition RunConstants (f : Filter) :=
  (m_NumberOfClasses f,
   (m_HasPriorProbabilities f, m_HasObserverTrust f,
    m_HasMaximumNumberOfIterations f, m_HasPriorProbabilityImageArray f,
    m_HasNumberOfClasses f, m_HasPriorPreference f),
   (m_PriorProbabilities f, m_PriorProbabilityImageArray f, m_ObserverTrust f,
    m_PriorPreference f, m_MaximumNumberOfIterations f),
   settings f).

(** The filter after [n] passes of the loop body. *)
Fixpoint AfterIterations (wpow : Qc -> Qc -> Qc) (n : nat) (f : Filter) : Filter :=
  match n with
  | 0 => f
  | S m => AfterIterations wpow m (EMIteration wpow f).1
  end.

(** The filter after [n] passes of the loop body, if each of them is
    defined. *)
Fixpoint CheckedIterations (wpow : Qc -> Qc -> Qc) (n : nat) (f : Filter)
    : option Filter :=
  match n with
  | 0 => Some f
  | S m =>
      if PassDefined wpow f
      then CheckedIterations wpow m (EMIteration wpow f).1
      else None
  end.

(** Row [k] of a matrix. *)
Definition row (M : ConfusionMatrixType) (k : nat) : list Qc := nth k M [].

(** Label [k] occurs at some pixel inside the mask (all sources agreeing,
    source 0 speaks for them). *)
Definition Occurs (f : Filter) (k : nat) : Prop :=
  exists p, p < NumberOfPixels f /\ InsideMask f p = true /\ Label f 0 p = k.

(** Unit vector of length [K] with its mass on label [l]. *)
Definition OneHot (K l : nat) : list Qc :=
  map (fun k => if k =? l then 1%Qc else 0%Qc) (seq 0 K).

(** The exact identity, the extreme case of an identity-like matrix. *)
Definition ExactIdentity (K : nat) : ConfusionMatrixType :=
  map (OneHot K) (seq 0 K).

(** Every source reports the same label as source 0 at every pixel. *)
Definition SourcesAgree (f : Filter) : bool :=
  forallb (fun s => forallb (fun p => Label f s p =? Label f 0 p)
                            (seq 0 (NumberOfPixels f)))
          (seq 0 (NumberOfInputs f)).

(** The common label is a class label at every pixel. *)
Definition LabelsInRange (f : Filter) : bool :=
  forallb (fun p => Label f 0 p <? m_NumberOfClasses f)
          (seq 0 (NumberOfPixels f)).

(** The prior of the common label is non-zero at every pixel inside the
    mask. *)
Definition PriorsNonZero (f : Filter) : bool :=
  forallb (fun p => negb (InsideMask f p)
                    || negb (bool_decide (Prior f (Label f 0 p) p = 0%Qc)))
          (seq 0 (NumberOfPixels f)).

(** In the column of every label that occurs inside the mask, each current
    confusion matrix has a non-zero diagonal entry and zeros elsewhere. *)
Definition DiagonalOnOccurring (f : Filter) : bool :=
  forallb
    (fun s =>
       forallb
         (fun p =>
            negb (InsideMask f p)
            || forallb
                 (fun k =>
                    let x := entry (nth s (m_ConfusionMatrixArray f) [])
                                   k (Label f 0 p) in
                    if k =? Label f 0 p then negb (bool_decide (x = 0%Qc))
                    else bool_decide (x = 0%Qc))
                 (seq 0 (m_NumberOfClasses f)))
         (seq 0 (NumberOfPixels f)))
    (seq 0 (NumberOfInputs f)).

(** The class count is declared, or the largest label is below the largest
    value of the pixel type, so that the count the Discoverer finds is a
    value of that type. *)
Definition ClassCountFits (InputPixelTypeMax : nat) (f : Filter) : bool :=
  m_HasNumberOfClasses f || (ComputeMaximumInputValue f <? InputPixelTypeMax).

(** Every label of every source is a value of the input pixel type. *)
Definition LabelsFit (InputPixelTypeMax : nat) (f : Filter) : bool :=
  forallb (forallb (fun l => l <=? InputPixelTypeMax)) (m_Inputs f).

(** Every supplied trust weight is positive. *)
Definition TrustsPositive (f : Filter) : bool :=
  negb (m_HasObserverTrust f)
  || forallb (fun s => bool_decide (0 < nth s (m_ObserverTrust f) 1)%Qc)
             (seq 0 (NumberOfInputs f)).

(** Every class label occurs at some pixel inside the mask. *)
Definition EveryClassOccurs (f : Filter) (K : nat) : bool :=
  forallb (fun k => existsb (fun p => InsideMask f p && (Label f 0 p =? k))
                            (seq 0 (NumberOfPixels f)))
          (seq 0 K).

(** The current matrices are non-negative and, at every pixel inside the
    mask, some class has a positive entry for the label that each source
    reports there (a class label). *)
Definition SupportedState (h : Filter) : Prop :=
  (forall s k j, (0 <= entry (nth s (m_ConfusionMatrixArray h) []) k j)%Qc)
  /\ forall p,
       p < NumberOfPixels h -> InsideMask h p = true ->
       exists k,
         k < m_NumberOfClasses h
         /\ forall s, s < NumberOfInputs h ->
              Label h s p < m_NumberOfClasses h
              /\ (0 < entry (nth s (m_ConfusionMatrixArray h) []) k
                        (Label h s p))%Qc.

(** Strict positivity of everything the E-step reads: at every pixel inside
    the mask, the prior of every class, and each source's matrix entries in
    the column of the label that source reports there (a class label). *)
Definition PositiveState (h : Filter) : Prop :=
  forall p k,
    p < NumberOfPixels h -> InsideMask h p = true -> k < m_NumberOfClasses h ->
    (0 < Prior h k p)%Qc
    /\ forall s, s < NumberOfInputs h ->
         Label h s p < m_NumberOfClasses h
         /\ (0 < entry (nth s (m_ConfusionMatrixArray h) []) k (Label h s p))%Qc.

(** ** Sample configurations *)

(** x^t for the trust factor t = 1, the exponent of the samples that set no
    observer trust (for them the E-step never calls it). *)
Definition UnitTrustPower (x t : Qc) : Qc := x.

(** An identity-like matrix with 9/10 on the diagonal and the remaining
    tenth shared by the other entries of the row. *)
Definition SoftIdentity (K : nat) : ConfusionMatrixType :=
  map (fun i =>
         map (fun j => if i =? j then Q2Qc (9 # 10)
                       else (Q2Qc (1 # 10) / Qc_of_nat (K - 1))%Qc)
             (seq 0 K))
      (seq 0 K).

(** The samples are instantiated for 8-bit labels. *)
Definition SampleImplementation : Implementation :=
  {| wpow := UnitTrustPower;
     epsilon := Q2Qc (1 # 100);
     tolerance := 0%Qc;
     IdentityLike := SoftIdentity;
     InputPixelTypeMax := 255 |}.

(** The same with the exact identity as the identity-like matrix. *)
Definition ExactImplementation : Implementation :=
  {| wpow := UnitTrustPower;
     epsilon := Q2Qc (1 # 100);
     tolerance := 0%Qc;
     IdentityLike := ExactIdentity;
     InputPixelTypeMax := 255 |}.

(** x^t for the trust factors 0 and 1: x^0 = 1 and x^1 = x. *)
Definition ZeroOrUnitTrustPower (x t : Qc) : Qc :=
  if decide (t = 0%Qc) then 1%Qc else x.

(** The sample implementation with that power function. *)
Definition TrustImplementation : Implementation :=
  {| wpow := ZeroOrUnitTrustPower;
     epsilon := Q2Qc (1 # 100);
     tolerance := 0%Qc;
     IdentityLike := SoftIdentity;
     InputPixelTypeMax := 255 |}.

(** A filter on which nothing has been set, with a termination threshold of
    1/1000. *)
Definition FreshFilter : Filter :=
  Build_Filter 0 false false false false false false [] [] [] [] [] [] []
    0%Qc 0 0 false (Q2Qc (1 # 1000)) None false 0 [] [].

(** Inputs, mask and the voting switch are set through superclass members
    and macro-generated setters that are not under src/; the samples are
    built with plain field updates. *)
Definition with_Inputs (ins : list InputImageType) (f : Filter) : Filter :=
  let '(Build_Filter nc hpp hot hmi hpa hnc hpf pp pa ot cm ucm ps pf mu ei mi
      gps tut mk imv mt _ out) := f in
  Build_Filter nc hpp hot hmi hpa hnc hpf pp pa ot cm ucm ps pf mu ei mi gps
      tut mk imv mt ins out.

Definition with_MaskImage (mk : option MaskImageType) (f : Filter) : Filter :=
  let '(Build_Filter nc hpp hot hmi hpa hnc hpf pp pa ot cm ucm ps pf mu ei mi
      gps tut _ imv mt ins out) := f in
  Build_Filter nc hpp hot hmi hpa hnc hpf pp pa ot cm ucm ps pf mu ei mi gps
      tut mk imv mt ins out.

Definition with_InitializeWithMajorityVoting (imv : bool) (f : Filter) : Filter :=
  let '(Build_Filter nc hpp hot hmi hpa hnc hpf pp pa ot cm ucm ps pf mu ei mi
      gps tut mk _ mt ins out) := f in
  Build_Filter nc hpp hot hmi hpa hnc hpf pp pa ot cm ucm ps pf mu ei mi gps
      tut mk imv mt ins out.

(** Three raters of a four-pixel, two-class image who disagree on two
    pixels. *)
Definition ThreeRaters : Filter :=
  with_Inputs [[0; 0; 1; 1]; [0; 1; 1; 1]; [0; 0; 1; 0]] FreshFilter.

(** Two raters who agree everywhere and use the labels 0 and 2 only, with
    majority-vote seeding; label 1 is never seen. *)
Definition AgreeingRaters : Filter :=
  with_InitializeWithMajorityVoting true
    (with_Inputs [[0; 2; 2]; [0; 2; 2]] FreshFilter).

(** Two raters who agree everywhere on a two-class image, with majority-vote
    seeding; both labels are seen. *)
Definition UnanimousRaters : Filter :=
  with_InitializeWithMajorityVoting true
    (with_Inputs [[0; 1; 1]; [0; 1; 1]] FreshFilter).

(** Two raters who disagree at the only pixel. *)
Definition OpposedRaters : Filter :=
  with_Inputs [[0]; [1]] FreshFilter.

(** Two raters who agree everywhere on a two-class image; the caller supplies
    prior probabilities that favour label 0. *)
Definition SkewedPriorRaters : Filter :=
  SetPriorProbabilities [Q2Qc (99 # 100); Q2Qc (1 # 100)]
    (with_Inputs [[0; 1]; [0; 1]] FreshFilter).

(** Two raters who agree everywhere on an image of 83 pixels, of which only
    the last has label 1; one iteration at most. *)
Definition RareLabelRaters : Filter :=
  SetMaximumNumberOfIterations 1
    (with_Inputs [repeat 0 82 ++ [1]; repeat 0 82 ++ [1]] FreshFilter).

(** Two raters who agree everywhere on a two-class image, with majority-vote
    seeding; the caller gives both a trust of zero. *)
Definition DistrustedRaters : Filter :=
  SetObserverTrust [0%Qc; 0%Qc]
    (with_InitializeWithMajorityVoting true
       (with_Inputs [[0; 0; 1]; [0; 0; 1]] FreshFilter)).

(** One rater of an 8-bit image that uses the largest label, 255. *)
Definition FullRangeRater : Filter :=
  with_Inputs [[0; 255]] FreshFilter.

(** Two raters of a two-pixel image whose second pixel is masked out. *)
Definition MaskedRaters : Filter :=
  with_MaskImage (Some [1; 0]) (with_Inputs [[0; 1]; [1; 0]] FreshFilter).

(** A posterior store with an exact tie between two classes at its only
    pixel. *)
Definition TiedPosterior : PosteriorStore :=
  [Some [Q2Qc (1 # 2); Q2Qc (1 # 2)]].

(** * More of the header: the configuration surface as a whole

    The Set members and the inline Get members next to the Unset members,
    and sequences of configuration calls. *)

(** The argument of a Set member, tagged with the parameter it sets. *)
Inductive ParameterValue : Type :=
  | MaximumNumberOfIterationsValue (mit : nat)
  | PriorPreferenceValue (ppa : PriorPreferenceType)
  | PriorProbabilityImageArrayValue (arg : PriorProbabilityImageArrayType)
  | PriorProbabilitiesValue (ppa : PriorProbabilitiesType)
  | ObserverTrustValue (ot : ObserverTrustType)
  | NumberOfClassesValue (arg : InputPixelType).

Definition parameter_of (v : ParameterValue) : OptionalParameter :=
  match v with
  | MaximumNumberOfIterationsValue _ => MaximumNumberOfIterations
  | PriorPreferenceValue _ => PriorPreference
  | PriorProbabilityImageArrayValue _ => PriorProbabilityImageArray
  | PriorProbabilitiesValue _ => PriorProbabilities
  | ObserverTrustValue _ => ObserverTrust
  | NumberOfClassesValue _ => NumberOfClasses
  end.

(** The six Set members under one name. *)
Definition SetParameter (v : ParameterValue) : Filter -> Filter :=
  match v with
  | MaximumNumberOfIterationsValue mit => SetMaximumNumberOfIterations mit
  | PriorPreferenceValue ppa => SetPriorPreference ppa
  | PriorProbabilityImageArrayValue arg => SetPriorProbabilityImageArray arg
  | PriorProbabilitiesValue ppa => SetPriorProbabilities ppa
  | ObserverTrustValue ot => SetObserverTrust ot
  | NumberOfClassesValue arg => SetNumberOfClasses arg
  end.

(** The six Get members under one name. *)
Definition GetParameter (p : OptionalParameter) (f : Filter) : ParameterValue :=
  match p with
  | MaximumNumberOfIterations =>
      MaximumNumberOfIterationsValue (GetMaximumNumberOfIterations f)
  | PriorPreference => PriorPreferenceValue (GetPriorPreference f)
  | PriorProbabilityImageArray =>
      PriorProbabilityImageArrayValue (GetPriorProbabilityImageArray f)
  | PriorProbabilities => PriorProbabilitiesValue (GetPriorProbabilities f)
  | ObserverTrust => ObserverTrustValue (GetObserverTrust f)
  | NumberOfClasses => NumberOfClassesValue (GetNumberOfClasses f)
  end.

(** A call of one of the members the header defines inline. *)
Inductive ConfigurationCall : Type :=
  | CallSet (v : ParameterValue)
  | CallUnset (p : OptionalParameter)
  | CallClean.

Definition call (c : ConfigurationCall) : Filter -> Filter :=
  match c with
  | CallSet v => SetParameter v
  | CallUnset p => Unset p
  | CallClean => CleanProbabilisticSegmentations
  end.

(** A sequence of calls, applied in program order. *)
Definition Configure (cs : list ConfigurationCall) (f : Filter) : Filter :=
  fold_left (fun g c => call c g) cs f.

(** The parameter a call acts on; [None] for the release of the
    probabilistic segmentations. *)
Definition target (c : ConfigurationCall) : option OptionalParameter :=
  match c with
  | CallSet v => Some (parameter_of v)
  | CallUnset p => Some p
  | CallClean => None
  end.

(** Everything a filter holds apart from its time stamp. *)
Definition contents (f : Filter) :=
  (map (fun p => Has p f) AllParameters, parameter_values f, settings f,
   results f, m_ProbabilisticSegmentationArray f).

(** The value of the last Set of parameter [p] in a sequence of calls. *)
Fixpoint last_set (p : OptionalParameter) (cs : list ConfigurationCall)
    : option ParameterValue :=
  match cs with
  | [] => None
  | c :: cs' =>
      match last_set p cs' with
      | Some v => Some v
      | None =>
          match c with
          | CallSet v => if decide (parameter_of v = p) then Some v else None
          | _ => None
          end
      end
  end.

(** The last call of a sequence that acts on parameter [p]. *)
Fixpoint last_call_on (p : OptionalParameter) (cs : list ConfigurationCall)
    : option ConfigurationCall :=
  match cs with
  | [] => None
  | c :: cs' =>
      match last_call_on p cs' with
      | Some c' => Some c'
      | None => if decide (target c = Some p) then Some c else None
      end
  end.

(** * pxreshape (src/reshape/reshape.cxx)

    The command-line program that reshapes an image.  Its own code is the
    argument handling of [main], the table of template instantiations with
    [ITKToolsReshape::New], and the size translation at the start of
    [ITKToolsReshape::Run].  What it calls in other libraries (the argument
    parser, itksys, the image property readers of ITKTools, [IsType] and the
    reader-reshaper-writer pipeline of ITK) is not under src/; these calls
    are the fields of [Environment], without any assumption on what they
    return.  Unsigned integers are [nat]; what is printed on the console is
    not represented. *)

(** The component types [ITKToolsReshape] is instantiated with. *)
Inductive TComponentType : Type :=
  | UnsignedChar | Char | UnsignedShort | Short | UnsignedInt | Int
  | UnsignedLong | Long | Float | Double.

#[global] Instance TComponentType_eq_dec : EqDecision TComponentType.
Proof. solve_decision. Defined.

(** [itk::CommandLineArgumentParser::ReturnValue]; [main] tests for [FAILED]
    and [HELPREQUESTED], [PASSED] stands for any other value. *)
Inductive ReturnValue : Type := PASSED | FAILED | HELPREQUESTED.

(** What [itktools::GetImageProperties] leaves in its reference arguments
    that [main] reads afterwards, with its return value. *)
Record ImageProperties : Type := {
  retgip : Z;
  Dimension : nat;
  NumberOfComponents : nat;
  inputSize : list nat
}.

Record Environment : Type := {
  (** [itktools::ComponentType] and [itktools::IsType<T>] *)
  ComponentType : Type;
  IsType : TComponentType -> ComponentType -> bool;
  (** whether the program is compiled with ITKTOOLS_3D_SUPPORT *)
  ITKTOOLS_3D_SUPPORT : bool;
  (** [parser->CheckForRequiredArguments()] *)
  CheckForRequiredArguments : ReturnValue;
  (** [parser->GetCommandLineArgument(key, variable)]: the content of the
      variable after the call, from the key and its content before *)
  GetCommandLineArgument : string -> string -> string;
  GetCommandLineArgumentVector : string -> list nat -> list nat;
  (** itksys::SystemTools *)
  GetFilenameWithoutLastExtension : string -> string;
  GetFilenameLastExtension : string -> string;
  (** itktools *)
  GetImageProperties : string -> ImageProperties;
  GetImageComponentType : string -> ComponentType;
  (** the content of an uninitialised [SizeType] *)
  Indeterminate : nat -> nat;
  (** reader, reshaper and writer of [Run] on [itk::Image<T, VDimension>],
      from the input file name, the output file name and the size handed to
      the reshaper: [true] when an [itk::ExceptionObject] is thrown (the
      only exception [main] catches) *)
  Pipeline : TComponentType -> nat -> string -> string -> list nat -> bool
}.

(** [ITKToolsReshapeBase]: the constructor leaves both names empty and the
    size vector empty. *)
Record ITKToolsReshapeBase : Type := {
  m_InputFileName : string;
  m_OutputFileName : string;
  m_OutputSize : list nat
}.

Definition ITKToolsReshapeBase_new : ITKToolsReshapeBase :=
  {| m_InputFileName := ""; m_OutputFileName := ""; m_OutputSize := [] |}.

(** [ITKToolsReshape<TComponentType, VDimension>::New]: an object of this
    instantiation, or the null pointer. *)
Definition New (E : Environment) (T : TComponentType) (VDimension : nat)
    (componentType : ComponentType E) (dim : nat)
    : option (TComponentType * nat) :=
  if IsType E T componentType && bool_decide (VDimension = dim)
  then Some (T, VDimension)
  else None.

(** [SizeType] is a fixed array of [VDimension] entries, read and written
    without bounds check: [size[i] = v] outside the array is undefined,
    which is [None] here. *)
Definition SizeType_write (VDimension : nat) (size : nat -> nat) (i v : nat)
    : option (nat -> nat) :=
  if bool_decide (i < VDimension)
  then Some (fun j => if bool_decide (j = i) then v else size j)
  else None.

(** The loop at the start of [Run], from index [i] on, over the entries of
    [m_OutputSize] not yet copied. *)
Fixpoint TranslateSizeFrom (VDimension : nat) (i : nat) (rest : list nat)
    (size : nat -> nat) : option (nat -> nat) :=
  match rest with
  | [] => Some size
  | v :: rest' =>
      match SizeType_write VDimension size i v with
      | Some size' => TranslateSizeFrom VDimension (S i) rest' size'
      | None => None
      end
  end.

Definition TranslateSize (VDimension : nat) (m_OutputSize : list nat)
    (size : nat -> nat) : option (nat -> nat) :=
  TranslateSizeFrom VDimension 0 m_OutputSize size.

(** The entries of a [SizeType], in order. *)
Definition SizeType_entries (VDimension : nat) (size : nat -> nat) : list nat :=
  map size (seq 0 VDimension).

Inductive RunResult : Type := Completed | Threw | OutOfBounds.

(** [ITKToolsReshape<T, VDimension>::Run]. *)
Definition Run (E : Environment) (T : TComponentType) (VDimension : nat)
    (this : ITKToolsReshapeBase) : RunResult :=
  match TranslateSize VDimension (m_OutputSize this) (Indeterminate E) with
  | None => OutOfBounds
  | Some size =>
      if Pipeline E T VDimension (m_InputFileName this) (m_OutputFileName this)
           (SizeType_entries VDimension size)
      then Threw
      else Completed
  end.

(** The instantiations [main] tries, in the order of the source. *)
Definition Instantiations (support3D : bool) : list (TComponentType * nat) :=
  [(UnsignedChar, 2); (Char, 2); (UnsignedShort, 2); (Short, 2);
   (UnsignedInt, 2); (Int, 2); (UnsignedLong, 2); (Long, 2); (Float, 2);
   (Double, 2)]
  ++ (if support3D
      then [(UnsignedChar, 3); (Char, 3); (UnsignedShort, 3); (Short, 3);
            (UnsignedInt, 3); (Int, 3); (UnsignedLong, 3); (Long, 3);
            (Float, 3); (Double, 3)]
      else []).

(** One line [if (!reshape) reshape = ITKToolsReshape<T, D>::New(...)]. *)
Definition TryInstantiation (E : Environment)
    (componentType : ComponentType E) (imageDimension : nat)
    (reshape : option (TComponentType * nat)) (TD : TComponentType * nat)
    : option (TComponentType * nat) :=
  match reshape with
  | None => New E TD.1 TD.2 componentType imageDimension
  | Some _ => reshape
  end.

(** The chain of these lines, starting from the null pointer. *)
Definition Dispatch (E : Environment) (componentType : ComponentType E)
    (imageDimension : nat) : option (TComponentType * nat) :=
  fold_left (TryInstantiation E componentType imageDimension)
            (Instantiations (ITKTOOLS_3D_SUPPORT E)) None.

Definition EXIT_SUCCESS : Z := 0.
Definition EXIT_FAILURE : Z := 1.

(** How the program ends: with an exit code, or in undefined behaviour. *)
Inductive ExitStatus : Type :=
  | Exit (code : Z)
  | UndefinedBehaviour.

(** The local variables of [main] that its later steps read. *)
Definition inputFilename (E : Environment) : string :=
  GetCommandLineArgument E "-in" "".

Definition outputFilename (E : Environment) : string :=
  let base := GetFilenameWithoutLastExtension E (inputFilename E) in
  let ext := GetFilenameLastExtension E (inputFilename E) in
  GetCommandLineArgument E "-out" (base +:+ "_reshaped" +:+ ext).

Definition outputSize (E : Environment) : list nat :=
  GetCommandLineArgumentVector E "-s" [].

Definition main (E : Environment) : ExitStatus :=
  match CheckForRequiredArguments E with
  | FAILED => Exit EXIT_FAILURE
  | HELPREQUESTED => Exit EXIT_SUCCESS
  | PASSED =>
      let props := GetImageProperties E (inputFilename E) in
      if bool_decide (retgip props <> 0%Z) then Exit 1
      else if bool_decide (1 < NumberOfComponents props) then Exit 1
      else if bool_decide (length (inputSize props) <> length (outputSize E))
      then Exit 1
      else
        let imageDimension := Dimension props in
        let componentType := GetImageComponentType E (inputFilename E) in
        match Dispatch E componentType imageDimension with
        | None => Exit 1
        | Some (T, VDimension) =>
            let reshape :=
              {| m_InputFileName := inputFilename E;
                 m_OutputFileName := outputFilename E;
                 m_OutputSize := outputSize E |} in
            match Run E T VDimension reshape with
            | Completed => Exit 0
            | Threw => Exit 1
            | OutOfBounds => UndefinedBehaviour
            end
        end
  end.

(** ** A sample command line

    [pxreshape -in scan.mhd -s <sizes>] on a file of component type [short]
    with the given properties, built without 3D support; the pipeline does
    not throw. *)
Definition SampleEnvironment (props : ImageProperties) (sizes : list nat)
    : Environment :=
  {| ComponentType := TComponentType;
     IsType := fun T componentType => bool_decide (T = componentType);
     ITKTOOLS_3D_SUPPORT := false;
     CheckForRequiredArguments := PASSED;
     GetCommandLineArgument := fun key variable =>
       if decide (key = "-in") then "scan.mhd" else variable;
     GetCommandLineArgumentVector := fun key variable =>
       if decide (key = "-s") then sizes else variable;
     GetFilenameWithoutLastExtension := fun _ => "scan";
     GetFilenameLastExtension := fun _ => ".mhd";
     GetImageProperties := fun _ => props;
     GetImageComponentType := fun _ => Short;
     Indeterminate := fun _ => 0;
     Pipeline := fun _ _ _ _ _ => false |}.

Definition PlanarScan : ImageProperties :=
  {| retgip := 0; Dimension := 2; NumberOfComponents := 1;
     inputSize := [8; 3] |}.

Definition PlanarVectorScan : ImageProperties :=
  {| retgip := 0; Dimension := 2; NumberOfComponents := 3;
     inputSize := [8; 3] |}.

(** * Properties *)

(** ** The configuration surface of the header *)

(** C9.  Every Unset member is idempotent and touches nothing but its own
    presence flag and, when that flag was set, the time stamp: the stored
    parameter values (what the Get accessors return), the other flags, the
    settings and the results are kept, and a call on a filter whose flag is
    already false returns the filter unchanged, time stamp included. *)
Theorem Unset_clears_flag_only (p : OptionalParameter) (f : Filter) :
  Unset p (Unset p f) = Unset p f
  /\ Has p (Unset p f) = false
  /\ other_flags p (Unset p f) = other_flags p f
  /\ parameter_values (Unset p f) = parameter_values f
  /\ (GetMaximumNumberOfIterations (Unset p f) = GetMaximumNumberOfIterations f
      /\ GetPriorPreference (Unset p f) = GetPriorPreference f
      /\ GetPriorProbabilityImageArray (Unset p f)
         = GetPriorProbabilityImageArray f
      /\ GetPriorProbabilities (Unset p f) = GetPriorProbabilities f
      /\ GetObserverTrust (Unset p f) = GetObserverTrust f
      /\ GetNumberOfClasses (Unset p f) = GetNumberOfClasses f)
  /\ settings (Unset p f) = settings f
  /\ results (Unset p f) = results f
  /\ m_ProbabilisticSegmentationArray (Unset p f)
     = m_ProbabilisticSegmentationArray f
  /\ m_MTime (Unset p f) = (if Has p f then S (m_MTime f) else m_MTime f)
  /\ (Has p f = false -> Unset p f = f).
Proof.
  destruct f as [nc hpp hot hmi hpa hnc hpf pp pa ot cm ucm ps pf mu ei mi
                 gps tut mk imv mt ins out].
  destruct p;
    [destruct hmi | destruct hpf | destruct hpa | destruct hpp | destruct hot
     | destruct hnc];
    repeat split; try reflexivity; intros; discriminate.
Qed.


(** C8.  [CleanProbabilisticSegmentations] empties the array of probabilistic
    segmentations and nothing else: the output label image, every confusion
    matrix, the elapsed iteration count, the parameters, settings and flags
    are as before; only the time stamp moves, and only if there was
    something to release. *)
Theorem CleanProbabilisticSegmentations_keeps_results (f : Filter) :
  GetProbabilisticSegmentationArray (CleanProbabilisticSegmentations f) = []
  /\ GetOutput (CleanProbabilisticSegmentations f) = GetOutput f
  /\ (forall i, GetConfusionMatrix i (CleanProbabilisticSegmentations f)
                = GetConfusionMatrix i f)
  /\ GetElapsedIterations (CleanProbabilisticSegmentations f)
     = GetElapsedIterations f
  /\ results (CleanProbabilisticSegmentations f) = results f
  /\ parameter_values (CleanProbabilisticSegmentations f) = parameter_values f
  /\ settings (CleanProbabilisticSegmentations f) = settings f
  /\ (forall p, Has p (CleanProbabilisticSegmentations f) = Has p f)
  /\ m_MTime (CleanProbabilisticSegmentations f)
     = (if bool_decide (m_ProbabilisticSegmentationArray f = [])
        then m_MTime f else S (m_MTime f)).
Proof.
  destruct f as [nc hpp hot hmi hpa hnc hpf pp pa ot cm ucm ps pf mu ei mi
                 gps tut mk imv mt ins out].
  destruct ps as [| img ps]; cbn;
    (repeat split; try reflexivity); intros p; destruct p; reflexivity.
Qed.

Lemma EMIteration_matrix_count (pw : Qc -> Qc -> Qc) (f : Filter) :
  length (m_ConfusionMatrixArray (EMIteration pw f).1)
  = NumberOfInputs (EMIteration pw f).1.
Proof.
  destruct f; cbn. unfold MStep. now rewrite length_map, length_seq.
Qed.

Lemma EMLoop_matrix_count (pw : Qc -> Qc -> Qc) (fuel : nat) :
  forall f f' W,
    EMLoop pw fuel f = Stopped f' W ->
    length (m_ConfusionMatrixArray f') = NumberOfInputs f'.
Proof.
  induction fuel as [| fuel IH]; intros f f' W; [discriminate |].
  cbn [EMLoop]. destruct (PassDefined pw f); [| discriminate].
  pose proof (EMIteration_matrix_count pw f) as Hlen.
  destruct (EMIteration pw f) as [g V]. cbn [fst] in Hlen.
  destruct (StopCriterion g).
  - intros [= <- <-]. exact Hlen.
  - apply IH.
Qed.

Lemma GenerateData_matrix_count (impl : Implementation) (fuel : nat)
    (f f' : Filter) :
  GenerateData impl fuel f = Success f' ->
  length (m_ConfusionMatrixArray f') = NumberOfInputs f'.
Proof.
  unfold GenerateData.
  destruct (DiscoverNumberOfClasses _ f) as [e | K]; [discriminate |].
  destruct (CheckConfiguration K f); [discriminate |].
  destruct (PrepareDefined impl K f); [| discriminate].
  destruct (EMLoop _ _ _) as [g W | |] eqn:Hloop; try discriminate.
  intros [= <-]. apply EMLoop_matrix_count in Hloop.
  destruct g; exact Hloop.
Qed.

(** C10.  On a filter that holds one confusion matrix per input (as it does
    after a run, see [GenerateData_matrix_count]), [GetConfusionMatrix i]
    yields a matrix exactly when i is below the number of inputs, and falls
    outside the vector exactly when it is not. *)
Theorem GetConfusionMatrix_defined_iff_in_range (f : Filter) (i : nat) :
  length (m_ConfusionMatrixArray f) = NumberOfInputs f ->
  (is_Some (GetConfusionMatrix i f) <-> i < NumberOfInputs f)
  /\ (GetConfusionMatrix i f = None <-> NumberOfInputs f <= i).
Proof.
  intros Hlen. unfold GetConfusionMatrix. rewrite <- Hlen. split.
  - apply lookup_lt_is_Some.
  - apply lookup_ge_None.
Qed.

(** ** The Label Space Discoverer and the shape of the loop *)

Section Discoverer.

Lemma labels_below_spec (K : nat) (inputs : list (list nat)) :
  forallb (forallb (fun l => l <? K)) inputs = true
  <-> forall img l, img ∈ inputs -> l ∈ img -> l < K.
Proof.
  rewrite forallb_forall. split.
  - intros H img l Himg Hl. apply list_elem_of_In in Himg.
    specialize (H img Himg). rewrite forallb_forall in H.
    apply list_elem_of_In in Hl. apply Nat.ltb_lt. now apply H.
  - intros H img Himg. apply forallb_forall. intros l Hl.
    apply Nat.ltb_lt. apply (H img l); now apply list_elem_of_In.
Qed.

Lemma ComputeMaximumInputValue_upper (f : Filter) (img : list nat) (l : nat) :
  img ∈ m_Inputs f -> l ∈ img -> l <= ComputeMaximumInputValue f.
Proof.
  intros Himg Hl. apply max_list_elem_of_le.
  apply list_elem_of_join. eauto.
Qed.

Lemma ComputeMaximumInputValue_attained (f : Filter) :
  mjoin (m_Inputs f) <> [] ->
  exists img, img ∈ m_Inputs f /\ ComputeMaximumInputValue f ∈ img.
Proof.
  intros Hne. apply max_list_elem_of in Hne.
  apply list_elem_of_join in Hne as (img & ? & ?). eauto.
Qed.

End Discoverer.

Section Loop.

Variable pw : Qc -> Qc -> Qc.

Lemma EMIteration_constants (f : Filter) :
  RunConstants (EMIteration pw f).1 = RunConstants f.
Proof. destruct f; reflexivity. Qed.

Lemma EMIteration_elapsed (f : Filter) :
  m_ElapsedIterations (EMIteration pw f).1 = S (m_ElapsedIterations f).
Proof. destruct f; reflexivity. Qed.

Lemma EMIteration_posterior (f : Filter) :
  (EMIteration pw f).2 = EStep pw f.
Proof. reflexivity. Qed.

Lemma AfterIterations_constants (n : nat) :
  forall f, RunConstants (AfterIterations pw n f) = RunConstants f.
Proof.
  induction n as [| n IH]; intros f; [reflexivity |].
  cbn [AfterIterations]. rewrite IH. apply EMIteration_constants.
Qed.

Lemma AfterIterations_elapsed (n : nat) :
  forall f, m_ElapsedIterations (AfterIterations pw n f)
            = n + m_ElapsedIterations f.
Proof.
  induction n as [| n IH]; intros f; [reflexivity |].
  cbn [AfterIterations]. rewrite IH, EMIteration_elapsed. lia.
Qed.

Lemma AfterIterations_S (n : nat) :
  forall f, AfterIterations pw (S n) f
            = (EMIteration pw (AfterIterations pw n f)).1.
Proof.
  induction n as [| n IH]; intros f; [reflexivity |].
  change (AfterIterations pw (S (S n)) f)
    with (AfterIterations pw (S n) (EMIteration pw f).1).
  now rewrite IH.
Qed.

Lemma CheckedIterations_Some (n : nat) :
  forall f h,
    CheckedIterations pw n f = Some h <->
    h = AfterIterations pw n f
    /\ forall i, i < n -> PassDefined pw (AfterIterations pw i f) = true.
Proof.
  induction n as [| n IH]; intros f h.
  - cbn. split.
    + intros [= <-]. split; [reflexivity | intros i Hi; lia].
    + intros [-> _]. reflexivity.
  - cbn [CheckedIterations AfterIterations].
    destruct (PassDefined pw f) eqn:Hdef.
    + rewrite IH. split.
      * intros [-> Hall]. split; [reflexivity |].
        intros [| i] Hi; [exact Hdef |]. cbn [AfterIterations].
        apply Hall. lia.
      * intros [-> Hall]. split; [reflexivity |].
        intros i Hi. apply (Hall (S i)). lia.
    + split; [discriminate |]. intros [_ Hall].
      specialize (Hall 0 ltac:(lia)). cbn in Hall. congruence.
Qed.

Lemma EMLoop_S (fuel : nat) (f : Filter) :
  EMLoop pw (S fuel) f
  = if PassDefined pw f
    then if StopCriterion (EMIteration pw f).1
         then Stopped (EMIteration pw f).1 (EStep pw f)
         else EMLoop pw fuel (EMIteration pw f).1
    else ZeroDivisor.
Proof. reflexivity. Qed.

Lemma EMLoop_cases (fuel : nat) :
  forall f,
    match EMLoop pw fuel f with
    | Stopped g W =>
        exists n, n < fuel
          /\ g = AfterIterations pw (S n) f
          /\ W = EStep pw (AfterIterations pw n f)
          /\ StopCriterion (AfterIterations pw (S n) f) = true
          /\ (forall i, i < n ->
                 StopCriterion (AfterIterations pw (S i) f) = false)
          /\ (forall i, i <= n ->
                 PassDefined pw (AfterIterations pw i f) = true)
    | ZeroDivisor =>
        exists n, n < fuel
          /\ PassDefined pw (AfterIterations pw n f) = false
          /\ (forall i, i < n ->
                 StopCriterion (AfterIterations pw (S i) f) = false)
          /\ (forall i, i < n ->
                 PassDefined pw (AfterIterations pw i f) = true)
    | FuelSpent =>
        (forall i, i < fuel ->
           StopCriterion (AfterIterations pw (S i) f) = false)
        /\ (forall i, i < fuel ->
               PassDefined pw (AfterIterations pw i f) = true)
    end.
Proof.
  induction fuel as [| fuel IH]; intros f.
  - cbn. split; intros i Hi; lia.
  - rewrite EMLoop_S. destruct (PassDefined pw f) eqn:Hdef.
    + set (f1 := (EMIteration pw f).1).
      destruct (StopCriterion f1) eqn:Hstop.
      * exists 0. cbn [AfterIterations]. fold f1.
        repeat split; [lia | exact Hstop | intros i Hi; lia |].
        intros i Hi. now replace i with 0 by lia.
      * specialize (IH f1). destruct (EMLoop pw fuel f1) as [g W | |].
        -- destruct IH as (n & Hn & Hg & HW & Hs & Hbefore & Hall).
           exists (S n). cbn [AfterIterations]. fold f1.
           repeat split; [lia | exact Hg | exact HW | exact Hs | |].
           ++ intros [| i] Hi; cbn [AfterIterations]; fold f1;
                [exact Hstop | apply Hbefore; lia].
           ++ intros [| i] Hi; cbn [AfterIterations]; fold f1;
                [exact Hdef | apply Hall; lia].
        -- destruct IH as (n & Hn & Hz & Hbefore & Hall).
           exists (S n). cbn [AfterIterations]. fold f1.
           repeat split; [lia | exact Hz | |].
           ++ intros [| i] Hi; cbn [AfterIterations]; fold f1;
                [exact Hstop | apply Hbefore; lia].
           ++ intros [| i] Hi; cbn [AfterIterations]; fold f1;
                [exact Hdef | apply Hall; lia].
        -- destruct IH as [Hbefore Hall]. split.
           ++ intros [| i] Hi; cbn [AfterIterations]; fold f1;
                [exact Hstop | apply Hbefore; lia].
           ++ intros [| i] Hi; cbn [AfterIterations]; fold f1;
                [exact Hdef | apply Hall; lia].
    + exists 0. repeat split; [lia | exact Hdef | |]; intros i Hi; lia.
Qed.

Lemma EMLoop_stops (n : nat) :
  forall fuel f,
    n < fuel ->
    StopCriterion (AfterIterations pw (S n) f) = true ->
    (forall i, i < n -> StopCriterion (AfterIterations pw (S i) f) = false) ->
    (forall i, i <= n -> PassDefined pw (AfterIterations pw i f) = true) ->
    EMLoop pw fuel f
    = Stopped (AfterIterations pw (S n) f)
              (EStep pw (AfterIterations pw n f)).
Proof.
  induction n as [| n IH]; intros fuel f Hn Hstop Hbefore Hall;
    (destruct fuel as [| fuel]; [lia |]); rewrite EMLoop_S;
    pose proof (Hall 0 ltac:(lia)) as H0; cbn [AfterIterations] in H0;
    rewrite H0.
  - cbn [AfterIterations] in *. now rewrite Hstop.
  - pose proof (Hbefore 0 ltac:(lia)) as Hs0. cbn [AfterIterations] in Hs0.
    rewrite Hs0. cbn [AfterIterations].
    apply IH; [lia | exact Hstop | |].
    + intros i Hi. exact (Hbefore (S i) ltac:(lia)).
    + intros i Hi. exact (Hall (S i) ltac:(lia)).
Qed.

Lemma EMLoop_divides_by_zero (n : nat) :
  forall fuel f,
    n < fuel ->
    PassDefined pw (AfterIterations pw n f) = false ->
    (forall i, i < n -> StopCriterion (AfterIterations pw (S i) f) = false) ->
    (forall i, i < n -> PassDefined pw (AfterIterations pw i f) = true) ->
    EMLoop pw fuel f = ZeroDivisor.
Proof.
  induction n as [| n IH]; intros fuel f Hn Hz Hbefore Hall;
    (destruct fuel as [| fuel]; [lia |]); rewrite EMLoop_S.
  - cbn [AfterIterations] in Hz. now rewrite Hz.
  - pose proof (Hall 0 ltac:(lia)) as H0. cbn [AfterIterations] in H0.
    rewrite H0.
    pose proof (Hbefore 0 ltac:(lia)) as Hs0. cbn [AfterIterations] in Hs0.
    rewrite Hs0.
    apply IH; [lia | exact Hz | |].
    + intros i Hi. exact (Hbefore (S i) ltac:(lia)).
    + intros i Hi. exact (Hall (S i) ltac:(lia)).
Qed.

Lemma EMLoop_spends_fuel (fuel : nat) :
  forall f,
    (forall i, i < fuel ->
       StopCriterion (AfterIterations pw (S i) f) = false) ->
    (forall i, i < fuel ->
       PassDefined pw (AfterIterations pw i f) = true) ->
    EMLoop pw fuel f = FuelSpent.
Proof.
  induction fuel as [| fuel IH]; intros f Hbefore Hall; [reflexivity |].
  rewrite EMLoop_S.
  pose proof (Hall 0 ltac:(lia)) as H0. cbn [AfterIterations] in H0.
  rewrite H0.
  pose proof (Hbefore 0 ltac:(lia)) as Hs0. cbn [AfterIterations] in Hs0.
  rewrite Hs0. apply IH.
  - intros i Hi. exact (Hbefore (S i) ltac:(lia)).
  - intros i Hi. exact (Hall (S i) ltac:(lia)).
Qed.

Lemma EMLoop_Stopped (fuel : nat) (f g : Filter) (W : PosteriorStore) :
  EMLoop pw fuel f = Stopped g W ->
  exists n, n < fuel
    /\ g = AfterIterations pw (S n) f
    /\ W = EStep pw (AfterIterations pw n f)
    /\ StopCriterion (AfterIterations pw (S n) f) = true
    /\ (forall i, i < n ->
           StopCriterion (AfterIterations pw (S i) f) = false)
    /\ (forall i, i <= n ->
           PassDefined pw (AfterIterations pw i f) = true).
Proof.
  intros Hloop. pose proof (EMLoop_cases fuel f) as H.
  now rewrite Hloop in H.
Qed.

End Loop.

Lemma Prepare_NumberOfClasses (impl : Implementation) (K : nat) (f : Filter) :
  m_NumberOfClasses (Prepare impl K f) = K.
Proof.
  destruct f as [nc hpp hot hmi hpa hnc hpf pp pa ot cm ucm ps pf mu ei mi
                 gps tut mk imv mt ins out].
  unfold Prepare; cbn. destruct (hpp || hpa); reflexivity.
Qed.

Lemma RunConstants_NumberOfClasses (f g : Filter) :
  RunConstants f = RunConstants g -> m_NumberOfClasses f = m_NumberOfClasses g.
Proof. unfold RunConstants. congruence. Qed.

(** ** Weights and the Prior Estimator *)

Section Weights.

Local Open Scope Qc_scope.

Lemma sumQc_cons (x : Qc) (v : list Qc) : sumQc (x :: v) = x + sumQc v.
Proof. reflexivity. Qed.

Lemma sumQc_map_div (s : Qc) (v : list Qc) :
  sumQc (map (fun x => x / s) v) = sumQc v / s.
Proof.
  induction v as [| x v IH]; cbn [map].
  - unfold sumQc; cbn. unfold Qcdiv. now rewrite Qcmult_0_l.
  - rewrite !sumQc_cons, IH. unfold Qcdiv. ring.
Qed.

Lemma normalize_sum (v : list Qc) :
  sumQc v <> 0 -> sumQc (normalize v) = 1.
Proof.
  intros Hne. unfold normalize. rewrite sumQc_map_div.
  unfold Qcdiv. now apply Qcmult_inv_r.
Qed.

Lemma normalize_zero_mass (v : list Qc) :
  sumQc v = 0 -> sumQc (normalize v) = 0.
Proof.
  intros Hz. unfold normalize. rewrite sumQc_map_div, Hz.
  unfold Qcdiv. apply Qcmult_0_l.
Qed.

Lemma length_normalize (v : list Qc) : length (normalize v) = length v.
Proof. unfold normalize. apply length_map. Qed.

Lemma nth_normalize (v : list Qc) (k : nat) :
  nth k (normalize v) 0 = nth k v 0 / sumQc v.
Proof.
  unfold normalize.
  destruct (decide (k < length v)%nat) as [Hk | Hk].
  - rewrite (nth_indep _ 0 (0 / sumQc v)) by now rewrite length_map.
    apply (map_nth (fun x => x / sumQc v)).
  - rewrite !nth_overflow by (rewrite ?length_map; lia).
    unfold Qcdiv. now rewrite Qcmult_0_l.
Qed.

Lemma sumQc_nonneg (v : list Qc) :
  (forall x, x ∈ v -> 0 <= x) -> 0 <= sumQc v.
Proof.
  induction v as [| x v IH]; intros H.
  - apply Qcle_refl.
  - rewrite sumQc_cons. apply Qcplus_nonneg_nonneg.
    + apply H. left.
    + apply IH. intros y Hy. apply H. now right.
Qed.

Lemma sumQc_pos (v : list Qc) :
  (forall x, x ∈ v -> 0 <= x) -> (exists x, x ∈ v /\ 0 < x) -> 0 < sumQc v.
Proof.
  induction v as [| x v IH]; intros Hnn (y & Hy & Hpos).
  - inversion Hy.
  - rewrite sumQc_cons. apply elem_of_cons in Hy as [-> | Hy].
    + apply Qcplus_pos_nonneg; [exact Hpos |].
      apply sumQc_nonneg. intros z Hz. apply Hnn. now right.
    + apply Qcplus_nonneg_pos; [apply Hnn; left |].
      apply IH; [intros z Hz; apply Hnn; now right | eauto].
Qed.

Lemma Qcdiv_pos (x y : Qc) : 0 < x -> 0 < y -> 0 < x / y.
Proof. intros Hx Hy. apply Qcmult_pos_pos; [exact Hx | now apply Qcinv_pos]. Qed.

Lemma Qc_of_nat_pos (n : nat) : (0 < n)%nat -> 0 < Qc_of_nat n.
Proof.
  intros Hn. unfold Qc_of_nat. rewrite <- Z2Qc_inj_0.
  apply (proj1 (Z2Qc_inj_lt _ _)). lia.
Qed.

End Weights.

Section PriorEstimator.

Local Open Scope Qc_scope.

Variable eps : Qc.
Hypothesis eps_pos : 0 < eps.

Lemma FlooredFrequency_pos (f : Filter) (k : nat) :
  0 < FlooredFrequency eps f k.
Proof.
  unfold FlooredFrequency.
  destruct (LabelCount f k =? 0)%nat eqn:Hc; [exact eps_pos |].
  apply Nat.eqb_neq in Hc.
  apply Qcdiv_pos; apply Qc_of_nat_pos; [lia |].
  unfold TotalLabelOccurrences.
  pose proof (length_filter (fun l => l = k) (mjoin (m_Inputs f))) as Hle.
  unfold LabelCount in Hc. lia.
Qed.

Lemma floored_mass_pos (f : Filter) (K : nat) :
  (0 < K)%nat -> 0 < sumQc (map (FlooredFrequency eps f) (seq 0 K)).
Proof.
  intros HK. apply sumQc_pos.
  - intros x Hx. apply list_elem_of_fmap in Hx as (k & -> & _).
    apply Qclt_le_weak, FlooredFrequency_pos.
  - exists (FlooredFrequency eps f 0). split; [| apply FlooredFrequency_pos].
    apply list_elem_of_fmap. exists 0%nat. split; [reflexivity |].
    apply elem_of_seq. lia.
Qed.

End PriorEstimator.

Ltac by_constants :=
  let f := fresh "f" in let g := fresh "g" in let H := fresh "H" in
  intros f g H; destruct f, g; unfold RunConstants, settings in H;
  cbn in H; simplify_eq; repeat split; reflexivity.

Lemma constants_classes :
  forall f g, RunConstants f = RunConstants g ->
              m_NumberOfClasses f = m_NumberOfClasses g.
Proof. by_constants. Qed.

Lemma constants_inputs_number :
  forall f g, RunConstants f = RunConstants g ->
              NumberOfInputs f = NumberOfInputs g.
Proof. by_constants. Qed.

Lemma constants_pixels :
  forall f g, RunConstants f = RunConstants g ->
              NumberOfPixels f = NumberOfPixels g.
Proof. by_constants. Qed.

Lemma constants_Label :
  forall f g, RunConstants f = RunConstants g ->
              forall s p, Label f s p = Label g s p.
Proof. by_constants. Qed.

Lemma constants_InsideMask :
  forall f g, RunConstants f = RunConstants g ->
              forall p, InsideMask f p = InsideMask g p.
Proof. by_constants. Qed.

Lemma constants_Prior :
  forall f g, RunConstants f = RunConstants g ->
              forall k p, Prior f k p = Prior g k p.
Proof. by_constants. Qed.

Lemma constants_Preference :
  forall f g, RunConstants f = RunConstants g ->
              forall k, Preference f k = Preference g k.
Proof. by_constants. Qed.

Lemma constants_threshold :
  forall f g, RunConstants f = RunConstants g ->
              m_TerminationUpdateThreshold f = m_TerminationUpdateThreshold g.
Proof. by_constants. Qed.

Lemma constants_cap :
  forall f g, RunConstants f = RunConstants g ->
    m_HasMaximumNumberOfIterations f = m_HasMaximumNumberOfIterations g
    /\ m_MaximumNumberOfIterations f = m_MaximumNumberOfIterations g.
Proof. by_constants. Qed.

Lemma constants_trust :
  forall f g, RunConstants f = RunConstants g ->
    m_HasObserverTrust f = m_HasObserverTrust g
    /\ m_ObserverTrust f = m_ObserverTrust g.
Proof. by_constants. Qed.

Section PriorsOfARun.

Local Open Scope Qc_scope.

Lemma InitializePriorProbabilities_spec (eps : Qc) (f : Filter) :
  0 < eps -> (0 < m_NumberOfClasses f)%nat ->
  let priors := m_PriorProbabilities (InitializePriorProbabilities eps f) in
  length priors = m_NumberOfClasses f
  /\ sumQc priors = 1
  /\ forall k, (k < m_NumberOfClasses f)%nat -> 0 < nth k priors 0.
Proof.
  intros Heps HK.
  assert (Hp : m_PriorProbabilities (InitializePriorProbabilities eps f)
               = normalize (map (FlooredFrequency eps f)
                                (seq 0 (m_NumberOfClasses f))))
    by now destruct f.
  cbv zeta. rewrite Hp.
  pose proof (floored_mass_pos eps Heps f _ HK) as Hmass.
  split; [now rewrite length_normalize, length_map, length_seq |].
  split; [apply normalize_sum; intros Hz; rewrite Hz in Hmass;
          now apply Qclt_not_eq in Hmass |].
  intros k Hk. rewrite nth_normalize. apply Qcdiv_pos; [| exact Hmass].
  rewrite (nth_indep _ 0 (FlooredFrequency eps f 0))
    by now rewrite length_map, length_seq.
  rewrite map_nth. apply FlooredFrequency_pos, Heps.
Qed.

Lemma Prepare_estimates_priors (impl : Implementation) (K : nat) (f : Filter) :
  m_HasPriorProbabilities f = false ->
  m_HasPriorProbabilityImageArray f = false ->
  m_PriorProbabilities (Prepare impl K f)
  = m_PriorProbabilities
      (InitializePriorProbabilities (epsilon impl) (with_NumberOfClasses K f))
  /\ m_HasPriorProbabilityImageArray (Prepare impl K f) = false.
Proof.
  destruct f as [nc hpp hot hmi hpa hnc hpf pp pa ot cm ucm ps pf mu ei mi
                 gps tut mk imv mt ins out].
  cbn. intros -> ->. split; reflexivity.
Qed.

End PriorsOfARun.

Section PriorClaim.

Local Open Scope Qc_scope.

Lemma with_NumberOfClasses_classes (K : nat) (f : Filter) :
  m_NumberOfClasses (with_NumberOfClasses K f) = K.
Proof. now destruct f. Qed.

Lemma UnnormalizedPosterior_mass_pos (pw : Qc -> Qc -> Qc) (h : Filter)
    (p : nat) :
  (forall k, (k < m_NumberOfClasses h)%nat -> 0 < Prior h k p) ->
  (forall k, (k < m_NumberOfClasses h)%nat -> 0 <= Likelihood pw h p k) ->
  (exists k, (k < m_NumberOfClasses h)%nat /\ 0 < Likelihood pw h p k) ->
  0 < sumQc (UnnormalizedPosterior pw h p).
Proof.
  intros Hprior Hnn (k & Hk & Hpos). unfold UnnormalizedPosterior.
  apply sumQc_pos.
  - intros x Hx. apply list_elem_of_fmap in Hx as (j & -> & Hj).
    apply elem_of_seq in Hj.
    apply Qcmult_nonneg_nonneg;
      [apply Qclt_le_weak, Hprior | apply Hnn]; lia.
  - exists (Prior h k p * Likelihood pw h p k). split.
    + apply list_elem_of_fmap. exists k. split; [reflexivity |].
      apply elem_of_seq. lia.
    + apply Qcmult_pos_pos; [now apply Hprior | exact Hpos].
Qed.

End PriorClaim.

(** ** The decision rule *)

Section DecisionRule.

Local Open Scope Qc_scope.

Lemma Qc_max_ge_l (a b : Qc) : a <= Qc_max a b.
Proof.
  unfold Qc_max. destruct (decide (a < b)); [now apply Qclt_le_weak |].
  apply Qcle_refl.
Qed.

Lemma Qc_max_ge_r (a b : Qc) : b <= Qc_max a b.
Proof.
  unfold Qc_max. destruct (decide (a < b)); [apply Qcle_refl |].
  now apply Qcnot_lt_le.
Qed.

Lemma foldr_Qc_max_ge_init (x : Qc) (v : list Qc) : x <= foldr Qc_max x v.
Proof.
  induction v as [| y v IH]; cbn; [apply Qcle_refl |].
  eapply Qcle_trans; [exact IH | apply Qc_max_ge_r].
Qed.

Lemma foldr_Qc_max_ge_elem (x y : Qc) (v : list Qc) :
  y ∈ v -> y <= foldr Qc_max x v.
Proof.
  induction v as [| z v IH]; intros Hy; [inversion Hy |].
  cbn. apply elem_of_cons in Hy as [-> | Hy]; [apply Qc_max_ge_l |].
  eapply Qcle_trans; [now apply IH | apply Qc_max_ge_r].
Qed.

(** [MaximalWeight] bounds every entry of the vector. *)
Lemma MaximalWeight_upper (w : list Qc) (k : nat) :
  (k < length w)%nat -> nth k w 0 <= MaximalWeight w.
Proof.
  destruct w as [| x v]; cbn [length]; [lia |]. intros Hk.
  destruct k as [| k]; cbn [nth MaximalWeight].
  - apply foldr_Qc_max_ge_init.
  - apply foldr_Qc_max_ge_elem. apply list_elem_of_In, nth_In. lia.
Qed.

Lemma Candidates_spec (tol : Qc) (w : list Qc) (k : nat) :
  k ∈ Candidates tol w
  <-> (k < length w)%nat /\ MaximalWeight w - nth k w 0 <= tol.
Proof.
  unfold Candidates. rewrite list_elem_of_filter, elem_of_seq.
  split; intros [? ?]; split; auto; lia.
Qed.

Lemma LowestPreference_spec (pref : nat -> nat) (C : list nat) :
  C <> [] ->
  exists k, LowestPreference pref C = Some k
            /\ k ∈ C
            /\ forall j, j ∈ C -> (pref k <= pref j)%nat.
Proof.
  induction C as [| c C IH]; intros Hne; [congruence |].
  cbn [LowestPreference foldr]. fold (LowestPreference pref C).
  destruct C as [| c' C'].
  - cbn. exists c. repeat split; [left |].
    intros j Hj. apply list_elem_of_singleton in Hj as ->. lia.
  - destruct (IH ltac:(discriminate)) as (b & -> & Hb & Hmin).
    destruct (pref c <=? pref b)%nat eqn:Hcmp.
    + apply Nat.leb_le in Hcmp. exists c. repeat split; [left |].
      intros j Hj. apply elem_of_cons in Hj as [-> | Hj]; [lia |].
      specialize (Hmin j Hj). lia.
    + apply Nat.leb_gt in Hcmp. exists b. repeat split; [now right |].
      intros j Hj. apply elem_of_cons in Hj as [-> | Hj]; [lia |].
      now apply Hmin.
Qed.

Lemma DecideLabel_tie (tol : Qc) (f : Filter) (w : list Qc) :
  (1 < length (Candidates tol w))%nat ->
  DecideLabel tol f w ∈ Candidates tol w
  /\ forall j, j ∈ Candidates tol w ->
               (Preference f (DecideLabel tol f w) <= Preference f j)%nat.
Proof.
  intros Htie. unfold DecideLabel.
  destruct (Candidates tol w) as [| a [| b C]] eqn:HC; cbn in Htie; try lia.
  destruct (LowestPreference_spec (Preference f) (a :: b :: C)
              ltac:(discriminate)) as (k & -> & Hk & Hmin).
  cbn [default]. split; assumption.
Qed.

End DecisionRule.

Lemma nth_map_seq {A : Type} (g : nat -> A) (n p : nat) (d : A) :
  p < n -> nth p (map g (seq 0 n)) d = g p.
Proof.
  intros Hp. rewrite (nth_indep _ d (g 0)) by now rewrite length_map, length_seq.
  rewrite map_nth, seq_nth by exact Hp. reflexivity.
Qed.

Lemma nth_map_seq_overflow {A : Type} (g : nat -> A) (n p : nat) (d : A) :
  n <= p -> nth p (map g (seq 0 n)) d = d.
Proof. intros Hp. apply nth_overflow. now rewrite length_map, length_seq. Qed.

Section DecisionClaims.

Local Open Scope Qc_scope.

(** C1.  At a pixel inside the mask where more than one label attains the
    maximal weight (up to the tolerance), the decision is one of these
    labels, its weight is within the tolerance of every other weight, and no
    tied label has a lower preference value; with the default preference it
    is the numerically smallest tied label, with duplicate-free preferences
    it is the only one with that preference, and it is a class label, so
    never a value at or beyond the class count such as the default label for
    undecided pixels. *)
Theorem tie_goes_to_lowest_preference
    (tol : Qc) (f : Filter) (W : PosteriorStore) (p : nat) :
  InsideMask f p = true ->
  (1 < length (Candidates tol (PosteriorAt W p)))%nat ->
  let w := PosteriorAt W p in
  let k := DecidePixel tol f W p in
  k ∈ Candidates tol w
  /\ (forall j, (j < length w)%nat -> nth j w 0 - tol <= nth k w 0)
  /\ (forall j, j ∈ Candidates tol w -> (Preference f k <= Preference f j)%nat)
  /\ (m_HasPriorPreference f = false ->
      forall j, j ∈ Candidates tol w -> (k <= j)%nat)
  /\ ((forall i j, i ∈ Candidates tol w -> j ∈ Candidates tol w ->
                   Preference f i = Preference f j -> i = j) ->
      forall j, j ∈ Candidates tol w -> j <> k ->
                (Preference f k < Preference f j)%nat)
  /\ (forall u, (length w <= u)%nat -> k <> u).
Proof.
  intros Hin Htie w k.
  assert (Hk : k = DecideLabel tol f w)
    by (subst k w; unfold DecidePixel; now rewrite Hin).
  destruct (DecideLabel_tie tol f w Htie) as [Hmem Hmin].
  rewrite <- Hk in Hmem, Hmin.
  pose proof (proj1 (Candidates_spec tol w k) Hmem) as [Hlt Hmax].
  split; [exact Hmem |]. split.
  { intros j Hj. pose proof (MaximalWeight_upper w j Hj) as Hup.
    apply Qcle_minus_iff in Hmax. apply Qcle_minus_iff in Hup.
    apply Qcle_minus_iff.
    replace (nth k w 0 + - (nth j w 0 - tol))
      with ((tol + - (MaximalWeight w - nth k w 0))
            + (MaximalWeight w + - nth j w 0)) by ring.
    now apply Qcplus_nonneg_nonneg. }
  split; [exact Hmin |]. split.
  { intros Hnone j Hj. specialize (Hmin j Hj).
    unfold Preference in Hmin. now rewrite Hnone in Hmin. }
  split.
  { intros Hinj j Hj Hne. specialize (Hmin j Hj).
    destruct (decide (Preference f k = Preference f j)) as [Heq | Hneq];
      [| lia].
    exfalso. apply Hne. symmetry. now apply Hinj. }
  intros u Hu. lia.
Qed.

(** C5.  At a pixel outside the mask the output is the label of source 0,
    whatever the posterior store and the other sources hold; the pixel adds
    zero to every accumulated confusion-matrix entry, in every pass of the
    loop it receives no posterior, and changing the labels or weights at
    that pixel leaves every accumulated entry the same. *)
Theorem masked_pixel_copies_first_source
    (tol : Qc) (f : Filter) (p : nat) :
  InsideMask f p = false ->
  (forall W, DecidePixel tol f W p = Label f 0 p)
  /\ (forall W, (p < NumberOfPixels f)%nat ->
                nth p (DecisionStage tol f W) 0%nat = Label f 0 p)
  /\ (forall W s k j, Contribution f W s k j p = 0)
  /\ (forall pw n s k j,
        let h := AfterIterations pw n f in
        Contribution h (EStep pw h) s k j p = 0
        /\ ((p < NumberOfPixels f)%nat -> nth p (EStep pw h) None = None))
  /\ (forall g W V s k j,
        NumberOfPixels g = NumberOfPixels f ->
        (forall q, InsideMask g q = InsideMask f q) ->
        (forall q, q <> p -> Label g s q = Label f s q) ->
        (forall q, q <> p -> Weight V q k = Weight W q k) ->
        Accumulate g V s k j = Accumulate f W s k j).
Proof.
  intros Hout. split; [| split; [| split; [| split]]].
  - intros W. unfold DecidePixel. now rewrite Hout.
  - intros W Hp. unfold DecisionStage. rewrite nth_map_seq by exact Hp.
    unfold DecidePixel. now rewrite Hout.
  - intros W s k j. unfold Contribution. now rewrite Hout.
  - intros pw n s k j.
    pose proof (AfterIterations_constants pw n f) as Hc. cbv zeta.
    split.
    + unfold Contribution.
      now rewrite (constants_InsideMask _ _ Hc), Hout.
    + intros Hp. unfold EStep.
      rewrite (constants_pixels _ _ Hc), nth_map_seq by exact Hp.
      now rewrite (constants_InsideMask _ _ Hc), Hout.
  - intros g W V s k j HN Hmask Hlab Hw. unfold Accumulate. rewrite HN.
    f_equal. apply map_ext. intros q. unfold Contribution.
    rewrite Hmask. destruct (decide (q = p)) as [-> | Hq].
    + now rewrite Hout.
    + now rewrite Hlab, Hw.
Qed.

End DecisionClaims.

(** ** Termination of the loop *)

Section Termination.

Lemma first_true_or_none (P : nat -> bool) (m : nat) :
  (exists n, n <= m /\ P n = true /\ forall i, i < n -> P i = false)
  \/ (forall i, i <= m -> P i = false).
Proof.
  induction m as [| m [(n & Hn & HPn & Hleast) | Hnone]].
  - destruct (P 0) eqn:HP0.
    + left. exists 0. repeat split; [lia | exact HP0 | intros i Hi; lia].
    + right. intros i Hi. now replace i with 0 by lia.
  - left. exists n. repeat split; [lia | exact HPn | exact Hleast].
  - destruct (P (S m)) eqn:HPm.
    + left. exists (S m). repeat split; [lia | exact HPm |].
      intros i Hi. apply Hnone. lia.
    + right. intros i Hi. destruct (decide (i = S m)) as [-> | Hne];
        [exact HPm | apply Hnone; lia].
Qed.

Lemma first_true (P : nat -> bool) (m : nat) :
  P m = true ->
  exists n, n <= m /\ P n = true /\ forall i, i < n -> P i = false.
Proof.
  intros Hm. destruct (first_true_or_none P m) as [Hex | Hnone];
    [exact Hex |].
  rewrite Hnone in Hm by lia. discriminate.
Qed.

Lemma Prepare_loop_settings (impl : Implementation) (K : nat) (f : Filter) :
  m_HasMaximumNumberOfIterations (Prepare impl K f)
  = m_HasMaximumNumberOfIterations f
  /\ m_MaximumNumberOfIterations (Prepare impl K f)
     = m_MaximumNumberOfIterations f
  /\ m_TerminationUpdateThreshold (Prepare impl K f)
     = m_TerminationUpdateThreshold f
  /\ m_ElapsedIterations (Prepare impl K f) = 0.
Proof.
  destruct f as [nc hpp hot hmi hpa hnc hpf pp pa ot cm ucm ps pf mu ei mi
                 gps tut mk imv mt ins out].
  unfold Prepare; cbn. destruct (hpp || hpa); repeat split; reflexivity.
Qed.

Variable impl : Implementation.
Variables (K : nat) (f : Filter).

Local Abbreviation state n :=
  (AfterIterations (wpow impl) n (Prepare impl K f)).

Lemma state_elapsed (n : nat) : m_ElapsedIterations (state n) = n.
Proof.
  rewrite AfterIterations_elapsed.
  destruct (Prepare_loop_settings impl K f) as (_ & _ & _ & ->). lia.
Qed.

Lemma state_CapReached (n : nat) :
  CapReached (state n)
  = m_HasMaximumNumberOfIterations f
    && (m_MaximumNumberOfIterations f <=? n).
Proof.
  unfold CapReached. rewrite state_elapsed.
  destruct (constants_cap _ _ (AfterIterations_constants (wpow impl) n
                                 (Prepare impl K f))) as [-> ->].
  now destruct (Prepare_loop_settings impl K f) as (-> & -> & _).
Qed.

Local Abbreviation cap := (m_MaximumNumberOfIterations f).

Hypothesis Hd : DiscoverNumberOfClasses (InputPixelTypeMax impl) f = inr K.

Lemma GenerateData_invalid (fuel : nat) (e : ConfigurationError) :
  CheckConfiguration K f = Some e -> GenerateData impl fuel f = Failure e.
Proof. intros Hc. unfold GenerateData. now rewrite Hd, Hc. Qed.

Lemma GenerateData_unprepared (fuel : nat) :
  CheckConfiguration K f = None -> PrepareDefined impl K f = false ->
  GenerateData impl fuel f = DivisionByZero.
Proof. intros Hc Hp. unfold GenerateData. now rewrite Hd, Hc, Hp. Qed.

Hypothesis Hvalid : CheckConfiguration K f = None.
Hypothesis Hprepared : PrepareDefined impl K f = true.

Lemma GenerateData_loop (fuel : nat) :
  GenerateData impl fuel f
  = match EMLoop (wpow impl) fuel (Prepare impl K f) with
    | FuelSpent => OutOfFuel
    | ZeroDivisor => DivisionByZero
    | Stopped f' W => Success (Finish impl f' W)
    end.
Proof. unfold GenerateData. now rewrite Hd, Hvalid, Hprepared. Qed.

Lemma Finish_keeps (g : Filter) (W : PosteriorStore) :
  GetElapsedIterations (Finish impl g W) = m_ElapsedIterations g
  /\ m_ConfusionMatrixArray (Finish impl g W) = m_ConfusionMatrixArray g
  /\ GetOutput (Finish impl g W) = DecisionStage (tolerance impl) g W
  /\ GetNumberOfClasses (Finish impl g W) = m_NumberOfClasses g.
Proof. now destruct g. Qed.

Lemma GenerateData_Success (fuel : nat) (f' : Filter) :
  GenerateData impl fuel f = Success f' ->
  exists n, n < fuel
    /\ f' = Finish impl (state (S n)) (EStep (wpow impl) (state n))
    /\ StopCriterion (state (S n)) = true
    /\ (forall i, i < n -> StopCriterion (state (S i)) = false)
    /\ (forall i, i <= n -> PassDefined (wpow impl) (state i) = true).
Proof.
  rewrite GenerateData_loop.
  destruct (EMLoop _ _ _) as [g W | |] eqn:Hloop; try discriminate.
  intros [= <-]. apply EMLoop_Stopped in Hloop
    as (n & Hn & -> & -> & Hs & Hbefore & Hall).
  exists n. repeat split; assumption.
Qed.

Lemma loop_stops_at (fuel n : nat) :
  n < fuel ->
  StopCriterion (state (S n)) = true ->
  (forall i, i < n -> StopCriterion (state (S i)) = false) ->
  (forall i, i <= n -> PassDefined (wpow impl) (state i) = true) ->
  exists f', GenerateData impl fuel f = Success f'
             /\ GetElapsedIterations f' = S n
             /\ m_ConfusionMatrixArray f' = m_ConfusionMatrixArray (state (S n))
             /\ GetOutput f'
                = DecisionStage (tolerance impl) (state (S n))
                    (EStep (wpow impl) (state n)).
Proof.
  intros Hn Hstop Hbefore Hall. rewrite GenerateData_loop.
  rewrite (EMLoop_stops (wpow impl) n fuel _ Hn Hstop Hbefore Hall).
  eexists. split; [reflexivity |].
  destruct (Finish_keeps (state (S n)) (EStep (wpow impl) (state n)))
    as (-> & -> & -> & _).
  now rewrite state_elapsed.
Qed.

Lemma loop_divides_by_zero (fuel n : nat) :
  n < fuel ->
  (forall i, i < n -> StopCriterion (state (S i)) = false) ->
  (exists j, j <= n /\ PassDefined (wpow impl) (state j) = false) ->
  GenerateData impl fuel f = DivisionByZero.
Proof.
  intros Hn Hbefore (j & Hj & Hz). rewrite GenerateData_loop.
  destruct (first_true
              (fun i => negb (PassDefined (wpow impl) (state i))) j)
    as (m & Hm & Hzm & Hleast); [now rewrite Hz |]. cbv beta in *.
  apply negb_true_iff in Hzm.
  rewrite (EMLoop_divides_by_zero (wpow impl) m fuel); [reflexivity | lia | exact Hzm | |].
  - intros i Hi. apply Hbefore. lia.
  - intros i Hi. apply negb_false_iff. now apply Hleast.
Qed.

Lemma first_stop_unique (n m : nat) :
  StopCriterion (state (S n)) = true ->
  (forall i, i < n -> StopCriterion (state (S i)) = false) ->
  StopCriterion (state (S m)) = true ->
  (forall i, i < m -> StopCriterion (state (S i)) = false) ->
  n = m.
Proof.
  intros Hn Hbn Hm Hbm.
  destruct (Nat.lt_trichotomy n m) as [Hlt | [Heq | Hgt]]; [| exact Heq |].
  - rewrite (Hbm n Hlt) in Hn. discriminate.
  - rewrite (Hbn m Hgt) in Hm. discriminate.
Qed.

Lemma runs_within_the_cap (fuel : nat) :
  m_HasMaximumNumberOfIterations f = true ->
  1 <= cap -> cap <= fuel ->
  exists n,
    1 <= n <= cap
    /\ (forall i, 1 <= i < n -> Converged (state i) = false)
    /\ (Converged (state n) = true \/ n = cap)
    /\ ((forall i, 1 <= i <= cap -> Converged (state i) = false) -> n = cap)
    /\ ((forall i, i < n -> PassDefined (wpow impl) (state i) = true) ->
        exists f', GenerateData impl fuel f = Success f'
                   /\ GetElapsedIterations f' = n
                   /\ m_ConfusionMatrixArray f'
                      = m_ConfusionMatrixArray (state n))
    /\ ((exists j, j < n /\ PassDefined (wpow impl) (state j) = false) ->
        GenerateData impl fuel f = DivisionByZero)
    /\ (forall f', GenerateData impl fuel f = Success f' ->
                   GetElapsedIterations f' = n).
Proof.
  intros Hcap Hge1 Hfuel.
  assert (Hlast : StopCriterion (state (S (cap - 1))) = true).
  { unfold StopCriterion. rewrite state_CapReached, Hcap.
    replace (cap <=? S (cap - 1)) with true
      by (symmetry; apply Nat.leb_le; lia).
    apply orb_true_r. }
  destruct (first_true (fun i => StopCriterion (state (S i))) (cap - 1)
              Hlast) as (n & Hn & Hstop & Hleast).
  cbv beta in *.
  assert (Hconv : forall i, 1 <= i < cap ->
            StopCriterion (state i) = Converged (state i)).
  { intros i Hi. unfold StopCriterion. rewrite state_CapReached, Hcap.
    replace (cap <=? i) with false by (symmetry; apply Nat.leb_gt; lia).
    apply orb_false_r. }
  exists (S n). split; [lia |]. split; [| split; [| split; [| split; [| split]]]].
  - intros i Hi. rewrite <- Hconv by lia.
    destruct i as [| i]; [lia |]. apply Hleast. lia.
  - destruct (decide (S n = cap)) as [Heq | Hne]; [now right | left].
    rewrite <- Hconv by lia. exact Hstop.
  - intros Hnever. destruct (decide (S n = cap)) as [Heq | Hne];
      [exact Heq | exfalso].
    rewrite Hconv in Hstop by lia. rewrite Hnever in Hstop by lia.
    discriminate.
  - intros Hall.
    destruct (loop_stops_at fuel n ltac:(lia) Hstop Hleast)
      as (f' & Hrun & Hel & Hcm & _).
    { intros i Hi. apply Hall. lia. }
    exists f'. repeat split; assumption.
  - intros (j & Hj & Hz).
    apply (loop_divides_by_zero fuel n); [lia | exact Hleast |].
    exists j. split; [lia | exact Hz].
  - intros f' Hrun.
    apply GenerateData_Success in Hrun as (m & _ & -> & Hs & Hbefore & _).
    destruct (Finish_keeps (state (S m)) (EStep (wpow impl) (state m)))
      as (-> & _). rewrite state_elapsed. f_equal.
    now apply (first_stop_unique m n).
Qed.

Lemma runs_without_a_cap (fuel : nat) :
  m_HasMaximumNumberOfIterations f = false ->
  (forall n, 1 <= n <= fuel ->
     Converged (state n) = true ->
     (forall i, 1 <= i < n -> Converged (state i) = false) ->
     ((forall i, i < n -> PassDefined (wpow impl) (state i) = true) ->
      exists f', GenerateData impl fuel f = Success f'
                 /\ GetElapsedIterations f' = n
                 /\ m_ConfusionMatrixArray f'
                    = m_ConfusionMatrixArray (state n))
     /\ ((exists j, j < n /\ PassDefined (wpow impl) (state j) = false) ->
         GenerateData impl fuel f = DivisionByZero))
  /\ ((forall i, 1 <= i <= fuel -> Converged (state i) = false) ->
      ((forall i, i < fuel -> PassDefined (wpow impl) (state i) = true) ->
       GenerateData impl fuel f = OutOfFuel)
      /\ ((exists j, j < fuel
                     /\ PassDefined (wpow impl) (state j) = false) ->
          GenerateData impl fuel f = DivisionByZero)).
Proof.
  intros Hnocap.
  assert (Hstop : forall i, StopCriterion (state i) = Converged (state i)).
  { intros i. unfold StopCriterion. rewrite state_CapReached, Hnocap.
    apply orb_false_r. }
  split.
  - intros n Hn Hconv Hbefore. destruct n as [| n]; [lia |]. split.
    + intros Hall.
      destruct (loop_stops_at fuel n ltac:(lia)) as (f' & ? & ? & ? & _).
      * now rewrite Hstop.
      * intros i Hi. rewrite Hstop. apply Hbefore. lia.
      * intros i Hi. apply Hall. lia.
      * exists f'. repeat split; assumption.
    + intros (j & Hj & Hz).
      apply (loop_divides_by_zero fuel n); [lia | |].
      * intros i Hi. rewrite Hstop. apply Hbefore. lia.
      * exists j. split; [lia | exact Hz].
  - intros Hnever. split.
    + intros Hall. rewrite GenerateData_loop.
      rewrite (EMLoop_spends_fuel (wpow impl) fuel); [reflexivity | | exact Hall].
      intros i Hi. rewrite Hstop. apply Hnever. lia.
    + intros (j & Hj & Hz).
      apply (loop_divides_by_zero fuel j); [exact Hj | |].
      * intros i Hi. rewrite Hstop. apply Hnever. lia.
      * exists j. split; [lia | exact Hz].
Qed.

End Termination.


(** ** Rows after the M-step *)

Section MStepRows.

Local Open Scope Qc_scope.

Lemma MStep_row (f : Filter) (W : PosteriorStore) (s k : nat) :
  (s < NumberOfInputs f)%nat -> (k < m_NumberOfClasses f)%nat ->
  row (nth s (MStep f W) []) k
  = normalize (map (Accumulate f W s k) (seq 0 (m_NumberOfClasses f))).
Proof.
  intros Hs Hk. unfold MStep, row. rewrite nth_map_seq by exact Hs.
  unfold MStepMatrix. now rewrite nth_map_seq by exact Hk.
Qed.

Lemma MStep_row_sum (f : Filter) (W : PosteriorStore) (s k : nat) :
  (s < NumberOfInputs f)%nat -> (k < m_NumberOfClasses f)%nat ->
  sumQc (row (nth s (MStep f W) []) k)
  = if decide (RowMass f W s k = 0) then 0 else 1.
Proof.
  intros Hs Hk. rewrite MStep_row by assumption. fold (RowMass f W s k).
  unfold RowMass. destruct (decide _) as [Hz | Hnz].
  - now apply normalize_zero_mass.
  - now apply normalize_sum.
Qed.

Lemma EMIteration_matrices (pw : Qc -> Qc -> Qc) (f : Filter) :
  m_ConfusionMatrixArray (EMIteration pw f).1 = MStep f (EStep pw f)
  /\ m_UpdatedConfusionMatrixArray (EMIteration pw f).1
     = MStep f (EStep pw f).
Proof. destruct f; split; reflexivity. Qed.

(** A source that never reports label [j] inside the mask gets a zero
    column [j], whatever the posterior and the previous matrices. *)
Lemma MStep_unreported_column
    (f : Filter) (W : PosteriorStore) (s k j : nat) :
  (s < NumberOfInputs f)%nat -> (k < m_NumberOfClasses f)%nat ->
  (j < m_NumberOfClasses f)%nat ->
  (forall p, (p < NumberOfPixels f)%nat -> InsideMask f p = true ->
             Label f s p <> j) ->
  entry (nth s (MStep f W) []) k j = 0.
Proof.
  intros Hs Hk Hj Hnever.
  change (entry (nth s (MStep f W) []) k j)
    with (nth j (row (nth s (MStep f W) []) k) 0).
  rewrite MStep_row, nth_normalize, nth_map_seq by assumption.
  replace (Accumulate f W s k j) with 0;
    [unfold Qcdiv; apply Qcmult_0_l |].
  symmetry. unfold Accumulate.
  assert (Hzero : forall L, (forall p, p ∈ L -> (p < NumberOfPixels f)%nat) ->
                    sumQc (map (Contribution f W s k j) L) = 0).
  { induction L as [| p L IH]; intros HL; [reflexivity |].
    cbn [map]. rewrite sumQc_cons, IH
      by (intros q Hq; apply HL; now right).
    rewrite Qcplus_0_r. unfold Contribution.
    destruct (InsideMask f p) eqn:Hin; [| reflexivity].
    destruct (Label f s p =? j)%nat eqn:E; [| reflexivity].
    apply Nat.eqb_eq in E. exfalso.
    apply (Hnever p); [apply HL; left | exact Hin | exact E]. }
  apply Hzero. intros p Hp. apply elem_of_seq in Hp. lia.
Qed.

End MStepRows.

(** ** Agreeing sources: one pass *)

Section Sums.

Local Open Scope Qc_scope.

Lemma sumQc_map_zero {A : Type} (g : A -> Qc) (L : list A) :
  (forall x, x ∈ L -> g x = 0) -> sumQc (map g L) = 0.
Proof.
  induction L as [| a L IH]; intros Hz; [reflexivity |].
  cbn [map]. rewrite sumQc_cons, (Hz a) by left.
  rewrite IH; [apply Qcplus_0_l |]. intros x Hx. apply Hz. now right.
Qed.

Lemma sumQc_map_single (g : nat -> Qc) (L : list nat) (l : nat) :
  NoDup L -> l ∈ L ->
  (forall x, x ∈ L -> x <> l -> g x = 0) ->
  sumQc (map g L) = g l.
Proof.
  induction L as [| a L IH]; intros Hnd Hl Hz; [inversion Hl |].
  apply NoDup_cons in Hnd as [Ha Hnd]. cbn [map]. rewrite sumQc_cons.
  apply elem_of_cons in Hl as [<- | Hl].
  - rewrite sumQc_map_zero; [apply Qcplus_0_r |].
    intros x Hx. apply Hz; [now right |]. intros ->. contradiction.
  - rewrite (Hz a); [| left | intros ->; contradiction].
    rewrite IH; [apply Qcplus_0_l | assumption | assumption |].
    intros x Hx. apply Hz. now right.
Qed.

Lemma sumQc_seq_single (g : nat -> Qc) (K l : nat) :
  (l < K)%nat ->
  (forall k, (k < K)%nat -> k <> l -> g k = 0) ->
  sumQc (map g (seq 0 K)) = g l.
Proof.
  intros Hl Hz. apply sumQc_map_single.
  - apply NoDup_seq.
  - apply elem_of_seq. lia.
  - intros x Hx. apply elem_of_seq in Hx. apply Hz. lia.
Qed.

Lemma prodQc_cons (x : Qc) (v : list Qc) : prodQc (x :: v) = x * prodQc v.
Proof. reflexivity. Qed.

Lemma prodQc_zero (v : list Qc) : 0 ∈ v -> prodQc v = 0.
Proof.
  induction v as [| x v IH]; intros H0; [inversion H0 |].
  rewrite prodQc_cons. apply elem_of_cons in H0 as [<- | H0].
  - apply Qcmult_0_l.
  - rewrite IH by assumption. apply Qcmult_0_r.
Qed.

Lemma prodQc_nonzero (v : list Qc) :
  (forall x, x ∈ v -> x <> 0) -> prodQc v <> 0.
Proof.
  induction v as [| x v IH]; intros Hnz.
  - cbn. discriminate.
  - rewrite prodQc_cons. intros Hz.
    apply Qcmult_integral in Hz as [Hz | Hz].
    + now apply (Hnz x); [left |].
    + apply IH; [| exact Hz]. intros y Hy. apply Hnz. now right.
Qed.

Lemma Qcdiv_self (x : Qc) : x <> 0 -> x / x = 1.
Proof. intros Hx. unfold Qcdiv. now apply Qcmult_inv_r. Qed.

Lemma Qcdiv_0_l (x : Qc) : 0 / x = 0.
Proof. unfold Qcdiv. apply Qcmult_0_l. Qed.

Lemma nth_OneHot (K l k : nat) :
  nth k (OneHot K l) 0 = if bool_decide (k = l /\ (k < K)%nat) then 1 else 0.
Proof.
  unfold OneHot. destruct (decide (k < K)%nat) as [Hk | Hk].
  - rewrite nth_map_seq by exact Hk.
    destruct (k =? l)%nat eqn:E.
    + apply Nat.eqb_eq in E. now rewrite bool_decide_eq_true_2.
    + apply Nat.eqb_neq in E. rewrite bool_decide_eq_false_2; [reflexivity |].
      intros [? _]. contradiction.
  - rewrite nth_map_seq_overflow by lia.
    rewrite bool_decide_eq_false_2; [reflexivity |]. intros [_ ?]. lia.
Qed.

(** A vector with a single non-zero entry normalises to a unit vector. *)
Lemma normalize_single (g : nat -> Qc) (K l : nat) :
  (l < K)%nat -> g l <> 0 ->
  (forall k, (k < K)%nat -> k <> l -> g k = 0) ->
  normalize (map g (seq 0 K)) = OneHot K l.
Proof.
  intros Hl Hnz Hz. unfold normalize, OneHot.
  rewrite (sumQc_seq_single g K l Hl Hz), map_map.
  apply map_ext_in. intros k Hk. apply in_seq in Hk.
  destruct (k =? l)%nat eqn:E.
  - apply Nat.eqb_eq in E. subst k. now apply Qcdiv_self.
  - apply Nat.eqb_neq in E. rewrite Hz by (auto; lia). apply Qcdiv_0_l.
Qed.

(** A vector of zeros normalises to zeros. *)
Lemma normalize_zeros (g : nat -> Qc) (K : nat) :
  (forall k, (k < K)%nat -> g k = 0) ->
  forall j, nth j (normalize (map g (seq 0 K))) 0 = 0.
Proof.
  intros Hz j. rewrite nth_normalize.
  destruct (decide (j < K)%nat) as [Hj | Hj].
  - rewrite nth_map_seq by exact Hj. rewrite Hz by exact Hj. apply Qcdiv_0_l.
  - rewrite nth_map_seq_overflow by lia. apply Qcdiv_0_l.
Qed.

End Sums.

Section AgreementFacts.

Local Open Scope Qc_scope.

Lemma SourcesAgree_spec (h : Filter) :
  SourcesAgree h = true ->
  forall s p, (s < NumberOfInputs h)%nat -> (p < NumberOfPixels h)%nat ->
              Label h s p = Label h 0 p.
Proof.
  unfold SourcesAgree. rewrite forallb_forall. intros H s p Hs Hp.
  specialize (H s ltac:(apply in_seq; lia)). rewrite forallb_forall in H.
  specialize (H p ltac:(apply in_seq; lia)). now apply Nat.eqb_eq.
Qed.

Lemma LabelsInRange_spec (h : Filter) :
  LabelsInRange h = true ->
  forall p, (p < NumberOfPixels h)%nat ->
            (Label h 0 p < m_NumberOfClasses h)%nat.
Proof.
  unfold LabelsInRange. rewrite forallb_forall. intros H p Hp.
  specialize (H p ltac:(apply in_seq; lia)). now apply Nat.ltb_lt.
Qed.

Lemma PriorsNonZero_spec (h : Filter) :
  PriorsNonZero h = true ->
  forall p, (p < NumberOfPixels h)%nat -> InsideMask h p = true ->
            Prior h (Label h 0 p) p <> 0.
Proof.
  unfold PriorsNonZero. rewrite forallb_forall. intros H p Hp Hin.
  specialize (H p ltac:(apply in_seq; lia)). rewrite Hin in H. cbn in H.
  apply negb_true_iff, bool_decide_eq_false in H. exact H.
Qed.

Lemma DiagonalOnOccurring_spec (h : Filter) :
  DiagonalOnOccurring h = true <->
  forall s p k,
    (s < NumberOfInputs h)%nat -> (p < NumberOfPixels h)%nat ->
    InsideMask h p = true -> (k < m_NumberOfClasses h)%nat ->
    (k = Label h 0 p ->
     entry (nth s (m_ConfusionMatrixArray h) []) k (Label h 0 p) <> 0)
    /\ (k <> Label h 0 p ->
        entry (nth s (m_ConfusionMatrixArray h) []) k (Label h 0 p) = 0).
Proof.
  unfold DiagonalOnOccurring. rewrite forallb_forall. split.
  - intros H s p k Hs Hp Hin Hk.
    specialize (H s ltac:(apply in_seq; lia)). rewrite forallb_forall in H.
    specialize (H p ltac:(apply in_seq; lia)). rewrite Hin in H. cbn in H.
    rewrite forallb_forall in H.
    specialize (H k ltac:(apply in_seq; lia)). cbv zeta in H.
    destruct (k =? Label h 0 p)%nat eqn:E.
    + apply Nat.eqb_eq in E. split; [intros _ | intros Hne; contradiction].
      now apply negb_true_iff, bool_decide_eq_false in H.
    + apply Nat.eqb_neq in E. split; [intros Heq; contradiction | intros _].
      now apply bool_decide_eq_true in H.
  - intros H s Hs. apply in_seq in Hs. apply forallb_forall. intros p Hp.
    apply in_seq in Hp. destruct (InsideMask h p) eqn:Hin; [| reflexivity].
    cbn. apply forallb_forall. intros k Hk. apply in_seq in Hk. cbv zeta.
    destruct (H s p k ltac:(lia) ltac:(lia) Hin ltac:(lia)) as [Hd Ho].
    destruct (k =? Label h 0 p)%nat eqn:E.
    + apply Nat.eqb_eq in E. apply negb_true_iff, bool_decide_eq_false.
      now apply Hd.
    + apply Nat.eqb_neq in E. apply bool_decide_eq_true. now apply Ho.
Qed.

Lemma Occurs_existsb (h : Filter) (k : nat) :
  Occurs h k
  <-> existsb (fun p => InsideMask h p && (Label h 0 p =? k)%nat)
              (seq 0 (NumberOfPixels h)) = true.
Proof.
  rewrite existsb_exists. unfold Occurs. split.
  - intros (p & Hp & Hin & Hl). exists p. split; [apply in_seq; lia |].
    rewrite Hin. cbn. now apply Nat.eqb_eq.
  - intros (p & Hp & Hboth). apply in_seq in Hp.
    apply andb_true_iff in Hboth as [Hin Hl]. apply Nat.eqb_eq in Hl.
    exists p. repeat split; [lia | exact Hin | exact Hl].
Qed.

End AgreementFacts.

Section AgreementStep.

Local Open Scope Qc_scope.

Variable pw : Qc -> Qc -> Qc.
Hypothesis pw_zero : forall x t, 0 < t -> (pw x t = 0 <-> x = 0).

Variable h : Filter.
Hypothesis Htrust : TrustsPositive h = true.
Hypothesis Hsources : (0 < NumberOfInputs h)%nat.
Hypothesis Hagree : SourcesAgree h = true.
Hypothesis Hrange : LabelsInRange h = true.
Hypothesis Hpriors : PriorsNonZero h = true.
Hypothesis Hdiag : DiagonalOnOccurring h = true.

Lemma Trusted_zero_iff (s : nat) (x : Qc) :
  (s < NumberOfInputs h)%nat -> Trusted pw h s x = 0 <-> x = 0.
Proof.
  intros Hs. unfold Trusted. unfold TrustsPositive in Htrust.
  destruct (m_HasObserverTrust h); [| tauto]. cbn in Htrust.
  rewrite forallb_forall in Htrust.
  specialize (Htrust s ltac:(apply in_seq; lia)).
  apply bool_decide_eq_true in Htrust. now apply pw_zero.
Qed.

Lemma EStep_pixel_onehot (p : nat) :
  (p < NumberOfPixels h)%nat -> InsideMask h p = true ->
  normalize (UnnormalizedPosterior pw h p)
  = OneHot (m_NumberOfClasses h) (Label h 0 p).
Proof.
  intros Hp Hin. unfold UnnormalizedPosterior.
  pose proof (LabelsInRange_spec h Hrange p Hp) as Hl.
  pose proof (proj1 (DiagonalOnOccurring_spec h) Hdiag) as Hd.
  apply normalize_single; [exact Hl | |].
  - intros Hz. apply Qcmult_integral in Hz as [Hz | Hz].
    + now apply (PriorsNonZero_spec h Hpriors p Hp Hin).
    + revert Hz. apply prodQc_nonzero. intros x Hx.
      apply list_elem_of_fmap in Hx as (s & -> & Hs).
      apply elem_of_seq in Hs. rewrite Trusted_zero_iff by lia.
      rewrite (SourcesAgree_spec h Hagree s p) by lia.
      now apply (Hd s p (Label h 0 p)); [lia | | | |].
  - intros k Hk Hne.
    replace (Likelihood pw h p k) with 0; [apply Qcmult_0_r |].
    symmetry. apply prodQc_zero. apply list_elem_of_fmap.
    exists 0%nat. split; [| apply elem_of_seq; lia].
    symmetry. apply Trusted_zero_iff; [exact Hsources |].
    now apply (Hd 0%nat p k); [lia | | | |].
Qed.

Lemma EStep_lookup (p : nat) :
  (p < NumberOfPixels h)%nat ->
  nth p (EStep pw h) None
  = if InsideMask h p
    then Some (OneHot (m_NumberOfClasses h) (Label h 0 p))
    else None.
Proof.
  intros Hp. unfold EStep. rewrite nth_map_seq by exact Hp.
  destruct (InsideMask h p) eqn:Hin; [| reflexivity].
  now rewrite EStep_pixel_onehot.
Qed.

Lemma Contribution_agree (s k j p : nat) :
  (s < NumberOfInputs h)%nat -> (p < NumberOfPixels h)%nat ->
  (k < m_NumberOfClasses h)%nat ->
  Contribution h (EStep pw h) s k j p
  = if InsideMask h p && (Label h 0 p =? j)%nat && (Label h 0 p =? k)%nat
    then 1 else 0.
Proof.
  intros Hs Hp Hk. unfold Contribution, Weight.
  rewrite (SourcesAgree_spec h Hagree s p Hs Hp), EStep_lookup by exact Hp.
  destruct (InsideMask h p); [| reflexivity]. cbn [andb].
  destruct (Label h 0 p =? j)%nat; [| reflexivity]. cbn [andb].
  rewrite nth_OneHot.
  destruct (Label h 0 p =? k)%nat eqn:E.
  - apply Nat.eqb_eq in E. now rewrite bool_decide_eq_true_2.
  - apply Nat.eqb_neq in E. rewrite bool_decide_eq_false_2; [reflexivity |].
    intros [? _]. congruence.
Qed.

Lemma Accumulate_off_diagonal (s k j : nat) :
  (s < NumberOfInputs h)%nat -> (k < m_NumberOfClasses h)%nat ->
  k <> j -> Accumulate h (EStep pw h) s k j = 0.
Proof.
  intros Hs Hk Hne. unfold Accumulate. apply sumQc_map_zero.
  intros p Hp. apply elem_of_seq in Hp.
  rewrite Contribution_agree by (assumption || lia).
  destruct (InsideMask h p); [| reflexivity]. cbn [andb].
  destruct (Label h 0 p =? j)%nat eqn:Ej; [| reflexivity].
  destruct (Label h 0 p =? k)%nat eqn:Ek; [| reflexivity].
  apply Nat.eqb_eq in Ej, Ek. congruence.
Qed.

Lemma Accumulate_diagonal_occurs (s k : nat) :
  (s < NumberOfInputs h)%nat -> (k < m_NumberOfClasses h)%nat ->
  Occurs h k -> 0 < Accumulate h (EStep pw h) s k k.
Proof.
  intros Hs Hk (p & Hp & Hin & Hlab). unfold Accumulate. apply sumQc_pos.
  - intros x Hx. apply list_elem_of_fmap in Hx as (q & -> & Hq).
    apply elem_of_seq in Hq.
    rewrite Contribution_agree by (assumption || lia).
    now destruct (_ && _ && _).
  - exists 1. split; [| reflexivity].
    apply list_elem_of_fmap. exists p. split; [| apply elem_of_seq; lia].
    rewrite Contribution_agree by assumption.
    now rewrite Hin, Hlab, Nat.eqb_refl.
Qed.

Lemma Accumulate_diagonal_absent (s k : nat) :
  (s < NumberOfInputs h)%nat -> (k < m_NumberOfClasses h)%nat ->
  ~ Occurs h k -> Accumulate h (EStep pw h) s k k = 0.
Proof.
  intros Hs Hk Hno. unfold Accumulate. apply sumQc_map_zero.
  intros p Hp. apply elem_of_seq in Hp.
  rewrite Contribution_agree by (assumption || lia).
  destruct (InsideMask h p) eqn:Hin; [| reflexivity]. cbn [andb].
  destruct (Label h 0 p =? k)%nat eqn:Ek; [| reflexivity].
  apply Nat.eqb_eq in Ek. exfalso. apply Hno. exists p.
  repeat split; [lia | exact Hin | exact Ek].
Qed.

(** The re-estimated matrices: identity rows for the labels that occur,
    zero rows for the others. *)
Lemma MStep_agree_entry (s k j : nat) :
  (s < NumberOfInputs h)%nat -> (k < m_NumberOfClasses h)%nat ->
  (j < m_NumberOfClasses h)%nat ->
  (Occurs h k ->
   entry (nth s (MStep h (EStep pw h)) []) k j
   = if (k =? j)%nat then 1 else 0)
  /\ (~ Occurs h k -> entry (nth s (MStep h (EStep pw h)) []) k j = 0).
Proof.
  intros Hs Hk Hj.
  change (entry (nth s (MStep h (EStep pw h)) []) k j)
    with (nth j (row (nth s (MStep h (EStep pw h)) []) k) 0).
  rewrite MStep_row by assumption. split.
  - intros Hocc.
    pose proof (Accumulate_diagonal_occurs s k Hs Hk Hocc) as Hpos.
    rewrite (normalize_single _ _ k Hk).
    + rewrite nth_OneHot. destruct (k =? j)%nat eqn:E.
      * apply Nat.eqb_eq in E. now rewrite bool_decide_eq_true_2.
      * apply Nat.eqb_neq in E.
        rewrite bool_decide_eq_false_2; [reflexivity |].
        intros [? _]. congruence.
    + intros Hz. rewrite Hz in Hpos. now apply Qclt_not_eq in Hpos.
    + intros i Hi Hne. apply Accumulate_off_diagonal; auto.
  - intros Hno. apply normalize_zeros. intros i Hi.
    destruct (decide (k = i)) as [<- | Hne].
    + now apply Accumulate_diagonal_absent.
    + now apply Accumulate_off_diagonal.
Qed.

(** With agreeing sources and diagonal columns, the normaliser of the
    E-step is the term of the common label, which is not zero. *)
Lemma Normaliser_agree (p : nat) :
  (p < NumberOfPixels h)%nat -> InsideMask h p = true ->
  Normaliser pw h p <> 0.
Proof.
  intros Hp Hin. unfold Normaliser, UnnormalizedPosterior.
  pose proof (LabelsInRange_spec h Hrange p Hp) as Hl.
  pose proof (proj1 (DiagonalOnOccurring_spec h) Hdiag) as Hd.
  rewrite (sumQc_seq_single _ _ (Label h 0 p) Hl).
  - intros Hz. apply Qcmult_integral in Hz as [Hz | Hz].
    + now apply (PriorsNonZero_spec h Hpriors p Hp Hin).
    + revert Hz. apply prodQc_nonzero. intros x Hx.
      apply list_elem_of_fmap in Hx as (s & -> & Hs).
      apply elem_of_seq in Hs. rewrite Trusted_zero_iff by lia.
      rewrite (SourcesAgree_spec h Hagree s p) by lia.
      now apply (Hd s p (Label h 0 p)); [lia | | | |].
  - intros k Hk Hne.
    replace (Likelihood pw h p k) with 0; [apply Qcmult_0_r |].
    symmetry. apply prodQc_zero. apply list_elem_of_fmap.
    exists 0%nat. split; [| apply elem_of_seq; lia].
    symmetry. apply Trusted_zero_iff; [exact Hsources |].
    now apply (Hd 0%nat p k); [lia | | | |].
Qed.

Lemma EStepDefined_agree : EStepDefined pw h = true.
Proof.
  unfold EStepDefined. apply forallb_forall. intros p Hp.
  apply in_seq in Hp. destruct (InsideMask h p) eqn:Hin; [| reflexivity].
  cbn. apply negb_true_iff, bool_decide_eq_false.
  apply Normaliser_agree; [lia | exact Hin].
Qed.

(** The mass of a row is its diagonal accumulation. *)
Lemma RowMass_agree (s k : nat) :
  (s < NumberOfInputs h)%nat -> (k < m_NumberOfClasses h)%nat ->
  RowMass h (EStep pw h) s k = Accumulate h (EStep pw h) s k k.
Proof.
  intros Hs Hk. unfold RowMass. apply sumQc_seq_single; [exact Hk |].
  intros j Hj Hne. apply Accumulate_off_diagonal; auto.
Qed.

(** The M-step is defined exactly when every class label occurs inside
    the mask. *)
Lemma MStepDefined_agree :
  MStepDefined h (EStep pw h) = true
  <-> forall k, (k < m_NumberOfClasses h)%nat -> Occurs h k.
Proof.
  unfold MStepDefined. rewrite forallb_forall. split.
  - intros Hall k Hk.
    specialize (Hall 0%nat ltac:(apply in_seq; lia)).
    rewrite forallb_forall in Hall.
    specialize (Hall k ltac:(apply in_seq; lia)).
    apply negb_true_iff, bool_decide_eq_false in Hall.
    rewrite RowMass_agree in Hall by assumption.
    destruct (existsb (fun p => InsideMask h p && (Label h 0 p =? k)%nat)
                      (seq 0 (NumberOfPixels h))) eqn:Hex.
    + now apply (Occurs_existsb h).
    + exfalso. apply Hall. apply Accumulate_diagonal_absent; auto.
      intros Hocc. apply (Occurs_existsb h) in Hocc. congruence.
  - intros Hocc s Hs. apply in_seq in Hs. apply forallb_forall.
    intros k Hk. apply in_seq in Hk.
    apply negb_true_iff, bool_decide_eq_false.
    rewrite RowMass_agree by lia.
    pose proof (Accumulate_diagonal_occurs s k ltac:(lia) ltac:(lia)
                  (Hocc k ltac:(lia))) as Hpos.
    intros Hz. rewrite Hz in Hpos. now apply Qclt_not_eq in Hpos.
Qed.

End AgreementStep.

(** ** Agreeing sources: the invariant of the run *)

Lemma constants_SourcesAgree :
  forall f g, RunConstants f = RunConstants g ->
              SourcesAgree f = SourcesAgree g.
Proof. by_constants. Qed.

Lemma constants_LabelsInRange :
  forall f g, RunConstants f = RunConstants g ->
              LabelsInRange f = LabelsInRange g.
Proof. by_constants. Qed.

Lemma constants_PriorsNonZero :
  forall f g, RunConstants f = RunConstants g ->
              PriorsNonZero f = PriorsNonZero g.
Proof. by_constants. Qed.

Lemma constants_TrustsPositive :
  forall f g, RunConstants f = RunConstants g ->
              TrustsPositive f = TrustsPositive g.
Proof. by_constants. Qed.

Lemma constants_Occurs :
  forall f g, RunConstants f = RunConstants g ->
              forall k, Occurs f k <-> Occurs g k.
Proof.
  intros f g H k. destruct f, g. unfold RunConstants, settings in H.
  cbn in H. simplify_eq. reflexivity.
Qed.

Lemma constants_MStep :
  forall f g, RunConstants f = RunConstants g ->
              forall W, MStep f W = MStep g W.
Proof. by_constants. Qed.

Section DecisionOnUnitVectors.

Local Open Scope Qc_scope.

Lemma Qc_max_lub (a b c : Qc) : a <= c -> b <= c -> Qc_max a b <= c.
Proof. intros Ha Hb. unfold Qc_max. now destruct (decide (a < b)). Qed.

Lemma MaximalWeight_le_bound (w : list Qc) (b : Qc) :
  w <> [] -> (forall x, x ∈ w -> x <= b) -> MaximalWeight w <= b.
Proof.
  destruct w as [| x v]; [congruence |]. intros _ Hb. cbn [MaximalWeight].
  assert (Hx : x <= b) by (apply Hb; left).
  assert (Hv : forall y, y ∈ v -> y <= b) by (intros y Hy; apply Hb; now right).
  clear Hb. induction v as [| y v IH]; cbn [foldr]; [exact Hx |].
  apply Qc_max_lub; [apply Hv; left |].
  apply IH. intros z Hz. apply Hv. now right.
Qed.

Lemma DecideLabel_in_Candidates (tol : Qc) (f : Filter) (w : list Qc) :
  Candidates tol w <> [] -> DecideLabel tol f w ∈ Candidates tol w.
Proof.
  intros Hne. unfold DecideLabel.
  destruct (Candidates tol w) as [| a [| b C]] eqn:HC; [congruence | left |].
  destruct (LowestPreference_spec (Preference f) (a :: b :: C)
              ltac:(discriminate)) as (k & -> & Hk & _).
  exact Hk.
Qed.

Lemma OneHot_entries_le_1 (K l : nat) (x : Qc) : x ∈ OneHot K l -> x <= 1.
Proof.
  unfold OneHot. intros Hx. apply list_elem_of_fmap in Hx as (k & -> & _).
  now destruct (k =? l)%nat.
Qed.

Lemma length_OneHot (K l : nat) : length (OneHot K l) = K.
Proof. unfold OneHot. now rewrite length_map, length_seq. Qed.

Lemma DecideLabel_OneHot (tol : Qc) (f : Filter) (K l : nat) :
  (l < K)%nat -> 0 <= tol -> tol < 1 ->
  DecideLabel tol f (OneHot K l) = l.
Proof.
  intros Hl Htol0 Htol1.
  assert (Hwl : nth l (OneHot K l) 0 = 1)
    by (rewrite nth_OneHot; now rewrite bool_decide_eq_true_2).
  assert (Hmax : MaximalWeight (OneHot K l) = 1).
  { apply Qcle_antisym.
    - apply MaximalWeight_le_bound; [| apply OneHot_entries_le_1].
      intros Hnil. apply (f_equal length) in Hnil.
      rewrite length_OneHot in Hnil. cbn in Hnil. lia.
    - rewrite <- Hwl. apply MaximalWeight_upper. now rewrite length_OneHot. }
  assert (Hin : l ∈ Candidates tol (OneHot K l)).
  { apply Candidates_spec. rewrite length_OneHot, Hmax, Hwl.
    split; [exact Hl |]. now replace (1 - 1) with 0 by ring. }
  assert (Hne : Candidates tol (OneHot K l) <> [])
    by (intros Hnil; rewrite Hnil in Hin; inversion Hin).
  pose proof (DecideLabel_in_Candidates tol f _ Hne) as Hk.
  apply Candidates_spec in Hk as [Hk Hclose].
  destruct (decide (DecideLabel tol f (OneHot K l) = l)) as [Heq | Hneq];
    [exact Heq | exfalso].
  rewrite Hmax, nth_OneHot in Hclose.
  rewrite bool_decide_eq_false_2 in Hclose by (intros [? _]; contradiction).
  replace (1 - 0) with 1 in Hclose by ring.
  now apply Qcle_not_lt in Hclose.
Qed.

End DecisionOnUnitVectors.

Section AgreementInvariant.

Local Open Scope Qc_scope.

Variable pw : Qc -> Qc -> Qc.
Hypothesis pw_zero : forall x t, 0 < t -> (pw x t = 0 <-> x = 0).

Lemma MStep_agree_off_diagonal (h : Filter) (s k j : nat) :
  TrustsPositive h = true ->
  SourcesAgree h = true -> LabelsInRange h = true ->
  PriorsNonZero h = true -> DiagonalOnOccurring h = true ->
  (0 < NumberOfInputs h)%nat ->
  (s < NumberOfInputs h)%nat -> (k < m_NumberOfClasses h)%nat ->
  (j < m_NumberOfClasses h)%nat -> k <> j ->
  entry (nth s (MStep h (EStep pw h)) []) k j = 0.
Proof.
  intros Ht Ha Hr Hp Hd HS Hs Hk Hj Hne.
  change (entry (nth s (MStep h (EStep pw h)) []) k j)
    with (nth j (row (nth s (MStep h (EStep pw h)) []) k) 0).
  rewrite MStep_row, nth_normalize, nth_map_seq by assumption.
  rewrite (Accumulate_off_diagonal pw pw_zero h Ht HS Ha Hr Hp Hd) by assumption.
  apply Qcdiv_0_l.
Qed.

Lemma DiagonalOnOccurring_step (h : Filter) :
  TrustsPositive h = true ->
  SourcesAgree h = true -> LabelsInRange h = true ->
  PriorsNonZero h = true -> DiagonalOnOccurring h = true ->
  (0 < NumberOfInputs h)%nat ->
  DiagonalOnOccurring (EMIteration pw h).1 = true.
Proof.
  intros Ht Ha Hr Hp Hd HS.
  pose proof (EMIteration_constants pw h) as Hc.
  apply DiagonalOnOccurring_spec. intros s p k.
  rewrite (constants_inputs_number _ _ Hc), (constants_pixels _ _ Hc),
    (constants_InsideMask _ _ Hc), (constants_classes _ _ Hc),
    (constants_Label _ _ Hc).
  destruct (EMIteration_matrices pw h) as [-> _].
  intros Hs Hpx Hin Hk.
  pose proof (LabelsInRange_spec h Hr p Hpx) as Hl.
  split.
  - intros ->.
    destruct (MStep_agree_entry pw pw_zero h Ht HS Ha Hr Hp Hd s
                (Label h 0 p) (Label h 0 p) Hs Hl Hl) as [Hocc _].
    rewrite Hocc.
    + rewrite Nat.eqb_refl. discriminate.
    + exists p. repeat split; assumption.
  - intros Hne. now apply MStep_agree_off_diagonal.
Qed.

Variable f0 : Filter.
Hypothesis Htrust : TrustsPositive f0 = true.
Hypothesis Hsources : (0 < NumberOfInputs f0)%nat.
Hypothesis Hagree : SourcesAgree f0 = true.
Hypothesis Hrange : LabelsInRange f0 = true.
Hypothesis Hpriors : PriorsNonZero f0 = true.
Hypothesis Hdiag : DiagonalOnOccurring f0 = true.

Local Abbreviation state n := (AfterIterations pw n f0).

Lemma state_agreement (n : nat) :
  TrustsPositive (state n) = true
  /\ (0 < NumberOfInputs (state n))%nat
  /\ SourcesAgree (state n) = true
  /\ LabelsInRange (state n) = true
  /\ PriorsNonZero (state n) = true.
Proof.
  pose proof (AfterIterations_constants pw n f0) as Hc.
  rewrite (constants_TrustsPositive _ _ Hc),
    (constants_inputs_number _ _ Hc), (constants_SourcesAgree _ _ Hc),
    (constants_LabelsInRange _ _ Hc), (constants_PriorsNonZero _ _ Hc).
  auto.
Qed.

Lemma state_diagonal (n : nat) : DiagonalOnOccurring (state n) = true.
Proof.
  induction n as [| n IH]; [exact Hdiag |].
  rewrite AfterIterations_S.
  destruct (state_agreement n) as (Ht & HS & Ha & Hr & Hp).
  now apply DiagonalOnOccurring_step.
Qed.

Lemma state_posterior (n p : nat) :
  (p < NumberOfPixels f0)%nat ->
  nth p (EStep pw (state n)) None
  = if InsideMask f0 p
    then Some (OneHot (m_NumberOfClasses f0) (Label f0 0 p))
    else None.
Proof.
  intros Hp.
  pose proof (AfterIterations_constants pw n f0) as Hc.
  destruct (state_agreement n) as (Ht & HS & Ha & Hr & Hpr).
  rewrite (EStep_lookup pw pw_zero (state n) Ht HS Ha Hr Hpr
             (state_diagonal n))
    by now rewrite (constants_pixels _ _ Hc).
  now rewrite (constants_InsideMask _ _ Hc), (constants_classes _ _ Hc),
    (constants_Label _ _ Hc).
Qed.

Lemma state_EStep (n : nat) : EStep pw (state n) = EStep pw f0.
Proof.
  apply (nth_ext _ _ None None).
  - unfold EStep. rewrite !length_map, !length_seq.
    apply constants_pixels, AfterIterations_constants.
  - intros p Hp.
    assert (Hp0 : (p < NumberOfPixels f0)%nat).
    { unfold EStep in Hp. rewrite length_map, length_seq in Hp.
      now rewrite (constants_pixels _ _ (AfterIterations_constants pw n f0))
        in Hp. }
    rewrite (state_posterior n p Hp0).
    now rewrite <- (state_posterior 0 p Hp0).
Qed.

Lemma state_matrices (n : nat) :
  m_ConfusionMatrixArray (state (S n)) = MStep f0 (EStep pw f0).
Proof.
  rewrite AfterIterations_S.
  destruct (EMIteration_matrices pw (state n)) as [-> _].
  rewrite state_EStep.
  apply constants_MStep, AfterIterations_constants.
Qed.

Lemma state_matrix_entry (n s k j : nat) :
  (s < NumberOfInputs f0)%nat -> (k < m_NumberOfClasses f0)%nat ->
  (j < m_NumberOfClasses f0)%nat ->
  (Occurs f0 k ->
   entry (nth s (m_ConfusionMatrixArray (state (S n))) []) k j
   = if (k =? j)%nat then 1 else 0)
  /\ (~ Occurs f0 k ->
      entry (nth s (m_ConfusionMatrixArray (state (S n))) []) k j = 0).
Proof.
  intros Hs Hk Hj. rewrite state_matrices.
  now apply MStep_agree_entry.
Qed.

Lemma state_decision (tol : Qc) (n p : nat) :
  0 <= tol -> tol < 1 -> (p < NumberOfPixels f0)%nat ->
  DecidePixel tol (state (S n)) (EStep pw (state n)) p = Label f0 0 p.
Proof.
  intros Ht0 Ht1 Hp.
  pose proof (AfterIterations_constants pw (S n) f0) as Hc.
  unfold DecidePixel.
  rewrite (constants_InsideMask _ _ Hc), (constants_Label _ _ Hc).
  destruct (InsideMask f0 p) eqn:Hin; [| reflexivity].
  unfold PosteriorAt. rewrite (state_posterior n p Hp), Hin. cbn [default].
  apply DecideLabel_OneHot; [| assumption | assumption].
  now apply LabelsInRange_spec.
Qed.

End AgreementInvariant.

(** ** Agreeing sources: the run *)

Section Monitor.

Local Open Scope Qc_scope.

Lemma foldr_Qc_max_zeros (L : list Qc) :
  (forall x, x ∈ L -> x = 0) -> foldr Qc_max 0 L = 0.
Proof.
  induction L as [| x L IH]; intros Hz; [reflexivity |].
  cbn [foldr]. rewrite IH by (intros y Hy; apply Hz; now right).
  rewrite (Hz x) by left. reflexivity.
Qed.

Lemma MaximumUpdate_unchanged (g : Filter) :
  m_UpdatedConfusionMatrixArray g = m_ConfusionMatrixArray g ->
  MaximumUpdate g = 0.
Proof.
  intros Hsame. unfold MaximumUpdate. apply foldr_Qc_max_zeros.
  intros x Hx. unfold UpdateMagnitudes in Hx.
  apply list_elem_of_bind in Hx as (s & Hx & _).
  apply list_elem_of_bind in Hx as (i & Hx & _).
  apply list_elem_of_bind in Hx as (j & Hx & _).
  apply list_elem_of_singleton in Hx as ->. rewrite Hsame.
  replace (_ - _) with 0 by ring. apply Qcabs_pos, Qcle_refl.
Qed.

Lemma EMIteration_update (pw : Qc -> Qc -> Qc) (h : Filter) :
  m_MaximumConfusionMatrixElementUpdate (EMIteration pw h).1
  = MaximumUpdate
      (with_UpdatedConfusionMatrixArray (MStep h (EStep pw h)) h).
Proof. now destruct h. Qed.

Lemma with_Updated_matrices (M : list (list (list Qc))) (h : Filter) :
  m_UpdatedConfusionMatrixArray (with_UpdatedConfusionMatrixArray M h) = M
  /\ m_ConfusionMatrixArray (with_UpdatedConfusionMatrixArray M h)
     = m_ConfusionMatrixArray h.
Proof. now destruct h. Qed.

End Monitor.

Section PreparedState.

Variable impl : Implementation.
Variables (K : nat) (f : Filter).

Lemma Prepare_inputs :
  m_Inputs (Prepare impl K f) = m_Inputs f
  /\ m_MaskImage (Prepare impl K f) = m_MaskImage f.
Proof.
  destruct f as [nc hpp hot hmi hpa hnc hpf pp pa ot cm ucm ps pf mu ei mi
                 gps tut mk imv mt ins out].
  unfold Prepare; cbn. destruct (hpp || hpa); split; reflexivity.
Qed.

Lemma Prepare_Label (s p : nat) : Label (Prepare impl K f) s p = Label f s p.
Proof. unfold Label. now destruct Prepare_inputs as [-> _]. Qed.

Lemma Prepare_InsideMask (p : nat) :
  InsideMask (Prepare impl K f) p = InsideMask f p.
Proof. unfold InsideMask. now destruct Prepare_inputs as [_ ->]. Qed.

Lemma Prepare_NumberOfInputs :
  NumberOfInputs (Prepare impl K f) = NumberOfInputs f.
Proof. unfold NumberOfInputs. now destruct Prepare_inputs as [-> _]. Qed.

Lemma Prepare_NumberOfPixels :
  NumberOfPixels (Prepare impl K f) = NumberOfPixels f.
Proof. unfold NumberOfPixels. now destruct Prepare_inputs as [-> _]. Qed.

Lemma Prepare_SourcesAgree :
  SourcesAgree (Prepare impl K f) = SourcesAgree f.
Proof.
  unfold SourcesAgree, NumberOfInputs, NumberOfPixels, Label.
  now destruct Prepare_inputs as [-> _].
Qed.

Lemma Prepare_Occurs (k : nat) : Occurs (Prepare impl K f) k <-> Occurs f k.
Proof.
  unfold Occurs. rewrite Prepare_NumberOfPixels.
  split; intros (p & Hp & Hin & Hl); exists p;
    rewrite ?Prepare_InsideMask, ?Prepare_Label in *; auto.
Qed.

Lemma Prepare_TrustsPositive :
  TrustsPositive (Prepare impl K f) = TrustsPositive f.
Proof.
  destruct f as [nc hpp hot hmi hpa hnc hpf pp pa ot cm ucm ps pf mu ei mi
                 gps tut mk imv mt ins out].
  unfold Prepare; cbn. destruct (hpp || hpa); reflexivity.
Qed.

Lemma Discover_label_below (s p : nat) :
  DiscoverNumberOfClasses (InputPixelTypeMax impl) f = inr K ->
  ClassCountFits (InputPixelTypeMax impl) f = true ->
  (s < NumberOfInputs f)%nat ->
  (p < length (nth s (m_Inputs f) []))%nat ->
  (Label f s p < K)%nat.
Proof.
  intros Hd Hfits Hs Hp.
  assert (Himg : nth s (m_Inputs f) [] ∈ m_Inputs f)
    by (apply list_elem_of_In, nth_In; exact Hs).
  assert (Hl : Label f s p ∈ nth s (m_Inputs f) [])
    by (apply list_elem_of_In, nth_In; exact Hp).
  unfold DiscoverNumberOfClasses in Hd. unfold ClassCountFits in Hfits.
  destruct (m_HasNumberOfClasses f).
  - destruct (forallb _ _) eqn:Hall; [| discriminate].
    injection Hd as <-.
    exact (proj1 (labels_below_spec _ _) Hall _ _ Himg Hl).
  - cbn in Hfits. apply Nat.ltb_lt in Hfits.
    rewrite Nat.mod_small in Hd by lia. injection Hd as <-.
    pose proof (ComputeMaximumInputValue_upper f _ _ Himg Hl). lia.
Qed.

Lemma Prepare_LabelsInRange :
  DiscoverNumberOfClasses (InputPixelTypeMax impl) f = inr K ->
  ClassCountFits (InputPixelTypeMax impl) f = true ->
  (0 < K)%nat ->
  LabelsInRange (Prepare impl K f) = true.
Proof.
  intros Hd Hfits HK. unfold LabelsInRange. apply forallb_forall.
  intros p Hp.
  apply in_seq in Hp. rewrite Prepare_NumberOfPixels in Hp.
  rewrite Prepare_Label, Prepare_NumberOfClasses. apply Nat.ltb_lt.
  unfold NumberOfPixels in Hp.
  destruct (decide (0 < NumberOfInputs f)%nat) as [HS | HS].
  - apply Discover_label_below; [exact Hd | exact Hfits | exact HS | lia].
  - unfold NumberOfInputs in HS.
    destruct (m_Inputs f); cbn in *; lia.
Qed.

Lemma valid_has_a_pixel :
  CheckConfiguration K f = None ->
  exists p, (p < NumberOfPixels f)%nat /\ InsideMask f p = true.
Proof.
  unfold CheckConfiguration. intros Hc.
  destruct (negb (SizesMatch f)); [discriminate |].
  destruct (negb (PriorWellFormed f)); [discriminate |].
  destruct (negb (PreferenceWellFormed K f)); [discriminate |].
  destruct (SomePixelInsideMask f) eqn:Hsome; [| discriminate].
  unfold SomePixelInsideMask in Hsome. apply existsb_exists in Hsome
    as (p & Hp & Hin). apply in_seq in Hp. exists p. split; [lia | exact Hin].
Qed.

Lemma pixel_has_sources (p : nat) :
  (p < NumberOfPixels f)%nat -> (0 < NumberOfInputs f)%nat.
Proof.
  unfold NumberOfPixels, NumberOfInputs.
  destruct (m_Inputs f); cbn; intros Hp; lia.
Qed.

Lemma Discover_positive :
  DiscoverNumberOfClasses (InputPixelTypeMax impl) f = inr K ->
  ClassCountFits (InputPixelTypeMax impl) f = true ->
  (0 < NumberOfPixels f)%nat -> (0 < K)%nat.
Proof.
  intros Hd Hfits Hp.
  pose proof (Discover_label_below 0 0 Hd Hfits
                (pixel_has_sources 0 Hp) Hp). lia.
Qed.

Lemma LabelsFit_ClassCountFits :
  DiscoverNumberOfClasses (InputPixelTypeMax impl) f = inr K ->
  LabelsFit (InputPixelTypeMax impl) f = true -> (0 < K)%nat ->
  ClassCountFits (InputPixelTypeMax impl) f = true.
Proof.
  intros Hd Hfit HK. unfold ClassCountFits.
  destruct (m_HasNumberOfClasses f) eqn:Hdecl; [reflexivity |]. cbn.
  unfold DiscoverNumberOfClasses in Hd. rewrite Hdecl in Hd.
  injection Hd as HKeq.
  assert (Hle : (ComputeMaximumInputValue f <= InputPixelTypeMax impl)%nat).
  { destruct (decide (mjoin (m_Inputs f) = [])) as [He | Hne].
    - unfold ComputeMaximumInputValue. rewrite He. cbn. lia.
    - destruct (ComputeMaximumInputValue_attained f Hne)
        as (img & Himg & Hin).
      unfold LabelsFit in Hfit. rewrite forallb_forall in Hfit.
      apply list_elem_of_In in Himg. specialize (Hfit img Himg).
      rewrite forallb_forall in Hfit. apply list_elem_of_In in Hin.
      apply Nat.leb_le. now apply Hfit. }
  apply Nat.ltb_lt.
  destruct (decide (ComputeMaximumInputValue f = InputPixelTypeMax impl))
    as [He | Hne]; [| lia].
  rewrite He, Nat.Div0.mod_same in HKeq. lia.
Qed.

Lemma GenerateData_Success_inv (fuel : nat) (f' : Filter) :
  DiscoverNumberOfClasses (InputPixelTypeMax impl) f = inr K ->
  GenerateData impl fuel f = Success f' ->
  CheckConfiguration K f = None /\ PrepareDefined impl K f = true.
Proof.
  intros Hd. unfold GenerateData. rewrite Hd.
  destruct (CheckConfiguration K f); [discriminate |].
  destruct (PrepareDefined impl K f); [auto | discriminate].
Qed.

(** A run that finishes has at least one class: with none the first
    normaliser is an empty sum. *)
Lemma Success_has_a_class (fuel : nat) (f' : Filter) :
  DiscoverNumberOfClasses (InputPixelTypeMax impl) f = inr K ->
  GenerateData impl fuel f = Success f' -> (0 < K)%nat.
Proof.
  intros Hd Hrun.
  destruct (GenerateData_Success_inv fuel f' Hd Hrun) as [Hvalid Hprep].
  destruct (valid_has_a_pixel Hvalid) as (p & Hp & Hin).
  destruct (GenerateData_Success impl K f Hd Hvalid Hprep fuel f' Hrun)
    as (n & _ & _ & _ & _ & Hall).
  specialize (Hall 0%nat ltac:(lia)). cbn [AfterIterations] in Hall.
  unfold PassDefined in Hall. apply andb_true_iff in Hall as [He _].
  unfold EStepDefined in He. rewrite forallb_forall in He.
  specialize (He p ltac:(apply in_seq; rewrite Prepare_NumberOfPixels; lia)).
  rewrite Prepare_InsideMask, Hin in He. cbn [negb orb] in He.
  destruct K; [| lia]. exfalso.
  apply negb_true_iff, bool_decide_eq_false in He. apply He.
  unfold Normaliser, UnnormalizedPosterior.
  rewrite Prepare_NumberOfClasses. reflexivity.
Qed.

End PreparedState.

Section AgreementClaim.

Local Open Scope Qc_scope.

Variable impl : Implementation.
Variables (K : nat) (f : Filter).

Hypothesis pw_zero : forall x t, 0 < t -> (wpow impl x t = 0 <-> x = 0).
Hypothesis tol_nonneg : 0 <= tolerance impl.
Hypothesis tol_small : tolerance impl < 1.
Hypothesis Hd : DiscoverNumberOfClasses (InputPixelTypeMax impl) f = inr K.
Hypothesis Hfits : ClassCountFits (InputPixelTypeMax impl) f = true.
Hypothesis Hsources : (0 < NumberOfInputs f)%nat.
Hypothesis HK : (0 < K)%nat.
Hypothesis Hagree : SourcesAgree f = true.
Hypothesis Htrust : TrustsPositive f = true.
Hypothesis Hpriors : PriorsNonZero (Prepare impl K f) = true.
Hypothesis Hdiag : DiagonalOnOccurring (Prepare impl K f) = true.

Local Abbreviation f0 := (Prepare impl K f).
Local Abbreviation state n := (AfterIterations (wpow impl) n (Prepare impl K f)).

Lemma prepared_trusts : TrustsPositive f0 = true.
Proof. now rewrite Prepare_TrustsPositive. Qed.

Lemma prepared_has_sources : (0 < NumberOfInputs f0)%nat.
Proof. now rewrite Prepare_NumberOfInputs. Qed.

Lemma prepared_agrees : SourcesAgree f0 = true.
Proof. now rewrite Prepare_SourcesAgree. Qed.

Lemma prepared_in_range : LabelsInRange f0 = true.
Proof. now apply Prepare_LabelsInRange. Qed.

Lemma agreeing_matrices (n s k j : nat) :
  (s < NumberOfInputs f)%nat -> (k < K)%nat -> (j < K)%nat ->
  Occurs f k ->
  entry (nth s (m_ConfusionMatrixArray (state (S n))) []) k j
  = if (k =? j)%nat then 1 else 0.
Proof.
  intros Hs Hk Hj Hocc.
  destruct (state_matrix_entry (wpow impl) pw_zero f0 prepared_trusts
              prepared_has_sources prepared_agrees prepared_in_range Hpriors
              Hdiag n s k j) as [Hyes _];
    rewrite ?Prepare_NumberOfInputs, ?Prepare_NumberOfClasses; try assumption.
  apply Hyes. now rewrite Prepare_Occurs.
Qed.

Lemma state_facts (n : nat) :
  TrustsPositive (state n) = true
  /\ (0 < NumberOfInputs (state n))%nat
  /\ SourcesAgree (state n) = true
  /\ LabelsInRange (state n) = true
  /\ PriorsNonZero (state n) = true
  /\ DiagonalOnOccurring (state n) = true.
Proof.
  destruct (state_agreement (wpow impl) f0 prepared_trusts
              prepared_has_sources prepared_agrees prepared_in_range Hpriors
              n) as (Ht & HS & Ha & Hr & Hp).
  repeat split; try assumption.
  exact (state_diagonal (wpow impl) pw_zero f0 prepared_trusts
           prepared_has_sources prepared_agrees prepared_in_range Hpriors
           Hdiag n).
Qed.

Lemma state_Occurs (n k : nat) : Occurs (state n) k <-> Occurs f k.
Proof.
  rewrite (constants_Occurs _ _
             (AfterIterations_constants (wpow impl) n f0)).
  apply Prepare_Occurs.
Qed.

Lemma state_classes (n : nat) : m_NumberOfClasses (state n) = K.
Proof.
  rewrite (constants_classes _ _
             (AfterIterations_constants (wpow impl) n f0)).
  apply Prepare_NumberOfClasses.
Qed.

(** A pass is defined exactly when every class label occurs inside the
    mask. *)
Lemma agreeing_pass_defined (n : nat) :
  PassDefined (wpow impl) (state n) = true
  <-> forall k, (k < K)%nat -> Occurs f k.
Proof.
  destruct (state_facts n) as (Ht & HS & Ha & Hr & Hp & Hdg).
  unfold PassDefined.
  rewrite (EStepDefined_agree (wpow impl) pw_zero (state n) Ht HS Ha Hr Hp
             Hdg).
  cbn [andb].
  rewrite (MStepDefined_agree (wpow impl) pw_zero (state n) Ht HS Ha Hr Hp
             Hdg).
  rewrite state_classes. split; intros H k Hk.
  - apply (state_Occurs n). now apply H.
  - apply (state_Occurs n). now apply H.
Qed.

Lemma agreeing_update_vanishes (n : nat) :
  m_MaximumConfusionMatrixElementUpdate (state (S (S n))) = 0.
Proof.
  rewrite (AfterIterations_S _ (S n)), EMIteration_update.
  apply MaximumUpdate_unchanged.
  destruct (with_Updated_matrices
              (MStep (state (S n)) (EStep (wpow impl) (state (S n))))
              (state (S n))) as [-> ->].
  rewrite (state_matrices (wpow impl) pw_zero f0 prepared_trusts
             prepared_has_sources prepared_agrees prepared_in_range Hpriors
             Hdiag).
  rewrite (state_EStep (wpow impl) pw_zero f0 prepared_trusts
             prepared_has_sources prepared_agrees prepared_in_range Hpriors
             Hdiag).
  apply constants_MStep, AfterIterations_constants.
Qed.

Lemma agreeing_checked_matrices (n : nat) (h : Filter) (s k j : nat) :
  CheckedIterations (wpow impl) (S n) f0 = Some h ->
  (s < NumberOfInputs f)%nat -> (k < K)%nat -> (j < K)%nat ->
  entry (nth s (m_ConfusionMatrixArray h) []) k j
  = if (k =? j)%nat then 1 else 0.
Proof.
  intros Hrun Hs Hk Hj.
  apply CheckedIterations_Some in Hrun as [-> Hall].
  apply agreeing_matrices; try assumption.
  apply (proj1 (agreeing_pass_defined 0) (Hall 0%nat ltac:(lia))).
  exact Hk.
Qed.

Lemma agreeing_output (fuel : nat) (f' : Filter) :
  GenerateData impl fuel f = Success f' ->
  length (GetOutput f') = NumberOfPixels f
  /\ (forall p, (p < NumberOfPixels f)%nat ->
                nth p (GetOutput f') 0%nat = Label f 0 p)
  /\ (forall s k j,
        (s < NumberOfInputs f)%nat -> (k < K)%nat -> (j < K)%nat ->
        entry (nth s (m_ConfusionMatrixArray f') []) k j
        = if (k =? j)%nat then 1 else 0).
Proof.
  intros Hrun.
  destruct (GenerateData_Success_inv impl K f fuel f' Hd Hrun)
    as [Hvalid Hprepared].
  apply (GenerateData_Success impl K f Hd Hvalid Hprepared) in Hrun
    as (n & _ & -> & _ & _ & Hall).
  destruct (Finish_keeps impl (state (S n)) (EStep (wpow impl) (state n)))
    as (_ & -> & -> & _).
  pose proof (AfterIterations_constants (wpow impl) (S n) f0) as Hc.
  unfold DecisionStage.
  rewrite (constants_pixels _ _ Hc), Prepare_NumberOfPixels.
  split; [now rewrite length_map, length_seq |]. split.
  - intros p Hp. rewrite nth_map_seq by exact Hp.
    rewrite (state_decision (wpow impl) pw_zero f0 prepared_trusts
               prepared_has_sources prepared_agrees prepared_in_range
               Hpriors Hdiag)
      by (rewrite ?Prepare_NumberOfPixels; assumption).
    apply Prepare_Label.
  - intros s k j Hs Hk Hj. apply agreeing_matrices; try assumption.
    apply (proj1 (agreeing_pass_defined 0) (Hall 0%nat ltac:(lia))).
    exact Hk.
Qed.

Lemma agreeing_terminates (fuel : nat) :
  CheckConfiguration K f = None ->
  PrepareDefined impl K f = true ->
  (forall k, (k < K)%nat -> Occurs f k) ->
  0 < m_TerminationUpdateThreshold f -> (2 <= fuel)%nat ->
  exists f', GenerateData impl fuel f = Success f'
             /\ (GetElapsedIterations f' <= 2)%nat.
Proof.
  intros Hvalid Hprepared Hocc Hthr Hfuel.
  assert (Hstop : StopCriterion (state 2) = true).
  { unfold StopCriterion, Converged.
    rewrite agreeing_update_vanishes.
    rewrite (constants_threshold _ _
               (AfterIterations_constants (wpow impl) 2 f0)).
    destruct (Prepare_loop_settings impl K f) as (_ & _ & -> & _).
    now rewrite bool_decide_eq_true_2. }
  destruct (first_true (fun i => StopCriterion (state (S i))) 1 Hstop)
    as (n & Hn & Hs & Hleast). cbv beta in *.
  destruct (loop_stops_at impl K f Hd Hvalid Hprepared fuel n ltac:(lia)
              Hs Hleast)
    as (f' & Hrun & Hel & _).
  { intros i _. now apply agreeing_pass_defined. }
  exists f'. split; [exact Hrun | lia].
Qed.

End AgreementClaim.

Lemma EveryClassOccurs_spec (f : Filter) (K : nat) :
  EveryClassOccurs f K = true <-> forall k, k < K -> Occurs f k.
Proof.
  unfold EveryClassOccurs. rewrite forallb_forall. split.
  - intros H k Hk. apply Occurs_existsb. apply H, in_seq. lia.
  - intros H k Hk. apply in_seq in Hk. apply Occurs_existsb, H. lia.
Qed.


(** ** Initial matrices and priors that meet the conditions *)

Section InitialMatrices.

Local Open Scope Qc_scope.

Variable impl : Implementation.
Variables (K : nat) (f : Filter).
Hypothesis Hd : DiscoverNumberOfClasses (InputPixelTypeMax impl) f = inr K.
Hypothesis Hfits : ClassCountFits (InputPixelTypeMax impl) f = true.
Hypothesis HK : (0 < K)%nat.

Lemma Prepare_identity_matrices :
  m_InitializeWithMajorityVoting f = false ->
  m_ConfusionMatrixArray (Prepare impl K f)
  = repeat (IdentityLike impl K) (NumberOfInputs f).
Proof.
  destruct f as [nc hpp hot hmi hpa hnc hpf pp pa ot cm ucm ps pf mu ei mi
                 gps tut mk imv mt ins out].
  unfold Prepare; cbn. intros ->. destruct (hpp || hpa); reflexivity.
Qed.

Lemma entry_ExactIdentity (k j : nat) :
  (k < K)%nat ->
  entry (ExactIdentity K) k j
  = if bool_decide (j = k /\ (j < K)%nat) then 1 else 0.
Proof.
  intros Hk. unfold entry, ExactIdentity.
  rewrite (nth_map_seq (OneHot K) K k []) by exact Hk. apply nth_OneHot.
Qed.

(** The exact identity satisfies the condition on the initial matrices. *)
Lemma exact_identity_is_diagonal :
  m_InitializeWithMajorityVoting f = false ->
  IdentityLike impl K = ExactIdentity K ->
  DiagonalOnOccurring (Prepare impl K f) = true.
Proof.
  intros Hflag Hid. apply DiagonalOnOccurring_spec. intros s p k.
  rewrite Prepare_NumberOfInputs, Prepare_NumberOfPixels, Prepare_InsideMask,
    Prepare_NumberOfClasses, Prepare_Label.
  intros Hs Hp Hin Hk.
  rewrite Prepare_identity_matrices by exact Hflag.
  rewrite (nth_indep _ [] (IdentityLike impl K)) by now rewrite repeat_length.
  rewrite nth_repeat, Hid, entry_ExactIdentity by exact Hk.
  pose proof (LabelsInRange_spec _ (Prepare_LabelsInRange impl K f Hd Hfits HK) p)
    as Hl.
  rewrite Prepare_NumberOfPixels, Prepare_Label, Prepare_NumberOfClasses in Hl.
  specialize (Hl Hp). split.
  - intros ->. now rewrite bool_decide_eq_true_2.
  - intros Hne. rewrite bool_decide_eq_false_2; [reflexivity |].
    intros [? _]. congruence.
Qed.

(** Estimated priors satisfy the condition on the priors. *)
Lemma estimated_priors_are_nonzero :
  0 < epsilon impl ->
  m_HasPriorProbabilities f = false ->
  m_HasPriorProbabilityImageArray f = false ->
  PriorsNonZero (Prepare impl K f) = true.
Proof.
  intros Heps Hpp Hpa. unfold PriorsNonZero. apply forallb_forall.
  intros p Hp. apply in_seq in Hp.
  destruct (InsideMask (Prepare impl K f) p); [| reflexivity]. cbn.
  apply negb_true_iff, bool_decide_eq_false.
  pose proof (LabelsInRange_spec _ (Prepare_LabelsInRange impl K f Hd Hfits HK) p
                ltac:(lia)) as Hl.
  rewrite Prepare_NumberOfClasses in Hl.
  destruct (Prepare_estimates_priors impl K f Hpp Hpa) as [Hpriors Himg].
  pose proof (InitializePriorProbabilities_spec (epsilon impl)
                (with_NumberOfClasses K f) Heps) as Hspec.
  rewrite with_NumberOfClasses_classes in Hspec.
  specialize (Hspec ltac:(lia)). cbv zeta in Hspec.
  destruct Hspec as (_ & _ & Hpos).
  unfold Prior. rewrite Himg, Hpriors.
  intros Hz. specialize (Hpos _ Hl). rewrite Hz in Hpos.
  now apply Qclt_not_eq in Hpos.
Qed.

End InitialMatrices.

Section Counting.

Context {A : Type} (P : A -> Prop) `{forall x, Decision (P x)}.

Lemma length_filter_none (L : list A) :
  (forall x, x ∈ L -> ~ P x) -> length (filter P L) = 0.
Proof.
  induction L as [| a L IH]; intros Hno; [reflexivity |].
  rewrite filter_cons. destruct (decide (P a)) as [Ha | Ha].
  - exfalso. apply (Hno a); [left | exact Ha].
  - apply IH. intros x Hx. apply Hno. now right.
Qed.

Lemma length_filter_all (L : list A) :
  (forall x, x ∈ L -> P x) -> length (filter P L) = length L.
Proof.
  induction L as [| a L IH]; intros Hall; [reflexivity |].
  rewrite filter_cons. destruct (decide (P a)) as [Ha | Ha].
  - cbn. f_equal. apply IH. intros x Hx. apply Hall. now right.
  - exfalso. apply Ha, Hall. left.
Qed.

Lemma length_filter_some (L : list A) (x : A) :
  x ∈ L -> P x -> 0 < length (filter P L).
Proof.
  intros Hx HP.
  assert (Hin : x ∈ filter P L) by now apply list_elem_of_filter.
  destruct (filter P L); [inversion Hin | cbn; lia].
Qed.

End Counting.

Section Voting.

Lemma first_argmax_lt (score : nat -> nat) (n : nat) :
  0 < n -> first_argmax score n < n.
Proof.
  induction n as [| m IH]; [lia |]. intros _. cbn [first_argmax].
  destruct (score (first_argmax score m) <? score m); [lia |].
  destruct m as [| m']; [cbn; lia |].
  specialize (IH ltac:(lia)). lia.
Qed.

Lemma first_argmax_single (score : nat -> nat) (n l : nat) :
  l < n -> 0 < score l ->
  (forall k, k < n -> k <> l -> score k = 0) ->
  first_argmax score n = l.
Proof.
  induction n as [| m IH]; [lia |]. intros Hl Hpos Hz. cbn [first_argmax].
  destruct (decide (l = m)) as [-> | Hne].
  - destruct m as [| m'].
    + cbn [first_argmax]. now destruct (score 0 <? score 0).
    + pose proof (first_argmax_lt score (S m') ltac:(lia)) as Hb.
      rewrite (Hz (first_argmax score (S m'))) by lia.
      now replace (0 <? score (S m')) with true
        by (symmetry; apply Nat.ltb_lt; lia).
  - rewrite IH by (try lia; intros k Hk Hk'; apply Hz; lia).
    rewrite (Hz m) by lia.
    now replace (score l <? 0) with false by (symmetry; apply Nat.ltb_ge; lia).
Qed.

Variable g : Filter.
Hypothesis Hsources : 0 < NumberOfInputs g.
Hypothesis Hagree : SourcesAgree g = true.
Hypothesis Hrange : LabelsInRange g = true.

Lemma Votes_agree (p k : nat) :
  p < NumberOfPixels g ->
  Votes g p k = if decide (k = Label g 0 p) then NumberOfInputs g else 0.
Proof.
  intros Hp. unfold Votes. destruct (decide (k = Label g 0 p)) as [-> | Hne].
  - rewrite length_filter_all; [apply length_seq |].
    intros s Hs. apply elem_of_seq in Hs.
    apply SourcesAgree_spec; [exact Hagree | lia | exact Hp].
  - apply length_filter_none. intros s Hs Heq. apply elem_of_seq in Hs.
    rewrite (SourcesAgree_spec g Hagree s p) in Heq by lia. congruence.
Qed.

Lemma MajorityVote_agree (p : nat) :
  p < NumberOfPixels g -> MajorityVote g p = Label g 0 p.
Proof.
  intros Hp. unfold MajorityVote. apply first_argmax_single.
  - now apply LabelsInRange_spec.
  - rewrite Votes_agree by exact Hp. now rewrite decide_True.
  - intros k _ Hne. rewrite Votes_agree by exact Hp. now rewrite decide_False.
Qed.

Lemma JointCount_off_diagonal (s i j : nat) :
  s < NumberOfInputs g -> i <> j -> JointCount g s i j = 0.
Proof.
  intros Hs Hne. unfold JointCount. apply length_filter_none.
  intros p Hp (_ & Hmv & Hlab). apply elem_of_seq in Hp.
  rewrite MajorityVote_agree in Hmv by lia.
  rewrite (SourcesAgree_spec g Hagree s p) in Hlab by lia. congruence.
Qed.

Lemma JointCount_diagonal (s l : nat) :
  s < NumberOfInputs g -> Occurs g l -> 0 < JointCount g s l l.
Proof.
  intros Hs (p & Hp & Hin & Hl). unfold JointCount.
  apply (length_filter_some _ _ p); [apply elem_of_seq; lia |].
  split; [now rewrite Hin |]. split.
  - now rewrite MajorityVote_agree.
  - now rewrite (SourcesAgree_spec g Hagree s p).
Qed.

Local Open Scope Qc_scope.

(** Rows of the vote-seeded matrices: a unit row for a label that occurs,
    and no mass outside the diagonal. *)
Lemma MajorityVoteMatrix_column (s k l : nat) :
  (s < NumberOfInputs g)%nat -> (k < m_NumberOfClasses g)%nat ->
  (l < m_NumberOfClasses g)%nat -> Occurs g l ->
  (k = l -> entry (MajorityVoteMatrix g s) k l <> 0)
  /\ (k <> l -> entry (MajorityVoteMatrix g s) k l = 0).
Proof.
  intros Hs Hk Hl Hocc. unfold entry, MajorityVoteMatrix.
  rewrite nth_map_seq by exact Hk. split.
  - intros ->.
    rewrite (normalize_single _ _ l Hl).
    + rewrite nth_OneHot, bool_decide_eq_true_2 by auto. discriminate.
    + apply not_eq_sym, Qclt_not_eq, Qc_of_nat_pos.
      now apply JointCount_diagonal.
    + intros j _ Hne. rewrite JointCount_off_diagonal by auto.
      apply Z2Qc_inj_0.
  - intros Hne. rewrite nth_normalize, nth_map_seq by exact Hl.
    rewrite JointCount_off_diagonal by auto.
    replace (Qc_of_nat 0) with 0 by (symmetry; apply Z2Qc_inj_0).
    apply Qcdiv_0_l.
Qed.

End Voting.

Section VotingSeed.

Variable impl : Implementation.
Variables (K : nat) (f : Filter).
Hypothesis Hd : DiscoverNumberOfClasses (InputPixelTypeMax impl) f = inr K.
Hypothesis Hfits : ClassCountFits (InputPixelTypeMax impl) f = true.
Hypothesis HK : (0 < K)%nat.

Lemma Prepare_voting_matrices :
  m_InitializeWithMajorityVoting f = true ->
  m_ConfusionMatrixArray (Prepare impl K f)
  = map (MajorityVoteMatrix (Prepare impl K f)) (seq 0 (NumberOfInputs f)).
Proof.
  destruct f as [nc hpp hot hmi hpa hnc hpf pp pa ot cm ucm ps pf mu ei mi
                 gps tut mk imv mt ins out].
  unfold Prepare; cbn. intros ->. destruct (hpp || hpa); reflexivity.
Qed.

(** Majority-vote seeding on agreeing sources satisfies the condition on
    the initial matrices. *)
Lemma voting_seed_is_diagonal :
  0 < NumberOfInputs f ->
  SourcesAgree f = true ->
  m_InitializeWithMajorityVoting f = true ->
  DiagonalOnOccurring (Prepare impl K f) = true.
Proof.
  intros HS Ha Hflag. apply DiagonalOnOccurring_spec. intros s p k Hs Hp Hin Hk.
  rewrite Prepare_voting_matrices by exact Hflag.
  rewrite Prepare_NumberOfInputs in Hs.
  rewrite nth_map_seq by exact Hs.
  apply MajorityVoteMatrix_column.
  - now rewrite Prepare_NumberOfInputs.
  - now rewrite Prepare_SourcesAgree.
  - now apply Prepare_LabelsInRange.
  - now rewrite Prepare_NumberOfInputs.
  - exact Hk.
  - apply LabelsInRange_spec; [now apply Prepare_LabelsInRange | exact Hp].
  - exists p. repeat split; assumption.
Qed.

End VotingSeed.

(** ** Runs on strictly positive matrices *)

Section PositiveRuns.

Local Open Scope Qc_scope.

Variable pw : Qc -> Qc -> Qc.
Hypothesis pw_pos : forall x t, 0 < x -> 0 < pw x t.

Lemma prodQc_pos (v : list Qc) : (forall x, x ∈ v -> 0 < x) -> 0 < prodQc v.
Proof.
  induction v as [| x v IH]; intros Hpos; [reflexivity |].
  rewrite prodQc_cons. apply Qcmult_pos_pos; [apply Hpos; left |].
  apply IH. intros y Hy. apply Hpos. now right.
Qed.

Variable h : Filter.
Hypothesis Hpositive : PositiveState h.

Lemma positive_likelihood (p k : nat) :
  (p < NumberOfPixels h)%nat -> InsideMask h p = true ->
  (k < m_NumberOfClasses h)%nat -> 0 < Likelihood pw h p k.
Proof.
  intros Hp Hin Hk. unfold Likelihood. apply prodQc_pos.
  intros x Hx. apply list_elem_of_fmap in Hx as (s & -> & Hs).
  apply elem_of_seq in Hs.
  destruct (Hpositive p k Hp Hin Hk) as [_ Hentries].
  destruct (Hentries s ltac:(lia)) as [_ Hentry].
  unfold Trusted. destruct (m_HasObserverTrust h); [now apply pw_pos | exact Hentry].
Qed.

Lemma positive_weight (p k : nat) :
  (p < NumberOfPixels h)%nat -> InsideMask h p = true ->
  (k < m_NumberOfClasses h)%nat -> 0 < Weight (EStep pw h) p k.
Proof.
  intros Hp Hin Hk. unfold Weight, EStep.
  rewrite nth_map_seq by exact Hp. rewrite Hin, nth_normalize.
  unfold UnnormalizedPosterior at 1. rewrite nth_map_seq by exact Hk.
  assert (Hterm : forall j, (j < m_NumberOfClasses h)%nat ->
                    0 < Prior h j p * Likelihood pw h p j).
  { intros j Hj. apply Qcmult_pos_pos.
    - now apply (Hpositive p j Hp Hin Hj).
    - now apply positive_likelihood. }
  apply Qcdiv_pos; [now apply Hterm |].
  apply UnnormalizedPosterior_mass_pos.
  - intros j Hj. now apply (Hpositive p j Hp Hin Hj).
  - intros j Hj. now apply Qclt_le_weak, positive_likelihood.
  - exists k. split; [exact Hk | now apply positive_likelihood].
Qed.

Lemma Contribution_nonneg (s k j p : nat) :
  (p < NumberOfPixels h)%nat -> (k < m_NumberOfClasses h)%nat ->
  0 <= Contribution h (EStep pw h) s k j p.
Proof.
  intros Hp Hk. unfold Contribution.
  destruct (InsideMask h p) eqn:Hin; [| apply Qcle_refl].
  destruct (Label h s p =? j)%nat; [| apply Qcle_refl].
  now apply Qclt_le_weak, positive_weight.
Qed.

Lemma Accumulate_nonneg (s k j : nat) :
  (k < m_NumberOfClasses h)%nat -> 0 <= Accumulate h (EStep pw h) s k j.
Proof.
  intros Hk. unfold Accumulate. apply sumQc_nonneg.
  intros x Hx. apply list_elem_of_fmap in Hx as (p & -> & Hp).
  apply elem_of_seq in Hp. apply Contribution_nonneg; [lia | exact Hk].
Qed.

Lemma Accumulate_pos (s k p : nat) :
  (p < NumberOfPixels h)%nat -> InsideMask h p = true ->
  (k < m_NumberOfClasses h)%nat ->
  0 < Accumulate h (EStep pw h) s k (Label h s p).
Proof.
  intros Hp Hin Hk. unfold Accumulate. apply sumQc_pos.
  - intros x Hx. apply list_elem_of_fmap in Hx as (q & -> & Hq).
    apply elem_of_seq in Hq. apply Contribution_nonneg; [lia | exact Hk].
  - exists (Contribution h (EStep pw h) s k (Label h s p) p). split.
    + apply list_elem_of_fmap. exists p. split; [reflexivity |].
      apply elem_of_seq. lia.
    + unfold Contribution. rewrite Hin, Nat.eqb_refl.
      now apply positive_weight.
Qed.

(** With strictly positive priors and entries, every row keeps a positive
    mass as long as one pixel lies inside the mask. *)
Lemma positive_row_mass (s k p : nat) :
  (p < NumberOfPixels h)%nat -> InsideMask h p = true ->
  (s < NumberOfInputs h)%nat -> (k < m_NumberOfClasses h)%nat ->
  0 < RowMass h (EStep pw h) s k.
Proof.
  intros Hp Hin Hs Hk. unfold RowMass. apply sumQc_pos.
  - intros x Hx. apply list_elem_of_fmap in Hx as (j & -> & _).
    now apply Accumulate_nonneg.
  - exists (Accumulate h (EStep pw h) s k (Label h s p)). split.
    + apply list_elem_of_fmap. exists (Label h s p). split; [reflexivity |].
      apply elem_of_seq.
      destruct (Hpositive p k Hp Hin Hk) as [_ Hentries].
      destruct (Hentries s Hs) as [Hl _]. lia.
    + now apply Accumulate_pos.
Qed.

Lemma positive_step : PositiveState (EMIteration pw h).1.
Proof.
  pose proof (EMIteration_constants pw h) as Hc.
  unfold PositiveState. intros p k.
  rewrite (constants_pixels _ _ Hc), (constants_InsideMask _ _ Hc),
    (constants_classes _ _ Hc), (constants_Prior _ _ Hc).
  intros Hp Hin Hk.
  destruct (Hpositive p k Hp Hin Hk) as [Hprior Hentries].
  split; [exact Hprior |]. intros s.
  rewrite (constants_inputs_number _ _ Hc), (constants_Label _ _ Hc).
  intros Hs. destruct (Hentries s Hs) as [Hl _]. split; [exact Hl |].
  destruct (EMIteration_matrices pw h) as [-> _].
  change (entry (nth s (MStep h (EStep pw h)) []) k (Label h s p))
    with (nth (Label h s p) (row (nth s (MStep h (EStep pw h)) []) k) 0).
  rewrite MStep_row, nth_normalize, nth_map_seq by assumption.
  apply Qcdiv_pos; [now apply Accumulate_pos |].
  now apply (positive_row_mass s k p).
Qed.

End PositiveRuns.

Section PositiveRunsInvariant.

Local Open Scope Qc_scope.

Variable pw : Qc -> Qc -> Qc.
Hypothesis pw_pos : forall x t, 0 < x -> 0 < pw x t.
Variable f0 : Filter.
Hypothesis Hpositive : PositiveState f0.

Lemma positive_states (n : nat) : PositiveState (AfterIterations pw n f0).
Proof.
  induction n as [| n IH]; [exact Hpositive |].
  rewrite AfterIterations_S. now apply positive_step.
Qed.

(** Where priors and initial matrices are strictly positive and a pixel
    lies inside the mask, every row of every confusion matrix sums to 1
    after every M-step, with no exception. *)
Lemma strictly_positive_runs_keep_unit_rows (n s k p : nat) :
  (p < NumberOfPixels f0)%nat -> InsideMask f0 p = true ->
  (s < NumberOfInputs f0)%nat -> (k < m_NumberOfClasses f0)%nat ->
  0 < RowMass (AfterIterations pw n f0)
        (EStep pw (AfterIterations pw n f0)) s k
  /\ sumQc (row (nth s (m_ConfusionMatrixArray
                          (AfterIterations pw (S n) f0)) []) k) = 1.
Proof.
  intros Hp Hin Hs Hk.
  pose proof (AfterIterations_constants pw n f0) as Hc.
  assert (Hmass : 0 < RowMass (AfterIterations pw n f0)
                        (EStep pw (AfterIterations pw n f0)) s k).
  { apply (positive_row_mass pw pw_pos _ (positive_states n) s k p);
      rewrite ?(constants_pixels _ _ Hc), ?(constants_InsideMask _ _ Hc),
        ?(constants_inputs_number _ _ Hc), ?(constants_classes _ _ Hc);
      assumption. }
  split; [exact Hmass |].
  rewrite AfterIterations_S.
  destruct (EMIteration_matrices pw (AfterIterations pw n f0)) as [-> _].
  rewrite MStep_row_sum
    by (rewrite ?(constants_inputs_number _ _ Hc),
                ?(constants_classes _ _ Hc); assumption).
  destruct (decide _) as [Hz | _]; [| reflexivity].
  rewrite Hz in Hmass. now apply Qclt_not_eq in Hmass.
Qed.

End PositiveRunsInvariant.

(** ** Passes that divide by no zero sum *)

Section DefinedPasses.

Local Open Scope Qc_scope.

Variable pw : Qc -> Qc -> Qc.

Lemma MStepDefined_spec (h : Filter) (W : PosteriorStore) :
  MStepDefined h W = true
  <-> forall s k, (s < NumberOfInputs h)%nat ->
                  (k < m_NumberOfClasses h)%nat -> RowMass h W s k <> 0.
Proof.
  unfold MStepDefined. rewrite forallb_forall. split.
  - intros H s k Hs Hk. specialize (H s ltac:(apply in_seq; lia)).
    rewrite forallb_forall in H. specialize (H k ltac:(apply in_seq; lia)).
    now apply negb_true_iff, bool_decide_eq_false in H.
  - intros H s Hs. apply in_seq in Hs. apply forallb_forall. intros k Hk.
    apply in_seq in Hk. apply negb_true_iff, bool_decide_eq_false.
    apply H; lia.
Qed.

Lemma EStepDefined_spec (h : Filter) :
  EStepDefined pw h = true
  <-> forall p, (p < NumberOfPixels h)%nat -> InsideMask h p = true ->
                Normaliser pw h p <> 0.
Proof.
  unfold EStepDefined. rewrite forallb_forall. split.
  - intros H p Hp Hin. specialize (H p ltac:(apply in_seq; lia)).
    rewrite Hin in H. cbn in H.
    now apply negb_true_iff, bool_decide_eq_false in H.
  - intros H p Hp. apply in_seq in Hp.
    destruct (InsideMask h p) eqn:Hin; [| reflexivity]. cbn.
    apply negb_true_iff, bool_decide_eq_false. apply H; [lia | exact Hin].
Qed.

(** After a defined pass every row of every source's matrix sums to 1, in
    the updated and in the current matrices. *)
Lemma defined_pass_unit_rows (h : Filter) (s k : nat) :
  PassDefined pw h = true ->
  (s < NumberOfInputs h)%nat -> (k < m_NumberOfClasses h)%nat ->
  sumQc (row (nth s (m_UpdatedConfusionMatrixArray (EMIteration pw h).1) [])
             k) = 1
  /\ sumQc (row (nth s (m_ConfusionMatrixArray (EMIteration pw h).1) []) k)
     = 1.
Proof.
  intros Hdef Hs Hk. unfold PassDefined in Hdef.
  apply andb_true_iff in Hdef as [_ HM].
  pose proof (proj1 (MStepDefined_spec h (EStep pw h)) HM s k Hs Hk) as Hmass.
  destruct (EMIteration_matrices pw h) as [-> ->].
  rewrite MStep_row_sum by assumption. now destruct (decide _).
Qed.

Hypothesis pw_pos : forall x t, 0 < x -> 0 < pw x t.

(** From strictly positive priors and entries every pass is defined, as
    long as there is a class and one pixel lies inside the mask. *)
Lemma positive_pass_defined (h : Filter) :
  PositiveState h -> (0 < m_NumberOfClasses h)%nat ->
  (exists p, (p < NumberOfPixels h)%nat /\ InsideMask h p = true) ->
  PassDefined pw h = true.
Proof.
  intros Hpos HK (q & Hq & Hqin). unfold PassDefined.
  apply andb_true_iff. split.
  - apply EStepDefined_spec. intros p Hp Hin.
    apply not_eq_sym, Qclt_not_eq. unfold Normaliser.
    apply UnnormalizedPosterior_mass_pos.
    + intros k Hk. now apply (Hpos p k Hp Hin Hk).
    + intros k Hk. now apply Qclt_le_weak, positive_likelihood.
    + exists 0%nat. split; [exact HK |]. now apply positive_likelihood.
  - apply MStepDefined_spec. intros s k Hs Hk.
    apply not_eq_sym, Qclt_not_eq.
    now apply (positive_row_mass pw pw_pos h Hpos s k q).
Qed.

Lemma positive_passes_defined (f : Filter) (n : nat) :
  PositiveState f -> (0 < m_NumberOfClasses f)%nat ->
  (exists p, (p < NumberOfPixels f)%nat /\ InsideMask f p = true) ->
  CheckedIterations pw n f = Some (AfterIterations pw n f).
Proof.
  intros Hpos HK (q & Hq & Hqin). apply CheckedIterations_Some.
  split; [reflexivity |]. intros i _.
  pose proof (AfterIterations_constants pw i f) as Hc.
  apply positive_pass_defined.
  - now apply positive_states.
  - now rewrite (constants_classes _ _ Hc).
  - exists q. now rewrite (constants_pixels _ _ Hc),
      (constants_InsideMask _ _ Hc).
Qed.

End DefinedPasses.


(** ** Matrices that support every pixel *)

Section SupportedRuns.

Local Open Scope Qc_scope.

Variable pw : Qc -> Qc -> Qc.
Hypothesis pw_pos : forall x t, 0 < x -> 0 < pw x t.
Hypothesis pw_nonneg : forall x t, 0 <= x -> 0 <= pw x t.

Lemma prodQc_nonneg (v : list Qc) :
  (forall x, x ∈ v -> 0 <= x) -> 0 <= prodQc v.
Proof.
  induction v as [| x v IH]; intros Hnn; [discriminate |].
  rewrite prodQc_cons. apply Qcmult_nonneg_nonneg; [apply Hnn; left |].
  apply IH. intros y Hy. apply Hnn. now right.
Qed.

Lemma Qcdiv_nonneg (x y : Qc) : 0 <= x -> 0 <= y -> 0 <= x / y.
Proof.
  intros Hx Hy. destruct (Qcle_lt_or_eq _ _ Hy) as [Hpos | <-].
  - apply Qcmult_nonneg_nonneg; [exact Hx |].
    now apply Qclt_le_weak, Qcinv_pos.
  - unfold Qcdiv. replace (/ 0) with 0 by reflexivity.
    rewrite Qcmult_0_r. apply Qcle_refl.
Qed.

Variable h : Filter.
Hypothesis Hsupported : SupportedState h.
Hypothesis Hprior :
  forall p k, (p < NumberOfPixels h)%nat -> InsideMask h p = true ->
              (k < m_NumberOfClasses h)%nat -> 0 < Prior h k p.

Lemma supported_likelihood_nonneg (p k : nat) : 0 <= Likelihood pw h p k.
Proof.
  unfold Likelihood. apply prodQc_nonneg. intros x Hx.
  apply list_elem_of_fmap in Hx as (s & -> & _). unfold Trusted.
  destruct (m_HasObserverTrust h); [apply pw_nonneg |];
    apply (proj1 Hsupported).
Qed.

Lemma supported_likelihood_pos (p : nat) :
  (p < NumberOfPixels h)%nat -> InsideMask h p = true ->
  exists k, (k < m_NumberOfClasses h)%nat /\ 0 < Likelihood pw h p k.
Proof.
  intros Hp Hin. destruct (proj2 Hsupported p Hp Hin) as (k & Hk & Hent).
  exists k. split; [exact Hk |]. unfold Likelihood. apply prodQc_pos.
  intros x Hx. apply list_elem_of_fmap in Hx as (s & -> & Hs).
  apply elem_of_seq in Hs. destruct (Hent s ltac:(lia)) as [_ Hpos].
  unfold Trusted. destruct (m_HasObserverTrust h);
    [now apply pw_pos | exact Hpos].
Qed.

Lemma supported_normaliser_pos (p : nat) :
  (p < NumberOfPixels h)%nat -> InsideMask h p = true ->
  0 < Normaliser pw h p.
Proof.
  intros Hp Hin. unfold Normaliser. apply UnnormalizedPosterior_mass_pos.
  - intros k Hk. now apply Hprior.
  - intros k _. apply supported_likelihood_nonneg.
  - now apply supported_likelihood_pos.
Qed.

Lemma supported_weight (p k : nat) :
  (p < NumberOfPixels h)%nat -> InsideMask h p = true ->
  (k < m_NumberOfClasses h)%nat ->
  Weight (EStep pw h) p k
  = Prior h k p * Likelihood pw h p k / Normaliser pw h p.
Proof.
  intros Hp Hin Hk. unfold Weight, EStep.
  rewrite nth_map_seq by exact Hp. rewrite Hin, nth_normalize.
  unfold UnnormalizedPosterior at 1. now rewrite nth_map_seq by exact Hk.
Qed.

Lemma supported_weight_nonneg (p k : nat) :
  (p < NumberOfPixels h)%nat -> (k < m_NumberOfClasses h)%nat ->
  0 <= Weight (EStep pw h) p k.
Proof.
  intros Hp Hk. destruct (InsideMask h p) eqn:Hin.
  - rewrite supported_weight by assumption. apply Qcdiv_nonneg.
    + apply Qcmult_nonneg_nonneg;
        [now apply Qclt_le_weak, Hprior | apply supported_likelihood_nonneg].
    + now apply Qclt_le_weak, supported_normaliser_pos.
  - unfold Weight, EStep. rewrite nth_map_seq by exact Hp. rewrite Hin.
    apply Qcle_refl.
Qed.

Lemma supported_contribution_nonneg (s k j p : nat) :
  (p < NumberOfPixels h)%nat -> (k < m_NumberOfClasses h)%nat ->
  0 <= Contribution h (EStep pw h) s k j p.
Proof.
  intros Hp Hk. unfold Contribution.
  destruct (InsideMask h p); [| apply Qcle_refl].
  destruct (Label h s p =? j)%nat; [| apply Qcle_refl].
  now apply supported_weight_nonneg.
Qed.

Lemma supported_accumulate_nonneg (s k j : nat) :
  (k < m_NumberOfClasses h)%nat -> 0 <= Accumulate h (EStep pw h) s k j.
Proof.
  intros Hk. unfold Accumulate. apply sumQc_nonneg.
  intros x Hx. apply list_elem_of_fmap in Hx as (p & -> & Hp).
  apply elem_of_seq in Hp.
  apply supported_contribution_nonneg; [lia | exact Hk].
Qed.

Lemma supported_row_mass_nonneg (s k : nat) :
  (k < m_NumberOfClasses h)%nat -> 0 <= RowMass h (EStep pw h) s k.
Proof.
  intros Hk. unfold RowMass. apply sumQc_nonneg. intros x Hx.
  apply list_elem_of_fmap in Hx as (j & -> & _).
  now apply supported_accumulate_nonneg.
Qed.

Lemma supported_step_nonneg (s k j : nat) :
  0 <= entry (nth s (MStep h (EStep pw h)) []) k j.
Proof.
  destruct (decide (s < NumberOfInputs h)%nat) as [Hs | Hs].
  - destruct (decide (k < m_NumberOfClasses h)%nat) as [Hk | Hk].
    + change (entry (nth s (MStep h (EStep pw h)) []) k j)
        with (nth j (row (nth s (MStep h (EStep pw h)) []) k) 0).
      rewrite MStep_row, nth_normalize by assumption.
      fold (RowMass h (EStep pw h) s k).
      apply Qcdiv_nonneg; [| now apply supported_row_mass_nonneg].
      destruct (decide (j < m_NumberOfClasses h)%nat) as [Hj | Hj].
      * rewrite nth_map_seq by exact Hj.
        now apply supported_accumulate_nonneg.
      * rewrite nth_map_seq_overflow by lia. apply Qcle_refl.
    + unfold entry, MStep. rewrite nth_map_seq by exact Hs.
      unfold MStepMatrix. rewrite nth_map_seq_overflow by lia.
      destruct j; apply Qcle_refl.
  - unfold entry, MStep. rewrite nth_map_seq_overflow by lia.
    destruct k, j; apply Qcle_refl.
Qed.

Lemma supported_step_pos (s k p : nat) :
  (p < NumberOfPixels h)%nat -> InsideMask h p = true ->
  (s < NumberOfInputs h)%nat -> (k < m_NumberOfClasses h)%nat ->
  (Label h s p < m_NumberOfClasses h)%nat ->
  0 < Likelihood pw h p k ->
  0 < entry (nth s (MStep h (EStep pw h)) []) k (Label h s p).
Proof.
  intros Hp Hin Hs Hk Hl Hlik.
  assert (Hw : 0 < Weight (EStep pw h) p k).
  { rewrite supported_weight by assumption. apply Qcdiv_pos.
    - apply Qcmult_pos_pos; [now apply Hprior | exact Hlik].
    - now apply supported_normaliser_pos. }
  assert (Hacc : 0 < Accumulate h (EStep pw h) s k (Label h s p)).
  { unfold Accumulate. apply sumQc_pos.
    - intros x Hx. apply list_elem_of_fmap in Hx as (q & -> & Hq).
      apply elem_of_seq in Hq.
      apply supported_contribution_nonneg; [lia | exact Hk].
    - exists (Contribution h (EStep pw h) s k (Label h s p) p). split.
      + apply list_elem_of_fmap. exists p. split; [reflexivity |].
        apply elem_of_seq. lia.
      + unfold Contribution. now rewrite Hin, Nat.eqb_refl. }
  change (entry (nth s (MStep h (EStep pw h)) []) k (Label h s p))
    with (nth (Label h s p) (row (nth s (MStep h (EStep pw h)) []) k) 0).
  rewrite MStep_row, nth_normalize, nth_map_seq by assumption.
  apply Qcdiv_pos; [exact Hacc |]. apply sumQc_pos.
  - intros x Hx. apply list_elem_of_fmap in Hx as (j & -> & _).
    now apply supported_accumulate_nonneg.
  - exists (Accumulate h (EStep pw h) s k (Label h s p)).
    split; [| exact Hacc]. apply list_elem_of_fmap.
    exists (Label h s p). split; [reflexivity |]. apply elem_of_seq. lia.
Qed.

Lemma supported_step : SupportedState (EMIteration pw h).1.
Proof.
  pose proof (EMIteration_constants pw h) as Hc.
  destruct (EMIteration_matrices pw h) as [Hcm _].
  split.
  - intros s k j. rewrite Hcm. apply supported_step_nonneg.
  - intros p. rewrite (constants_pixels _ _ Hc),
      (constants_InsideMask _ _ Hc), (constants_classes _ _ Hc).
    intros Hp Hin.
    destruct (proj2 Hsupported p Hp Hin) as (k & Hk & Hent).
    exists k. split; [exact Hk |]. intros s.
    rewrite (constants_inputs_number _ _ Hc), (constants_Label _ _ Hc), Hcm.
    intros Hs. destruct (Hent s Hs) as [Hl _]. split; [exact Hl |].
    apply supported_step_pos; try assumption.
    unfold Likelihood. apply prodQc_pos.
    intros x Hx. apply list_elem_of_fmap in Hx as (s' & -> & Hs').
    apply elem_of_seq in Hs'. destruct (Hent s' ltac:(lia)) as [_ Hpos].
    unfold Trusted. destruct (m_HasObserverTrust h);
      [now apply pw_pos | exact Hpos].
Qed.

End SupportedRuns.

Section SupportedInvariant.

Local Open Scope Qc_scope.

Variable pw : Qc -> Qc -> Qc.
Hypothesis pw_pos : forall x t, 0 < x -> 0 < pw x t.
Hypothesis pw_nonneg : forall x t, 0 <= x -> 0 <= pw x t.
Variable g : Filter.
Hypothesis Hsupported : SupportedState g.
Hypothesis Hprior :
  forall p k, (p < NumberOfPixels g)%nat -> InsideMask g p = true ->
              (k < m_NumberOfClasses g)%nat -> 0 < Prior g k p.

Lemma supported_states (n : nat) :
  SupportedState (AfterIterations pw n g).
Proof.
  induction n as [| n IH]; [exact Hsupported |].
  rewrite AfterIterations_S.
  pose proof (AfterIterations_constants pw n g) as Hc.
  apply supported_step; try assumption.
  intros p k. rewrite (constants_pixels _ _ Hc),
    (constants_InsideMask _ _ Hc), (constants_classes _ _ Hc),
    (constants_Prior _ _ Hc).
  apply Hprior.
Qed.

Lemma supported_normalisers (n p : nat) :
  (p < NumberOfPixels g)%nat -> InsideMask g p = true ->
  0 < Normaliser pw (AfterIterations pw n g) p.
Proof.
  intros Hp Hin.
  pose proof (AfterIterations_constants pw n g) as Hc.
  apply supported_normaliser_pos; try assumption.
  - apply supported_states.
  - intros q k. rewrite (constants_pixels _ _ Hc),
      (constants_InsideMask _ _ Hc), (constants_classes _ _ Hc),
      (constants_Prior _ _ Hc).
    apply Hprior.
  - now rewrite (constants_pixels _ _ Hc).
  - now rewrite (constants_InsideMask _ _ Hc).
Qed.

End SupportedInvariant.

(** ** The Prior Estimator and the class count in a run *)

Local Open Scope Qc_scope.

Section SupportedSeeds.

Variable impl : Implementation.
Variables (K : nat) (f : Filter).

Lemma valid_sizes (s : nat) :
  CheckConfiguration K f = None -> (s < NumberOfInputs f)%nat ->
  length (nth s (m_Inputs f) []) = NumberOfPixels f.
Proof.
  unfold CheckConfiguration. intros Hc Hs.
  destruct (SizesMatch f) eqn:Hsizes; [| discriminate].
  unfold SizesMatch in Hsizes. apply andb_true_iff in Hsizes as [Hall _].
  rewrite forallb_forall in Hall.
  specialize (Hall (nth s (m_Inputs f) []) ltac:(apply nth_In; exact Hs)).
  now apply Nat.eqb_eq in Hall.
Qed.

Lemma GenerateData_NumberOfClasses (fuel : nat) (f' : Filter) :
  DiscoverNumberOfClasses (InputPixelTypeMax impl) f = inr K ->
  GenerateData impl fuel f = Success f' -> GetNumberOfClasses f' = K.
Proof.
  intros Hd Hrun.
  destruct (GenerateData_Success_inv impl K f fuel f' Hd Hrun)
    as [Hvalid Hprep].
  destruct (GenerateData_Success impl K f Hd Hvalid Hprep fuel f' Hrun)
    as (n & _ & -> & _).
  destruct (Finish_keeps impl
              (AfterIterations (wpow impl) (S n) (Prepare impl K f))
              (EStep (wpow impl)
                 (AfterIterations (wpow impl) n (Prepare impl K f))))
    as (_ & _ & _ & ->).
  rewrite (RunConstants_NumberOfClasses _ _
             (AfterIterations_constants _ _ _)).
  apply Prepare_NumberOfClasses.
Qed.

(** An identity-like matrix without negative entries and with strictly
    positive entries inside the K by K block supports every pixel. *)
Lemma positive_seed_is_supported :
  DiscoverNumberOfClasses (InputPixelTypeMax impl) f = inr K ->
  ClassCountFits (InputPixelTypeMax impl) f = true ->
  CheckConfiguration K f = None ->
  m_InitializeWithMajorityVoting f = false ->
  (forall k j, 0 <= entry (IdentityLike impl K) k j) ->
  (forall k j, (k < K)%nat -> (j < K)%nat ->
               0 < entry (IdentityLike impl K) k j) ->
  SupportedState (Prepare impl K f).
Proof.
  intros Hd Hfits Hvalid Hflag Hnn Hpos.
  assert (Hcm : forall s, (s < NumberOfInputs f)%nat ->
                  nth s (m_ConfusionMatrixArray (Prepare impl K f)) []
                  = IdentityLike impl K).
  { intros s Hs. rewrite (Prepare_identity_matrices impl K f Hd Hfits Hflag).
    rewrite (nth_indep _ [] (IdentityLike impl K))
      by now rewrite repeat_length.
    apply nth_repeat. }
  split.
  - intros s k j.
    destruct (decide (s < NumberOfInputs f)%nat) as [Hs | Hs].
    + rewrite Hcm by exact Hs. apply Hnn.
    + rewrite (Prepare_identity_matrices impl K f Hd Hfits Hflag).
      rewrite nth_overflow by (rewrite repeat_length; lia).
      destruct k, j; apply Qcle_refl.
  - intros p. rewrite Prepare_NumberOfPixels, Prepare_InsideMask,
      Prepare_NumberOfClasses.
    intros Hp Hin.
    assert (HK : (0 < K)%nat)
      by (apply (Discover_positive impl K f Hd Hfits); lia).
    exists 0%nat. split; [exact HK |]. intros s.
    rewrite Prepare_NumberOfInputs, Prepare_Label. intros Hs.
    assert (Hl : (Label f s p < K)%nat).
    { apply (Discover_label_below impl K f s p Hd Hfits Hs).
      now rewrite valid_sizes. }
    split; [exact Hl |]. rewrite Hcm by exact Hs. now apply Hpos.
Qed.

End SupportedSeeds.


Local Close Scope Qc_scope.

(** C7.  The class count is held in a member of the input pixel type.
    Without a declared count the Discoverer yields the largest label plus
    one only while that label is below the largest value of the pixel type;
    for a label equal to it, 255 in an 8-bit image as on [FullRangeRater],
    the sum wraps to 0; no discovered count exceeds the largest value of the
    type, and no finished run reports a larger one.  With a
    declared count, a source label at or above it makes the Discoverer and
    the run fail with [LabelOutOfRangeError], for every amount of fuel, zero
    included, so before any EM iteration. *)
Theorem class_count_wraps_at_largest_pixel_value :
  ComputeMaximumInputValue FullRangeRater = 255
  /\ DiscoverNumberOfClasses 255 FullRangeRater = inr 0
  /\ (forall M f,
        m_HasNumberOfClasses f = false ->
        (ComputeMaximumInputValue f < M ->
         DiscoverNumberOfClasses M f = inr (ComputeMaximumInputValue f + 1))
        /\ (ComputeMaximumInputValue f = M ->
            DiscoverNumberOfClasses M f = inr 0)
        /\ forall K, DiscoverNumberOfClasses M f = inr K -> K <= M)
  /\ (forall impl fuel f f',
        m_HasNumberOfClasses f = false ->
        GenerateData impl fuel f = Success f' ->
        GetNumberOfClasses f' <= InputPixelTypeMax impl)
  /\ (forall M f,
        m_HasNumberOfClasses f = true ->
        (exists img l, img ∈ m_Inputs f /\ l ∈ img
                       /\ m_NumberOfClasses f <= l) ->
        DiscoverNumberOfClasses M f = inl LabelOutOfRangeError
        /\ forall impl fuel,
             InputPixelTypeMax impl = M ->
             GenerateData impl fuel f = Failure LabelOutOfRangeError).
Proof.
  assert (Hbound : forall M f K,
            m_HasNumberOfClasses f = false ->
            DiscoverNumberOfClasses M f = inr K -> K <= M).
  { intros M f K Hundecl. unfold DiscoverNumberOfClasses. rewrite Hundecl.
    intros [= <-].
    pose proof (Nat.mod_upper_bound (ComputeMaximumInputValue f + 1)
                  (M + 1) ltac:(lia)). lia. }
  split; [reflexivity |]. split; [reflexivity |]. split; [| split].
  - intros M f Hundecl. split; [| split].
    + intros Hlt. unfold DiscoverNumberOfClasses. rewrite Hundecl.
      now rewrite Nat.mod_small by lia.
    + intros <-. unfold DiscoverNumberOfClasses. rewrite Hundecl.
      now rewrite Nat.Div0.mod_same.
    + intros K. now apply Hbound.
  - intros impl fuel f f' Hundecl Hrun.
    destruct (DiscoverNumberOfClasses (InputPixelTypeMax impl) f)
      as [e | K] eqn:Hd.
    + unfold GenerateData in Hrun. rewrite Hd in Hrun. discriminate.
    + rewrite (GenerateData_NumberOfClasses impl K f fuel f' Hd Hrun).
      now apply (Hbound _ f).
  - intros M f Hdecl (img & l & Himg & Hl & Hge).
    assert (Hd : DiscoverNumberOfClasses M f = inl LabelOutOfRangeError).
    { unfold DiscoverNumberOfClasses. rewrite Hdecl.
      destruct (forallb _ _) eqn:Hall; [| reflexivity].
      pose proof (proj1 (labels_below_spec _ _) Hall img l Himg Hl). lia. }
    split; [exact Hd |]. intros impl fuel HM. unfold GenerateData.
    now rewrite HM, Hd.
Qed.

(** ** The properties on the sample configurations *)

Ltac Qc_same := apply Qc_is_canon; vm_compute; reflexivity.

Lemma Unset_clears_flag_only_witness :
  Has ObserverTrust ThreeRaters = false
  /\ Unset ObserverTrust ThreeRaters = ThreeRaters.
Proof.
  split; [reflexivity |].
  apply (Unset_clears_flag_only ObserverTrust ThreeRaters). reflexivity.
Defined.

Lemma GetConfusionMatrix_defined_iff_in_range_witness :
  length (m_ConfusionMatrixArray (Prepare SampleImplementation 2 ThreeRaters))
  = NumberOfInputs (Prepare SampleImplementation 2 ThreeRaters)
  /\ is_Some (GetConfusionMatrix 2 (Prepare SampleImplementation 2 ThreeRaters))
  /\ GetConfusionMatrix 3 (Prepare SampleImplementation 2 ThreeRaters) = None.
Proof.
  assert (Hlen : length (m_ConfusionMatrixArray
                           (Prepare SampleImplementation 2 ThreeRaters))
                 = NumberOfInputs (Prepare SampleImplementation 2 ThreeRaters))
    by reflexivity.
  split; [exact Hlen |]. split.
  - apply (GetConfusionMatrix_defined_iff_in_range _ 2 Hlen). vm_compute. lia.
  - apply (GetConfusionMatrix_defined_iff_in_range _ 3 Hlen). vm_compute. lia.
Defined.

Lemma tie_goes_to_lowest_preference_witness :
  InsideMask (SetPriorPreference [1; 0] ThreeRaters) 0 = true
  /\ 1 < length (Candidates 0%Qc (PosteriorAt TiedPosterior 0))
  /\ DecidePixel 0%Qc (SetPriorPreference [1; 0] ThreeRaters) TiedPosterior 0
     ∈ Candidates 0%Qc (PosteriorAt TiedPosterior 0)
  /\ forall j, j ∈ Candidates 0%Qc (PosteriorAt TiedPosterior 0) ->
       Preference (SetPriorPreference [1; 0] ThreeRaters)
         (DecidePixel 0%Qc (SetPriorPreference [1; 0] ThreeRaters)
            TiedPosterior 0)
       <= Preference (SetPriorPreference [1; 0] ThreeRaters) j.
Proof.
  assert (Hin : InsideMask (SetPriorPreference [1; 0] ThreeRaters) 0 = true)
    by reflexivity.
  assert (Htie : 1 < length (Candidates 0%Qc (PosteriorAt TiedPosterior 0)))
    by (vm_compute; lia).
  split; [exact Hin |]. split; [exact Htie |].
  pose proof (tie_goes_to_lowest_preference 0%Qc
                (SetPriorPreference [1; 0] ThreeRaters) TiedPosterior 0
                Hin Htie) as H.
  cbv zeta in H. destruct H as (Hmem & _ & Hmin & _).
  split; [exact Hmem | exact Hmin].
Defined.

Example tie_scenario_preference_0_1 :
  DecidePixel 0%Qc (SetPriorPreference [0; 1] ThreeRaters) TiedPosterior 0 = 0.
Proof. vm_compute. reflexivity. Qed.

Example tie_scenario_preference_1_0 :
  DecidePixel 0%Qc (SetPriorPreference [1; 0] ThreeRaters) TiedPosterior 0 = 1.
Proof. vm_compute. reflexivity. Qed.

Example tie_scenario_default_preference :
  DecidePixel 0%Qc ThreeRaters TiedPosterior 0 = 0.
Proof. vm_compute. reflexivity. Qed.

Lemma masked_pixel_copies_first_source_witness :
  InsideMask MaskedRaters 1 = false
  /\ (forall W, DecidePixel 0%Qc MaskedRaters W 1 = Label MaskedRaters 0 1)
  /\ (forall W s k j, Contribution MaskedRaters W s k j 1 = 0%Qc).
Proof.
  assert (Hout : InsideMask MaskedRaters 1 = false) by reflexivity.
  split; [exact Hout |].
  destruct (masked_pixel_copies_first_source 0%Qc MaskedRaters 1 Hout)
    as (Hdec & _ & Hcontrib & _).
  split; [exact Hdec | exact Hcontrib].
Defined.

Example masked_scenario :
  exists f', GenerateData SampleImplementation 1
               (SetMaximumNumberOfIterations 1 MaskedRaters) = Success f'
             /\ GetOutput f' = [0; 1].
Proof. eexists. split; vm_compute; reflexivity. Qed.


Example capped_run_reports_the_cap :
  exists f', GenerateData SampleImplementation 2
               (SetMaximumNumberOfIterations 2 ThreeRaters) = Success f'
             /\ GetElapsedIterations f' = 2
             /\ Converged f' = false
             /\ GetOutput f' = [0; 0; 1; 1].
Proof.
  eexists. split; [vm_compute; reflexivity |].
  split; [reflexivity |]. split; vm_compute; reflexivity.
Qed.

Example finished_run_reports_the_discovered_count :
  exists f', GenerateData SampleImplementation 2
               (SetMaximumNumberOfIterations 2 ThreeRaters) = Success f'
             /\ ComputeMaximumInputValue ThreeRaters = 1
             /\ GetNumberOfClasses f' = 2.
Proof.
  eexists. split; [vm_compute; reflexivity |]. split; reflexivity.
Qed.

Example label_at_declared_count_is_fatal :
  forall fuel,
    GenerateData SampleImplementation fuel (SetNumberOfClasses 1 ThreeRaters)
    = Failure LabelOutOfRangeError.
Proof. intros fuel. vm_compute. reflexivity. Qed.

(** Under majority-vote seeding a class that no source reports has an
    all-zero row of joint counts, and the seeding divides by its mass. *)
Example unseen_class_under_voting_seed :
  DiscoverNumberOfClasses (InputPixelTypeMax SampleImplementation)
    AgreeingRaters = inr 3
  /\ CheckConfiguration 3 AgreeingRaters = None
  /\ PrepareDefined SampleImplementation 3 AgreeingRaters = false
  /\ forall fuel,
       GenerateData SampleImplementation fuel AgreeingRaters = DivisionByZero.
Proof.
  split; [reflexivity |]. split; [reflexivity |].
  split; [vm_compute; reflexivity |]. intros fuel. vm_compute. reflexivity.
Qed.

Example uncapped_run_out_of_fuel :
  GenerateData SampleImplementation 1 ThreeRaters = OutOfFuel.
Proof. vm_compute. reflexivity. Qed.

Example mismatched_sizes_are_fatal :
  forall fuel,
    GenerateData SampleImplementation fuel
      (with_Inputs [[0; 1]; [0]] FreshFilter)
    = Failure ImageSizeMismatchError.
Proof. intros fuel. vm_compute. reflexivity. Qed.

Example all_masked_out_is_fatal :
  forall fuel,
    GenerateData SampleImplementation fuel
      (with_MaskImage (Some [0; 0]) MaskedRaters)
    = Failure AllMaskedOutError.
Proof. intros fuel. vm_compute. reflexivity. Qed.


Lemma entry_nonneg (M : list (list Qc)) :
  forallb (forallb (fun x => bool_decide (0 <= x)%Qc)) M = true ->
  forall k j, (0 <= entry M k j)%Qc.
Proof.
  intros H k j. unfold entry.
  destruct (decide (k < length M)) as [Hk | Hk];
    [| rewrite (nth_overflow M) by lia; destruct j; apply Qcle_refl].
  rewrite forallb_forall in H.
  specialize (H (nth k M []) (nth_In _ _ Hk)).
  destruct (decide (j < length (nth k M []))) as [Hj | Hj];
    [| rewrite nth_overflow by lia; apply Qcle_refl].
  rewrite forallb_forall in H. specialize (H _ (nth_In _ 0%Qc Hj)).
  now apply bool_decide_eq_true in H.
Qed.

Lemma SoftIdentity_2_nonneg (k j : nat) : (0 <= entry (SoftIdentity 2) k j)%Qc.
Proof. apply entry_nonneg. vm_compute. reflexivity. Qed.

Lemma SoftIdentity_2_pos (k j : nat) :
  k < 2 -> j < 2 -> (0 < entry (SoftIdentity 2) k j)%Qc.
Proof.
  intros Hk Hj.
  destruct k as [| [| k]]; destruct j as [| [| j]]; try lia; reflexivity.
Qed.

Lemma ThreeRaters_supported :
  SupportedState (Prepare SampleImplementation 2 ThreeRaters).
Proof.
  apply positive_seed_is_supported; try reflexivity.
  - apply SoftIdentity_2_nonneg.
  - apply SoftIdentity_2_pos.
Qed.





(** ** Sequences of configuration calls *)

Ltac open_filter f :=
  destruct f as [nc hpp hot hmi hpa hnc hpf pp pa ot cm ucm ps pf mu ei mi
                 gps tut mk imv mt ins out].

Ltac split_flags :=
  repeat match goal with
         | |- context [if ?b then _ else _] => is_var b; destruct b
         end.

Lemma GetParameter_call (p : OptionalParameter) (c : ConfigurationCall)
    (f : Filter) :
  GetParameter p (call c f)
  = match c with
    | CallSet v => if decide (parameter_of v = p) then v else GetParameter p f
    | _ => GetParameter p f
    end.
Proof.
  open_filter f. destruct c as [v | q |].
  - destruct v, p; reflexivity.
  - destruct q, p; cbv; split_flags; reflexivity.
  - destruct ps, p; reflexivity.
Qed.

Lemma Has_call (p : OptionalParameter) (c : ConfigurationCall) (f : Filter) :
  Has p (call c f)
  = match c with
    | CallSet v => if decide (parameter_of v = p) then true else Has p f
    | CallUnset q => if decide (q = p) then false else Has p f
    | CallClean => Has p f
    end.
Proof.
  open_filter f. destruct c as [v | q |].
  - destruct v, p; reflexivity.
  - destruct q, p; cbv; split_flags; reflexivity.
  - destruct ps, p; reflexivity.
Qed.

Lemma call_keeps (c : ConfigurationCall) (f : Filter) :
  results (call c f) = results f /\ settings (call c f) = settings f.
Proof.
  open_filter f. destruct c as [v | q |].
  - destruct v; split; reflexivity.
  - destruct q; cbv; split_flags; split; reflexivity.
  - destruct ps; split; reflexivity.
Qed.

Lemma call_time_stamp (c : ConfigurationCall) (f : Filter) :
  call c f = f \/ m_MTime (call c f) = S (m_MTime f).
Proof.
  open_filter f. destruct c as [v | q |].
  - right. destruct v; reflexivity.
  - destruct q; cbv; split_flags; auto.
  - destruct ps; cbn; auto.
Qed.

Lemma Configure_cons (c : ConfigurationCall) (cs : list ConfigurationCall)
    (f : Filter) :
  Configure (c :: cs) f = Configure cs (call c f).
Proof. reflexivity. Qed.

Lemma Configure_time_stamp_le (cs : list ConfigurationCall) :
  forall f, m_MTime f <= m_MTime (Configure cs f) <= m_MTime f + length cs.
Proof.
  induction cs as [| c cs IH]; intros f.
  - cbn. lia.
  - rewrite Configure_cons. specialize (IH (call c f)). cbn [length].
    destruct (call_time_stamp c f) as [Hc | Hc]; rewrite Hc in IH;
      rewrite ?Hc; lia.
Qed.

(** X1.  Whatever the filter held before, after a Set member the matching
    Get member returns the value just set and the presence flag is true;
    after the matching Unset member the flag is false and the Get member
    still returns that value. *)
Theorem SetParameter_then_GetParameter (v : ParameterValue) (f : Filter) :
  GetParameter (parameter_of v) (SetParameter v f) = v
  /\ Has (parameter_of v) (SetParameter v f) = true
  /\ GetParameter (parameter_of v) (Unset (parameter_of v) (SetParameter v f))
     = v
  /\ Has (parameter_of v) (Unset (parameter_of v) (SetParameter v f)) = false.
Proof.
  open_filter f. destruct v; repeat split; reflexivity.
Qed.

(** X2.  A Set member changes the value and the flag of no other parameter,
    none of the settings, none of the results of a run (so no confusion
    matrix) and not the probabilistic segmentations. *)
Theorem SetParameter_touches_own_parameter_only (v : ParameterValue)
    (f : Filter) :
  (forall q, q <> parameter_of v ->
     GetParameter q (SetParameter v f) = GetParameter q f
     /\ Has q (SetParameter v f) = Has q f)
  /\ other_flags (parameter_of v) (SetParameter v f)
     = other_flags (parameter_of v) f
  /\ settings (SetParameter v f) = settings f
  /\ results (SetParameter v f) = results f
  /\ (forall i, GetConfusionMatrix i (SetParameter v f)
                = GetConfusionMatrix i f)
  /\ GetProbabilisticSegmentationArray (SetParameter v f)
     = GetProbabilisticSegmentationArray f.
Proof.
  open_filter f. split; [| destruct v; repeat split; reflexivity].
  intros q Hq. destruct v, q; try (split; reflexivity); contradiction.
Qed.

(** X3.  A Set member advances the time stamp at every call, so it never
    returns the filter unchanged, also when the parameter already holds the
    value and its flag is set: then, as in a repeated call, everything but
    the time stamp stays as it is. *)
Theorem SetParameter_always_advances_time_stamp (v : ParameterValue)
    (f : Filter) :
  m_MTime f < m_MTime (SetParameter v f)
  /\ SetParameter v f <> f
  /\ (Has (parameter_of v) f = true ->
      GetParameter (parameter_of v) f = v ->
      contents (SetParameter v f) = contents f)
  /\ contents (SetParameter v (SetParameter v f)) = contents (SetParameter v f)
  /\ m_MTime (SetParameter v f) < m_MTime (SetParameter v (SetParameter v f)).
Proof.
  assert (Ht : forall g, m_MTime (SetParameter v g) = S (m_MTime g)).
  { intros g. open_filter g. destruct v; reflexivity. }
  split; [rewrite Ht; lia |]. split.
  { intros Heq. specialize (Ht f). rewrite Heq in Ht. lia. }
  split; [| split; [| rewrite (Ht (SetParameter v f)); lia]].
  - open_filter f. destruct v; cbn; intros -> [= ->]; reflexivity.
  - open_filter f. destruct v; reflexivity.
Qed.

(** X4.  Two calls among the Set members, the Unset members and
    [CleanProbabilisticSegmentations] that act on different parameters (or
    one on a parameter and the other on the probabilistic segmentations)
    commute: both orders end in the same filter, time stamp included. *)
Theorem calls_on_different_targets_commute (c1 c2 : ConfigurationCall)
    (f : Filter) :
  target c1 <> target c2 ->
  call c1 (call c2 f) = call c2 (call c1 f).
Proof.
  intros Hne. open_filter f.
  destruct c1 as [v1 | p1 |], c2 as [v2 | p2 |];
    try (exfalso; apply Hne; reflexivity).
  - destruct v1, v2; try reflexivity; exfalso; apply Hne; reflexivity.
  - destruct v1, p2; try (exfalso; apply Hne; reflexivity);
      cbv; split_flags; reflexivity.
  - destruct v1, ps; reflexivity.
  - destruct p1, v2; try (exfalso; apply Hne; reflexivity);
      cbv; split_flags; reflexivity.
  - destruct p1, p2; try (exfalso; apply Hne; reflexivity);
      cbv; split_flags; reflexivity.
  - destruct p1, ps; cbv; split_flags; reflexivity.
  - destruct v2, ps; reflexivity.
  - destruct p2, ps; cbv; split_flags; reflexivity.
Qed.

(** X5.  Calling the same member twice with the same argument leaves the
    filter as after the first call, up to the time stamp; for the Unset
    members and [CleanProbabilisticSegmentations] the second call changes
    nothing at all. *)
Theorem repeated_call_changes_time_stamp_at_most (c : ConfigurationCall)
    (f : Filter) :
  contents (call c (call c f)) = contents (call c f)
  /\ ((forall v, c <> CallSet v) -> call c (call c f) = call c f)
  /\ CleanProbabilisticSegmentations (CleanProbabilisticSegmentations f)
     = CleanProbabilisticSegmentations f.
Proof.
  open_filter f. split; [| split].
  - destruct c as [v | p |].
    + destruct v; reflexivity.
    + destruct p; cbv; split_flags; reflexivity.
    + destruct ps; reflexivity.
  - intros Hc. destruct c as [v | p |].
    + now destruct (Hc v).
    + destruct p; cbv; split_flags; reflexivity.
    + destruct ps; reflexivity.
  - destruct ps; reflexivity.
Qed.

(** X6.  No sequence of Set, Unset and Clean calls changes a result of the
    last run or a setting: the output image, every confusion matrix, the
    elapsed iterations and the largest update read as before, and so do the
    threshold, the mask, the switches and the inputs. *)
Theorem Configure_keeps_results_and_settings (cs : list ConfigurationCall)
    (f : Filter) :
  results (Configure cs f) = results f
  /\ settings (Configure cs f) = settings f
  /\ GetOutput (Configure cs f) = GetOutput f
  /\ (forall i, GetConfusionMatrix i (Configure cs f) = GetConfusionMatrix i f)
  /\ GetElapsedIterations (Configure cs f) = GetElapsedIterations f
  /\ GetMaximumConfusionMatrixElementUpdate (Configure cs f)
     = GetMaximumConfusionMatrixElementUpdate f.
Proof.
  assert (H : results (Configure cs f) = results f
              /\ settings (Configure cs f) = settings f).
  { revert f. induction cs as [| c cs IH]; intros f; [split; reflexivity |].
    rewrite Configure_cons. destruct (IH (call c f)) as [-> ->].
    apply call_keeps. }
  destruct H as [Hr Hs]. split; [exact Hr |]. split; [exact Hs |].
  unfold results in Hr. injection Hr as Ho Hcm Hucm Hmu Hei.
  unfold GetOutput, GetConfusionMatrix, GetElapsedIterations,
    GetMaximumConfusionMatrixElementUpdate.
  rewrite Ho, Hcm, Hei, Hmu. repeat split; reflexivity.
Qed.

(** X7.  Over a sequence of Set, Unset and Clean calls the time stamp never
    decreases, and it is the same at the end exactly when the filter is the
    same at the end, which is exactly when the filter was the same after
    every call of the sequence: no change goes without a new time stamp. *)
Theorem time_stamp_moves_iff_a_call_took_effect
    (cs : list ConfigurationCall) (f : Filter) :
  m_MTime f <= m_MTime (Configure cs f)
  /\ (m_MTime (Configure cs f) = m_MTime f <-> Configure cs f = f)
  /\ (m_MTime (Configure cs f) = m_MTime f <->
      forall n, Configure (take n cs) f = f).
Proof.
  split; [apply Configure_time_stamp_le |].
  assert (Hfix : forall cs f,
             m_MTime (Configure cs f) = m_MTime f ->
             forall n, Configure (take n cs) f = f).
  { clear. induction cs as [| c cs IH]; intros f Ht n.
    - now rewrite take_nil.
    - destruct n as [| n]; [reflexivity |].
      rewrite Configure_cons in Ht. cbn [take]. rewrite Configure_cons.
      pose proof (Configure_time_stamp_le cs (call c f)) as Hle.
      destruct (call_time_stamp c f) as [Hc | Hc].
      + rewrite Hc in *. now apply IH.
      + lia. }
  split; split.
  - intros Ht. specialize (Hfix cs f Ht (length cs)).
    now rewrite firstn_all in Hfix.
  - now intros ->.
  - apply Hfix.
  - intros Hall. specialize (Hall (length cs)).
    rewrite firstn_all in Hall. now rewrite Hall.
Qed.

(** X8.  After a sequence of calls, the Get member of a parameter returns
    the argument of the last Set call for that parameter in the sequence,
    and the value held before the sequence if there is none: Unset and Clean
    calls, and Set calls for other parameters, never alter a stored value. *)
Theorem last_Set_decides_the_stored_value (p : OptionalParameter)
    (cs : list ConfigurationCall) (f : Filter) :
  GetParameter p (Configure cs f)
  = match last_set p cs with
    | Some v => v
    | None => GetParameter p f
    end.
Proof.
  revert f. induction cs as [| c cs IH]; intros f; [reflexivity |].
  rewrite Configure_cons, IH. cbn [last_set].
  destruct (last_set p cs) as [v |]; [reflexivity |].
  rewrite GetParameter_call. destruct c as [v | q |]; try reflexivity.
  destruct (decide (parameter_of v = p)); reflexivity.
Qed.

(** X9.  After a sequence of calls, the presence flag of a parameter is true
    if the last call acting on that parameter was its Set member, false if
    it was its Unset member, and as before the sequence if no call acted on
    the parameter. *)
Theorem last_call_decides_the_flag (p : OptionalParameter)
    (cs : list ConfigurationCall) (f : Filter) :
  Has p (Configure cs f)
  = match last_call_on p cs with
    | Some (CallSet _) => true
    | Some (CallUnset _) => false
    | _ => Has p f
    end.
Proof.
  assert (Hcl : forall cs, last_call_on p cs <> Some CallClean).
  { clear. induction cs as [| c cs IH]; [discriminate |]. cbn.
    destruct (last_call_on p cs) as [c' |]; [exact IH |].
    destruct (decide (target c = Some p)) as [Ht |]; [| discriminate].
    intros [= ->]. discriminate. }
  revert f. induction cs as [| c cs IH]; intros f; [reflexivity |].
  rewrite Configure_cons, IH. cbn [last_call_on].
  destruct (last_call_on p cs) as [c' |] eqn:Hl;
    [destruct c'; try reflexivity; now destruct (Hcl cs) |].
  rewrite Has_call. destruct c as [v | q |]; cbn [target].
  - destruct (decide (parameter_of v = p)) as [-> |];
      destruct (decide _) as [He |]; try reflexivity; try congruence.
  - destruct (decide (q = p)) as [-> |];
      destruct (decide _) as [He |]; try reflexivity; try congruence.
  - destruct (decide _) as [He |]; [discriminate | reflexivity].
Qed.

(** ** pxreshape: size translation, dispatch and exit status *)

Lemma TranslateSizeFrom_in_bounds (VDimension : nat) (rest : list nat) :
  forall i size,
    i + length rest <= VDimension ->
    exists size',
      TranslateSizeFrom VDimension i rest size = Some size'
      /\ forall j, size' j
                   = if bool_decide (i <= j < i + length rest)
                     then nth (j - i) rest 0
                     else size j.
Proof.
  induction rest as [| v rest IH]; intros i size Hle.
  - exists size. split; [reflexivity |]. intros j.
    rewrite bool_decide_eq_false_2; [reflexivity |]. cbn. lia.
  - cbn [length] in Hle. cbn [TranslateSizeFrom]. unfold SizeType_write.
    rewrite bool_decide_eq_true_2 by lia.
    destruct (IH (S i) (fun j => if bool_decide (j = i) then v else size j))
      as (size' & Hrun & Hsize'); [lia |].
    exists size'. split; [exact Hrun |]. intros j. rewrite Hsize'.
    cbn [length].
    destruct (decide (j = i)) as [-> | Hji].
    + rewrite bool_decide_eq_false_2 by lia.
      rewrite bool_decide_eq_true_2 by reflexivity.
      rewrite bool_decide_eq_true_2 by lia.
      now rewrite Nat.sub_diag.
    + rewrite (bool_decide_eq_false_2 (j = i)) by exact Hji.
      destruct (decide (S i <= j < S i + length rest)) as [Hin | Hout].
      * rewrite !bool_decide_eq_true_2 by lia.
        replace (j - i) with (S (j - S i)) by lia. reflexivity.
      * rewrite !bool_decide_eq_false_2 by lia. reflexivity.
Qed.

Lemma TranslateSizeFrom_out_of_bounds (VDimension : nat) (rest : list nat) :
  forall i size,
    VDimension < i + length rest -> rest <> [] ->
    TranslateSizeFrom VDimension i rest size = None.
Proof.
  induction rest as [| v rest IH]; intros i size Hlt Hne; [done |].
  cbn [TranslateSizeFrom]. unfold SizeType_write.
  destruct (decide (i < VDimension)) as [Hi | Hi].
  - rewrite bool_decide_eq_true_2 by exact Hi.
    apply IH; [cbn [length] in Hlt; lia |].
    destruct rest; [cbn in Hlt; lia | done].
  - now rewrite bool_decide_eq_false_2 by exact Hi.
Qed.

Lemma SizeType_entries_translated (VDimension : nat) (out : list nat)
    (size size' : nat -> nat) :
  length out <= VDimension ->
  (forall j, size' j = if bool_decide (0 <= j < 0 + length out)
                       then nth (j - 0) out 0 else size j) ->
  SizeType_entries VDimension size'
  = out ++ map size (seq (length out) (VDimension - length out)).
Proof.
  intros Hle Hsize'. unfold SizeType_entries.
  replace VDimension with (length out + (VDimension - length out)) at 1 by lia.
  rewrite seq_app, map_app. f_equal.
  - apply nth_ext with (d := 0) (d' := 0).
    + now rewrite length_map, length_seq.
    + intros n Hn. rewrite length_map, length_seq in Hn.
      rewrite (nth_indep _ 0 (size' 0)) by now rewrite length_map, length_seq.
      rewrite map_nth, seq_nth by exact Hn. cbn [Nat.add].
      rewrite Hsize', bool_decide_eq_true_2 by lia. now rewrite Nat.sub_0_r.
  - apply map_ext_in. intros j Hj. apply in_seq in Hj.
    rewrite Hsize', bool_decide_eq_false_2 by lia. reflexivity.
Qed.

(** X10.  The loop of [Run] that copies [m_OutputSize] into the
    [VDimension]-entry [SizeType] stays inside the array exactly when the
    vector has at most [VDimension] entries.  It then holds the vector's
    entries followed by what the uninitialised array held in the remaining
    places; with exactly [VDimension] entries it is the vector. *)
Theorem TranslateSize_in_bounds_iff (VDimension : nat)
    (m_OutputSize : list nat) (size : nat -> nat) :
  (is_Some (TranslateSize VDimension m_OutputSize size)
   <-> length m_OutputSize <= VDimension)
  /\ (forall size',
        TranslateSize VDimension m_OutputSize size = Some size' ->
        SizeType_entries VDimension size'
        = m_OutputSize
          ++ map size (seq (length m_OutputSize)
                           (VDimension - length m_OutputSize)))
  /\ (length m_OutputSize = VDimension ->
      exists size',
        TranslateSize VDimension m_OutputSize size = Some size'
        /\ SizeType_entries VDimension size' = m_OutputSize).
Proof.
  unfold TranslateSize.
  assert (Hin : length m_OutputSize <= VDimension ->
                exists size',
                  TranslateSizeFrom VDimension 0 m_OutputSize size = Some size'
                  /\ SizeType_entries VDimension size'
                     = m_OutputSize
                       ++ map size (seq (length m_OutputSize)
                                        (VDimension - length m_OutputSize))).
  { intros Hle.
    destruct (TranslateSizeFrom_in_bounds VDimension m_OutputSize 0 size)
      as (size' & Hrun & Hsize'); [lia |].
    exists size'. split; [exact Hrun |].
    now apply SizeType_entries_translated. }
  split; [split |split].
  - intros [size' Hrun].
    destruct (decide (length m_OutputSize <= VDimension)) as [| Hgt]; [done |].
    rewrite TranslateSizeFrom_out_of_bounds in Hrun; [done | lia |].
    destruct m_OutputSize; [cbn in Hgt; lia | done].
  - intros Hle. destruct (Hin Hle) as (size' & -> & _). now eexists.
  - intros size' Hrun.
    destruct (decide (length m_OutputSize <= VDimension)) as [Hle | Hgt].
    + destruct (Hin Hle) as (size'' & Hrun' & Hent). congruence.
    + rewrite TranslateSizeFrom_out_of_bounds in Hrun; [done | lia |].
      destruct m_OutputSize; [cbn in Hgt; lia | done].
  - intros Heq. destruct Hin as (size' & Hrun & Hent); [lia |].
    exists size'. split; [exact Hrun |].
    rewrite Hent, Heq, Nat.sub_diag. cbn. apply app_nil_r.
Qed.

Lemma New_Some (E : Environment) (T : TComponentType) (D : nat)
    (ct : ComponentType E) (dim : nat) (TD : TComponentType * nat) :
  New E T D ct dim = Some TD <->
  TD = (T, D) /\ IsType E T ct = true /\ D = dim.
Proof.
  unfold New. destruct (IsType E T ct); cbn.
  - destruct (decide (D = dim)) as [Hd | Hd].
    + rewrite bool_decide_eq_true_2 by exact Hd. split.
      * intros [= <-]. done.
      * intros (-> & _ & _). done.
    + rewrite bool_decide_eq_false_2 by exact Hd. split; [done |].
      intros (_ & _ & ?). done.
  - split; [done |]. intros (_ & ? & _). done.
Qed.

Lemma New_None (E : Environment) (T : TComponentType) (D : nat)
    (ct : ComponentType E) (dim : nat) :
  New E T D ct dim = None <-> IsType E T ct = false \/ D <> dim.
Proof.
  unfold New. destruct (IsType E T ct); cbn.
  - destruct (decide (D = dim)) as [Hd | Hd].
    + rewrite bool_decide_eq_true_2 by exact Hd. split; [done |].
      intros [? | ?]; done.
    + rewrite bool_decide_eq_false_2 by exact Hd. split; [auto | done].
  - split; [auto | done].
Qed.

Lemma chain_Some (E : Environment) (ct : ComponentType E) (dim : nat)
    (l : list (TComponentType * nat)) (x : TComponentType * nat) :
  fold_left (TryInstantiation E ct dim) l (Some x) = Some x.
Proof. induction l as [| TD l IH]; [reflexivity | exact IH]. Qed.

Lemma chain_None (E : Environment) (ct : ComponentType E) (dim : nat)
    (l : list (TComponentType * nat)) :
  fold_left (TryInstantiation E ct dim) l None = None <->
  Forall (fun TD => New E TD.1 TD.2 ct dim = None) l.
Proof.
  induction l as [| TD l IH]; [split; [constructor | reflexivity] |].
  cbn [fold_left TryInstantiation].
  destruct (New E TD.1 TD.2 ct dim) as [x |] eqn:Hnew.
  - rewrite chain_Some. split; [done |].
    intros Hall. apply Forall_cons in Hall as [Hh _]. congruence.
  - rewrite IH. split.
    + intros Hall. now constructor.
    + intros Hall. now apply Forall_cons in Hall as [_ Ht].
Qed.

Lemma chain_first (E : Environment) (ct : ComponentType E) (dim : nat)
    (l : list (TComponentType * nat)) (x : TComponentType * nat) :
  fold_left (TryInstantiation E ct dim) l None = Some x <->
  exists l1 l2,
    l = l1 ++ x :: l2
    /\ Forall (fun TD => New E TD.1 TD.2 ct dim = None) l1
    /\ New E x.1 x.2 ct dim = Some x.
Proof.
  induction l as [| TD l IH].
  - split; [done |]. intros (l1 & l2 & Hl & _). now destruct l1.
  - cbn [fold_left TryInstantiation].
    destruct (New E TD.1 TD.2 ct dim) as [y |] eqn:Hnew.
    + rewrite chain_Some.
      assert (y = TD) as ->.
      { apply New_Some in Hnew as [-> _]. now destruct TD. }
      split.
      * intros [= <-]. exists [], l. repeat split; [constructor | exact Hnew].
      * intros (l1 & l2 & Hl & Hall & Hx). destruct l1 as [| z l1].
        -- now injection Hl as -> _.
        -- injection Hl as <- _. apply Forall_cons in Hall as [Hz _].
           congruence.
    + rewrite IH. split.
      * intros (l1 & l2 & -> & Hall & Hx). exists (TD :: l1), l2.
        repeat split; [now constructor | exact Hx].
      * intros (l1 & l2 & Hl & Hall & Hx). destruct l1 as [| z l1].
        -- injection Hl as -> _. congruence.
        -- injection Hl as <- ->. apply Forall_cons in Hall as [_ Hall].
           now exists l1, l2.
Qed.

Lemma Instantiations_dimension (support3D : bool) (T : TComponentType)
    (D : nat) :
  (T, D) ∈ Instantiations support3D <->
  D = 2 \/ (D = 3 /\ support3D = true).
Proof.
  rewrite list_elem_of_In. split.
  - destruct support3D; cbn; intros H;
      repeat (destruct H as [[= <- <-] | H]; [auto |]); done.
  - intros [-> | [-> ->]]; destruct T; cbn; tauto.
Qed.

Lemma Dispatch_Some (E : Environment) (ct : ComponentType E) (dim : nat)
    (T : TComponentType) (D : nat) :
  Dispatch E ct dim = Some (T, D) ->
  D = dim /\ IsType E T ct = true
  /\ (dim = 2 \/ (dim = 3 /\ ITKTOOLS_3D_SUPPORT E = true)).
Proof.
  unfold Dispatch. rewrite chain_first.
  intros (l1 & l2 & Hl & _ & Hx). apply New_Some in Hx as (_ & Ht & Hd).
  cbn in Ht, Hd. subst D. repeat split; [exact Ht |].
  apply (Instantiations_dimension _ T). rewrite Hl.
  apply elem_of_app. right. left.
Qed.

(** X11.  The chain of [if (!reshape) reshape = ...::New(...)] lines yields
    the instantiation <T, D> exactly when [IsType<T>] accepts the component
    type, D is the image dimension, and no instantiation tried before it in
    the order of the source matches. *)
Theorem Dispatch_takes_first_match (E : Environment) (ct : ComponentType E)
    (dim : nat) (T : TComponentType) (D : nat) :
  Dispatch E ct dim = Some (T, D) <->
  exists l1 l2,
    Instantiations (ITKTOOLS_3D_SUPPORT E) = l1 ++ (T, D) :: l2
    /\ Forall (fun TD => IsType E TD.1 ct = false \/ TD.2 <> dim) l1
    /\ IsType E T ct = true
    /\ D = dim.
Proof.
  unfold Dispatch. rewrite chain_first. split.
  - intros (l1 & l2 & Hl & Hall & Hx). exists l1, l2.
    apply New_Some in Hx as (_ & Ht & Hd). repeat split; try done.
    eapply Forall_impl; [exact Hall |]. intros TD. apply New_None.
  - intros (l1 & l2 & Hl & Hall & Ht & Hd). exists l1, l2.
    repeat split; [exact Hl | |].
    + eapply Forall_impl; [exact Hall |]. intros TD. apply New_None.
    + apply New_Some. done.
Qed.

Lemma Dispatch_None (E : Environment) (ct : ComponentType E) (dim : nat) :
  Dispatch E ct dim = None <->
  (forall T, IsType E T ct = false)
  \/ (dim <> 2 /\ (dim <> 3 \/ ITKTOOLS_3D_SUPPORT E = false)).
Proof.
  unfold Dispatch. rewrite chain_None, Forall_forall. split.
  - intros Hall.
    destruct (decide (dim = 2 \/ (dim = 3 /\ ITKTOOLS_3D_SUPPORT E = true)))
      as [Hd | Hd].
    + left. intros T.
      assert (Hin : (T, dim) ∈ Instantiations (ITKTOOLS_3D_SUPPORT E))
        by now apply Instantiations_dimension.
      apply Hall, New_None in Hin. cbn in Hin. destruct Hin; done.
    + right. split; [intros ->; apply Hd; auto |].
      destruct (decide (dim = 3)) as [Hd3 |]; [| auto]. right.
      destruct (ITKTOOLS_3D_SUPPORT E) eqn:Hs; [| reflexivity].
      exfalso. apply Hd. auto.
  - intros Hcase [T D] Hin. apply New_None. cbn.
    destruct Hcase as [Hno | [Hd2 Hd3]]; [left; apply Hno |].
    right. apply Instantiations_dimension in Hin.
    destruct Hin as [-> | [-> Hs]]; [done |].
    destruct Hd3 as [? | Hs']; [done | congruence].
Qed.

(** X12.  The chain leaves the null pointer exactly when [IsType] accepts
    the component type for none of the ten types, or the image dimension is
    neither 2 nor, in a build with ITKTOOLS_3D_SUPPORT, 3.  An instantiation
    it yields has the image dimension, which then is 2, or 3 with 3D
    support, and a type [IsType] accepts. *)
Theorem Dispatch_fails_iff_unsupported (E : Environment)
    (ct : ComponentType E) (dim : nat) :
  (Dispatch E ct dim = None <->
   (forall T, IsType E T ct = false)
   \/ (dim <> 2 /\ (dim <> 3 \/ ITKTOOLS_3D_SUPPORT E = false)))
  /\ (forall T D, Dispatch E ct dim = Some (T, D) ->
        D = dim /\ IsType E T ct = true
        /\ (dim = 2 \/ (dim = 3 /\ ITKTOOLS_3D_SUPPORT E = true))).
Proof.
  split; [apply Dispatch_None |]. intros T D. apply Dispatch_Some.
Qed.

Lemma Run_cases (E : Environment) (T : TComponentType) (VDimension : nat)
    (this : ITKToolsReshapeBase) :
  (length (m_OutputSize this) <= VDimension
   /\ Run E T VDimension this
      = if Pipeline E T VDimension (m_InputFileName this)
             (m_OutputFileName this)
             (m_OutputSize this
              ++ map (Indeterminate E)
                     (seq (length (m_OutputSize this))
                          (VDimension - length (m_OutputSize this))))
        then Threw else Completed)
  \/ (VDimension < length (m_OutputSize this)
      /\ Run E T VDimension this = OutOfBounds).
Proof.
  unfold Run, TranslateSize.
  destruct (decide (length (m_OutputSize this) <= VDimension)) as [Hle | Hgt].
  - left. split; [exact Hle |].
    destruct (TranslateSizeFrom_in_bounds VDimension (m_OutputSize this) 0
                (Indeterminate E)) as (size' & -> & Hsize'); [lia |].
    now rewrite (SizeType_entries_translated VDimension (m_OutputSize this)
                   (Indeterminate E) size' Hle Hsize').
  - right. split; [lia |].
    rewrite TranslateSizeFrom_out_of_bounds; [reflexivity | lia |].
    destruct (m_OutputSize this); [cbn in Hgt; lia | done].
Qed.

(** X13.  If [main] does not return 1, then help was requested, or the
    required arguments were given, the image properties were read, the image
    has one component, -s has as many entries as the image's size vector,
    the dimension is 2 (or 3 with 3D support) and an instantiation accepted
    the component type; if moreover -s has no more entries than the
    dimension, so that the loop of [Run] stays inside the [SizeType], then
    [main] returns 0 and the pipeline ran without exception from the input
    file to the output file, with the sizes of -s followed by indeterminate
    entries up to the dimension. *)
Theorem main_success_only_after_reshaping (E : Environment) :
  let props := GetImageProperties E (inputFilename E) in
  main E <> Exit 1 ->
  CheckForRequiredArguments E = HELPREQUESTED
  \/ (CheckForRequiredArguments E = PASSED
      /\ retgip props = 0%Z
      /\ NumberOfComponents props <= 1
      /\ length (outputSize E) = length (inputSize props)
      /\ (Dimension props = 2
          \/ (Dimension props = 3 /\ ITKTOOLS_3D_SUPPORT E = true))
      /\ exists T,
           IsType E T (GetImageComponentType E (inputFilename E)) = true
           /\ (length (outputSize E) <= Dimension props ->
               main E = Exit 0
               /\ Pipeline E T (Dimension props) (inputFilename E)
                    (outputFilename E)
                    (outputSize E
                     ++ map (Indeterminate E)
                            (seq (length (outputSize E))
                                 (Dimension props - length (outputSize E))))
                  = false)).
Proof.
  intros props. unfold main. fold props.
  destruct (CheckForRequiredArguments E); [| done | auto].
  destruct (bool_decide_reflect (retgip props <> 0%Z)) as [| Hret];
    [done |].
  destruct (bool_decide_reflect (1 < NumberOfComponents props)) as [| Hnc];
    [done |].
  destruct (bool_decide_reflect
              (length (inputSize props) <> length (outputSize E)))
    as [| Hlen]; [done |].
  destruct (Dispatch E _ _) as [[T D] |] eqn:Hd; [| done].
  apply Dispatch_Some in Hd as (-> & Ht & Hdim).
  intros Hexit. right.
  split; [reflexivity |].
  split; [destruct (decide (retgip props = 0%Z)); [done | contradiction] |].
  split; [lia |].
  split; [lia |].
  split; [exact Hdim |].
  exists T. split; [exact Ht |]. intros Hle.
  match type of Hexit with context [Run E T ?D ?r] =>
    destruct (Run_cases E T D r) as [[_ Hrun] | [Hgt _]];
      [| cbn [m_OutputSize] in Hgt; lia]
  end.
  rewrite Hrun in Hexit |- *.
  cbn [m_OutputSize m_InputFileName m_OutputFileName] in *.
  destruct (Pipeline _ _ _ _ _ _) eqn:Hp; [done | done].
Qed.

(** X14.  Unless help is requested, [main] returns 1, whatever the pipeline
    would do, when the required arguments are missing, the image properties
    cannot be read, the image has more than one component, -s and the
    image's size vector differ in length, no component type is accepted, or
    the dimension is not supported. *)
Theorem main_rejects_without_running (E : Environment) :
  let props := GetImageProperties E (inputFilename E) in
  CheckForRequiredArguments E <> HELPREQUESTED ->
  CheckForRequiredArguments E = FAILED
  \/ retgip props <> 0%Z
  \/ 1 < NumberOfComponents props
  \/ length (inputSize props) <> length (outputSize E)
  \/ (forall T,
        IsType E T (GetImageComponentType E (inputFilename E)) = false)
  \/ (Dimension props <> 2
      /\ (Dimension props <> 3 \/ ITKTOOLS_3D_SUPPORT E = false)) ->
  main E = Exit 1.
Proof.
  intros props Hhelp Hcase. unfold main. fold props.
  destruct (CheckForRequiredArguments E); [| reflexivity | done].
  destruct (bool_decide_reflect (retgip props <> 0%Z)) as [| Hret];
    [reflexivity |].
  destruct (bool_decide_reflect (1 < NumberOfComponents props)) as [| Hnc];
    [reflexivity |].
  destruct (bool_decide_reflect
              (length (inputSize props) <> length (outputSize E)))
    as [| Hlen]; [reflexivity |].
  destruct Hcase as [? | [? | [? | [? | Hcase]]]]; try done.
  apply (proj2 (Dispatch_None E _ _)) in Hcase.
  now rewrite Hcase.
Qed.

(** X15.  [main] runs into the out-of-bounds write of [Run] exactly when all
    its checks pass and a supported instantiation is found, but -s (and with
    it the size vector reported for the image) has more entries than the
    image dimension. *)
Theorem main_out_of_bounds_iff (E : Environment) :
  let props := GetImageProperties E (inputFilename E) in
  main E = UndefinedBehaviour <->
  CheckForRequiredArguments E = PASSED
  /\ retgip props = 0%Z
  /\ NumberOfComponents props <= 1
  /\ length (inputSize props) = length (outputSize E)
  /\ Dimension props < length (outputSize E)
  /\ (exists T,
        IsType E T (GetImageComponentType E (inputFilename E)) = true)
  /\ (Dimension props = 2
      \/ (Dimension props = 3 /\ ITKTOOLS_3D_SUPPORT E = true)).
Proof.
  intros props. unfold main. fold props. split.
  - destruct (CheckForRequiredArguments E); [| discriminate | discriminate].
    destruct (bool_decide_reflect (retgip props <> 0%Z)) as [| Hret];
      [discriminate |].
    destruct (bool_decide_reflect (1 < NumberOfComponents props)) as [| Hnc];
      [discriminate |].
    destruct (bool_decide_reflect
                (length (inputSize props) <> length (outputSize E)))
      as [| Hlen]; [discriminate |].
    destruct (Dispatch E _ _) as [[T D] |] eqn:Hd; [| discriminate].
    apply Dispatch_Some in Hd as (-> & Ht & Hdim).
    match goal with |- context [Run E T ?D ?r] =>
      destruct (Run_cases E T D r) as [[Hle ->] | [Hgt ->]]
    end.
    + destruct (Pipeline _ _ _ _ _ _); discriminate.
    + cbn [m_OutputSize] in Hgt. intros _.
      split; [reflexivity |].
      split; [destruct (decide (retgip props = 0%Z)); [done | contradiction] |].
      split; [lia |].
      split; [lia |].
      split; [exact Hgt |].
      split; [exists T; exact Ht | exact Hdim].
  - intros (-> & Hret & Hnc & Hlen & Hgt & [T Ht] & Hdim).
    rewrite bool_decide_eq_false_2 by (intros Hne; now apply Hne).
    rewrite bool_decide_eq_false_2 by lia.
    rewrite bool_decide_eq_false_2 by (intros Hne; now apply Hne).
    destruct (Dispatch E _ _) as [[T' D] |] eqn:Hd.
    + apply Dispatch_Some in Hd as (-> & _ & _).
      match goal with |- context [Run E T' ?D ?r] =>
        destruct (Run_cases E T' D r) as [[Hle _] | [_ ->]]
      end; [cbn [m_OutputSize] in Hle; lia | reflexivity].
    + apply Dispatch_None in Hd as [Hno | [Hd2 Hd3]].
      * rewrite Hno in Ht. discriminate.
      * exfalso. destruct Hdim as [? | [? Hs]]; [done |].
        destruct Hd3 as [? | Hs']; [done | congruence].
Qed.

(** X16.  When the size vector reported for the image has as many entries
    as the image dimension, [main] always ends with exit code 0 or 1, and a
    run that returns 0 on given arguments handed the reshaper exactly the
    sizes of -s, as many as the dimension. *)
Theorem main_translates_the_whole_size (E : Environment) :
  let props := GetImageProperties E (inputFilename E) in
  length (inputSize props) = Dimension props ->
  (exists code, main E = Exit code /\ (code = 0 \/ code = 1)%Z)
  /\ (CheckForRequiredArguments E = PASSED ->
      main E = Exit 0 ->
      exists T,
        IsType E T (GetImageComponentType E (inputFilename E)) = true
        /\ length (outputSize E) = Dimension props
        /\ Pipeline E T (Dimension props) (inputFilename E)
             (outputFilename E) (outputSize E)
           = false).
Proof.
  intros props Hsize. unfold main. fold props.
  destruct (CheckForRequiredArguments E);
    [| split; [exists 1%Z; auto | discriminate]
     | split; [exists 0%Z; auto | discriminate]].
  destruct (bool_decide_reflect (retgip props <> 0%Z)) as [| Hret];
    [split; [exists 1%Z; auto | discriminate] |].
  destruct (bool_decide_reflect (1 < NumberOfComponents props)) as [| Hnc];
    [split; [exists 1%Z; auto | discriminate] |].
  destruct (bool_decide_reflect
              (length (inputSize props) <> length (outputSize E)))
    as [| Hlen]; [split; [exists 1%Z; auto | discriminate] |].
  assert (Hout : length (outputSize E) = Dimension props) by lia.
  destruct (Dispatch E _ _) as [[T D] |] eqn:Hd;
    [| split; [exists 1%Z; auto | discriminate]].
  apply Dispatch_Some in Hd as (-> & Ht & Hdim).
  match goal with |- context [Run E T ?D ?r] =>
    destruct (Run_cases E T D r) as [[Hle ->] | [Hgt _]]
  end; [| cbn [m_OutputSize] in Hgt; lia].
  cbn [m_OutputSize m_InputFileName m_OutputFileName].
  rewrite Hout, Nat.sub_diag. cbn [seq map]. rewrite app_nil_r.
  destruct (Pipeline _ _ _ _ _ _) eqn:Hp.
  - split; [exists 1%Z; auto | discriminate].
  - split; [exists 0%Z; auto |]. intros _ _. exists T. auto.
Qed.

(** ** Configuration calls and pxreshape on sample inputs *)

Lemma SetParameter_touches_own_parameter_only_witness :
  PriorPreference <> parameter_of (NumberOfClassesValue 3)
  /\ GetParameter PriorPreference
       (SetParameter (NumberOfClassesValue 3) ThreeRaters)
     = GetParameter PriorPreference ThreeRaters
  /\ Has PriorPreference (SetParameter (NumberOfClassesValue 3) ThreeRaters)
     = Has PriorPreference ThreeRaters.
Proof.
  assert (Hq : PriorPreference <> parameter_of (NumberOfClassesValue 3))
    by discriminate.
  split; [exact Hq |].
  exact (proj1 (SetParameter_touches_own_parameter_only
                  (NumberOfClassesValue 3) ThreeRaters)
           PriorPreference Hq).
Defined.

Lemma SetParameter_always_advances_time_stamp_witness :
  Has NumberOfClasses (SetNumberOfClasses 3 ThreeRaters) = true
  /\ GetParameter NumberOfClasses (SetNumberOfClasses 3 ThreeRaters)
     = NumberOfClassesValue 3
  /\ contents (SetParameter (NumberOfClassesValue 3)
                 (SetNumberOfClasses 3 ThreeRaters))
     = contents (SetNumberOfClasses 3 ThreeRaters)
  /\ SetParameter (NumberOfClassesValue 3) (SetNumberOfClasses 3 ThreeRaters)
     <> SetNumberOfClasses 3 ThreeRaters.
Proof.
  assert (Hflag : Has NumberOfClasses (SetNumberOfClasses 3 ThreeRaters)
                  = true) by reflexivity.
  assert (Hval : GetParameter NumberOfClasses (SetNumberOfClasses 3 ThreeRaters)
                 = NumberOfClassesValue 3) by reflexivity.
  split; [exact Hflag |]. split; [exact Hval |].
  destruct (SetParameter_always_advances_time_stamp (NumberOfClassesValue 3)
              (SetNumberOfClasses 3 ThreeRaters))
    as (_ & Hne & Hsame & _).
  split; [exact (Hsame Hflag Hval) | exact Hne].
Defined.

Lemma calls_on_different_targets_commute_witness :
  target (CallSet (MaximumNumberOfIterationsValue 5))
  <> target (CallUnset PriorProbabilities)
  /\ call (CallSet (MaximumNumberOfIterationsValue 5))
       (call (CallUnset PriorProbabilities)
          (SetPriorProbabilities [Q2Qc (1 # 2); Q2Qc (1 # 2)] ThreeRaters))
     = call (CallUnset PriorProbabilities)
         (call (CallSet (MaximumNumberOfIterationsValue 5))
            (SetPriorProbabilities [Q2Qc (1 # 2); Q2Qc (1 # 2)] ThreeRaters)).
Proof.
  assert (Hne : target (CallSet (MaximumNumberOfIterationsValue 5))
                <> target (CallUnset PriorProbabilities)) by discriminate.
  split; [exact Hne |].
  exact (calls_on_different_targets_commute _ _ _ Hne).
Defined.

Lemma repeated_call_changes_time_stamp_at_most_witness :
  (forall v, CallUnset ObserverTrust <> CallSet v)
  /\ call (CallUnset ObserverTrust)
       (call (CallUnset ObserverTrust) (SetObserverTrust [2%Qc] ThreeRaters))
     = call (CallUnset ObserverTrust) (SetObserverTrust [2%Qc] ThreeRaters).
Proof.
  assert (Hc : forall v, CallUnset ObserverTrust <> CallSet v)
    by (intros v; discriminate).
  split; [exact Hc |].
  exact (proj1 (proj2 (repeated_call_changes_time_stamp_at_most
                         (CallUnset ObserverTrust)
                         (SetObserverTrust [2%Qc] ThreeRaters))) Hc).
Defined.

Lemma TranslateSize_in_bounds_iff_witness :
  length [4; 6] = 2
  /\ exists size',
       TranslateSize 2 [4; 6] (fun _ => 7) = Some size'
       /\ SizeType_entries 2 size' = [4; 6].
Proof.
  assert (Hlen : length [4; 6] = 2) by reflexivity.
  split; [exact Hlen |].
  exact (proj2 (proj2 (TranslateSize_in_bounds_iff 2 [4; 6] (fun _ => 7)))
           Hlen).
Defined.

Lemma Dispatch_fails_iff_unsupported_witness :
  Dispatch (SampleEnvironment PlanarScan [4; 6]) Short 2 = Some (Short, 2)
  /\ 2 = 2
  /\ IsType (SampleEnvironment PlanarScan [4; 6]) Short Short = true
  /\ (2 = 2
      \/ (2 = 3
          /\ ITKTOOLS_3D_SUPPORT (SampleEnvironment PlanarScan [4; 6]) = true)).
Proof.
  assert (Hd : Dispatch (SampleEnvironment PlanarScan [4; 6]) Short 2
               = Some (Short, 2)) by reflexivity.
  split; [exact Hd |].
  exact (proj2 (Dispatch_fails_iff_unsupported
                  (SampleEnvironment PlanarScan [4; 6]) Short 2)
           Short 2 Hd).
Defined.

Lemma main_success_only_after_reshaping_witness :
  main (SampleEnvironment PlanarScan [4; 6]) <> Exit 1
  /\ exists T,
       Pipeline (SampleEnvironment PlanarScan [4; 6]) T 2 "scan.mhd"
         "scan_reshaped.mhd" [4; 6] = false.
Proof.
  assert (Hrun : main (SampleEnvironment PlanarScan [4; 6]) <> Exit 1)
    by discriminate.
  split; [exact Hrun |].
  destruct (main_success_only_after_reshaping
              (SampleEnvironment PlanarScan [4; 6]) Hrun)
    as [Hhelp | (_ & _ & _ & _ & _ & T & _ & Hp)]; [discriminate |].
  exists T. exact (proj2 (Hp (le_n 2))).
Defined.

Lemma main_rejects_without_running_witness :
  CheckForRequiredArguments (SampleEnvironment PlanarVectorScan [4; 6])
  <> HELPREQUESTED
  /\ 1 < NumberOfComponents PlanarVectorScan
  /\ main (SampleEnvironment PlanarVectorScan [4; 6]) = Exit 1.
Proof.
  assert (Hhelp : CheckForRequiredArguments
                    (SampleEnvironment PlanarVectorScan [4; 6])
                  <> HELPREQUESTED) by discriminate.
  assert (Hnc : 1 < NumberOfComponents PlanarVectorScan) by (cbn; lia).
  split; [exact Hhelp |]. split; [exact Hnc |].
  apply (main_rejects_without_running
           (SampleEnvironment PlanarVectorScan [4; 6]) Hhelp).
  right. right. left. exact Hnc.
Defined.

Lemma main_translates_the_whole_size_witness :
  length (inputSize PlanarScan) = Dimension PlanarScan
  /\ exists T,
       Pipeline (SampleEnvironment PlanarScan [4; 6]) T 2 "scan.mhd"
         "scan_reshaped.mhd" [4; 6] = false.
Proof.
  assert (Hsize : length (inputSize PlanarScan) = Dimension PlanarScan)
    by reflexivity.
  split; [exact Hsize |].
  destruct (proj2 (main_translates_the_whole_size
                     (SampleEnvironment PlanarScan [4; 6]) Hsize)
              eq_refl eq_refl) as (T & _ & _ & Hp).
  exists T. exact Hp.
Defined.

(** A size vector longer than the image dimension: the third entry of -s is
    written past the end of the two-dimensional [SizeType]. *)
Example size_vector_longer_than_dimension :
  main (SampleEnvironment
          {| retgip := 0; Dimension := 2; NumberOfComponents := 1;
             inputSize := [8; 3; 1] |} [4; 3; 2])
  = UndefinedBehaviour.
Proof. reflexivity. Qed.

(** Fewer sizes than dimensions: the reshaper is handed the entries given
    and, after them, whatever the uninitialised [SizeType] held. *)
Example size_vector_shorter_than_dimension :
  exists size',
    TranslateSize 3 [4; 6] (fun _ => 7) = Some size'
    /\ SizeType_entries 3 size' = [4; 6; 7].
Proof. eexists. split; reflexivity. Qed.
